(** * duetbackup: a shallow embedding of [duetbackup.go]

    The program mirrors the file tree of a Duet board, served through
    [rr_filelist] and [rr_download], onto the local disk.  This file embeds
    the exclude matcher, the listing fetcher, the local mirror updater, the
    reclaimer of vanished files and the recursive driver, over an explicit
    model of the local file system and of the HTTP server, and proves what
    the functions do. *)

From Stdlib Require Import ZArith List String Ascii Bool Lia Permutation Sorted.
From Stdlib Require Import DecimalString.
From stdpp Require Import base option list sorting gmap strings.

Local Open Scope string_scope.
Local Open Scope Z_scope.
Local Open Scope list_scope.

(** ** Constants of the program *)

Definition typeDirectory : string := "d".
Definition typeFile : string := "f".
Definition fileDownloadURL : string := "/rr_download?name=".
Definition fileListURL : string := "/rr_filelist?dir=".
Definition dirMarker : string := ".duetbackup".

(** ** Exclude matcher *)

Module Excludes.

(** [multiSlashRegex.ReplaceAllString(path, "/")] with the expression
    [/{2,}]: every maximal run of two or more slashes becomes one slash.
    A slash that is followed by another slash is dropped, so that only the
    last slash of a run remains. *)
Fixpoint collapseSlashes (s : string) : string :=
  match s with
  | EmptyString => EmptyString
  | String c s' =>
      match s' with
      | String c' _ =>
          if (Ascii.eqb c "/" && Ascii.eqb c' "/")%bool
          then collapseSlashes s'
          else String c (collapseSlashes s')
      | EmptyString => String c EmptyString
      end
  end.

(** [strings.TrimSuffix(s, "/")]: one trailing slash is removed, when there
    is one. *)
Fixpoint trimSlashSuffix (s : string) : string :=
  match s with
  | EmptyString => EmptyString
  | String c s' =>
      match s' with
      | EmptyString => if Ascii.eqb c "/" then EmptyString else s
      | String _ _ => String c (trimSlashSuffix s')
      end
  end.

Definition cleanPath (path : string) : string :=
  let cleanedPath := collapseSlashes path in
  trimSlashSuffix cleanedPath.

(** [type excludes struct { excls []string }] *)
Record excludes := { excls : list string }.

Definition empty : excludes := {| excls := [] |}.

(** [func (e *excludes) Set(value string) error]: appends the cleaned value;
    the returned error is always nil. *)
Definition Set_ (e : excludes) (value : string) : excludes :=
  {| excls := excls e ++ [cleanPath value] |}.

(** [strings.HasPrefix(s, prefix)] *)
Definition HasPrefix (s pre : string) : bool := String.prefix pre s.

(** [func (e *excludes) Contains(path string) bool]: the range loop that
    returns at the first exclude the path starts with. *)
Fixpoint ContainsLoop (l : list string) (path : string) : bool :=
  match l with
  | [] => false
  | excl :: rest => if HasPrefix path excl then true else ContainsLoop rest path
  end.

Definition Contains (e : excludes) (path : string) : bool :=
  ContainsLoop (excls e) path.

(** The exclude set after the flag parser has called [Set] once per
    [-exclude] argument, in order. *)
Definition configured (values : list string) : excludes :=
  fold_left Set_ values empty.

(** A cleaned path has no two slashes in a row and no slash at its end. *)
Fixpoint hasDoubleSlash (s : string) : bool :=
  match s with
  | EmptyString => false
  | String c s' =>
      match s' with
      | String c' _ => (Ascii.eqb c "/" && Ascii.eqb c' "/") || hasDoubleSlash s'
      | EmptyString => false
      end
  end%bool.

Fixpoint endsWithSlash (s : string) : bool :=
  match s with
  | EmptyString => false
  | String c s' =>
      match s' with
      | EmptyString => Ascii.eqb c "/"
      | String _ _ => endsWithSlash s'
      end
  end.

End Excludes.

(** ** Remote listing data model *)

(** [type file struct { Type string; Name string; Size uint64; Date localTime }].
    [Date] is the instant that [time.ParseInLocation] produced, as a number
    (its ordering is all the program uses). *)
Record file := { Type_ : string; Name : string; Size : N; Date : Z }.

(** [type filelist struct { Dir string; Files []file; next uint64 }] *)
Record filelist := { Dir : string; Files : list file; next : N }.

(** The JSON object of an [rr_filelist] response as it is on the wire:
    [{dir, files: [...], next}]. *)
Record rr_filelist := { rr_dir : string; rr_files : list file; rr_next : N }.

(** Go exports the struct fields whose name starts with an upper-case
    letter; [encoding/json] reads and writes exported fields only. *)
Definition isExported (fieldName : string) : bool :=
  match fieldName with
  | String c _ => (Ascii.leb "A" c && Ascii.leb c "Z")%bool
  | EmptyString => false
  end.

Definition decodeField {A : Type} (fieldName : string) (zero value : A) : A :=
  if isExported fieldName then value else zero.

(** ** [sort.SliceStable] *)

Module Sort.
Section SliceStable.
Context {A : Type}.
Variable less : A -> A -> bool.

(** The inner loop of the library's insertion sort,
    [for j := i; j > a && less(j, j-1); j-- { swap(j, j-1) }]:
    [x] is the element at [i], [before] holds the elements at
    [i-1, i-2, ..., a] (nearest first); the result is in the same
    reversed order. *)
Fixpoint insertLeft (x : A) (before : list A) : list A :=
  match before with
  | [] => [x]
  | y :: rest => if less x y then y :: insertLeft x rest else x :: y :: rest
  end.

(** The outer loop, [for i := a + 1; i < b; i++]. *)
Definition insertionSort (l : list A) : list A :=
  rev (fold_left (fun before x => insertLeft x before) l []).

(** [sort.SliceStable(x, less)].  Up to 20 elements the library runs
    exactly this insertion sort; longer slices are sorted in blocks of 20
    that are then merged in place, which gives the same slice whenever
    [less] is a strict weak order, since the stable sorted arrangement is
    then unique (see [stable_sort_unique]). *)
Definition SliceStable (l : list A) : list A := insertionSort l.

(** [notAfter x y]: [x] may stand before [y]. *)
Definition notAfter (x y : A) : Prop := less y x = false.

(** [equivb k x]: [x] has the sort key of [k]. *)
Definition equivb (k x : A) : bool := negb (less k x) && negb (less x k).
End SliceStable.
End Sort.

(** The comparison closure of [getFileList]. *)
Definition lessFile (a b : file) : bool :=
  if String.eqb (Type_ a) (Type_ b)
  then String.ltb (Name a) (Name b)
  else String.eqb (Type_ a) typeDirectory.

(** The two kinds of entry of the wire format. *)
Definition knownType (f : file) : Prop :=
  Type_ f = typeDirectory \/ Type_ f = typeFile.

Definition isDirectory (f : file) : bool := String.eqb (Type_ f) typeDirectory.

(** The comparison by kind and then by name: what [lessFile] is on entries
    of the two kinds. *)
Definition lessKind (a b : file) : bool :=
  if Bool.eqb (isDirectory a) (isDirectory b)
  then String.ltb (Name a) (Name b)
  else isDirectory a.

(** [hasKey t n f]: [f] has the sort key (type [t], name [n]). *)
Definition hasKey (t n : string) (f : file) : bool :=
  String.eqb (Type_ f) t && String.eqb (Name f) n.

(** ** The local file system *)

(** The disk holds regular files and directories, each with its
    modification time; there are no links, and names are told apart by
    their bytes.  Local paths are absolute and clean.  A time is a number
    of nanoseconds since the Unix epoch, and the disk keeps the time it is
    given. *)

Module FS.

(** A local path, as the list of its segments below the root. *)
Abbreviation path := (list string).

Inductive node :=
| File (mtime : Z) (data : string)
| Directory (mtime : Z).

Definition ModTime (n : node) : Z :=
  match n with File t _ => t | Directory t => t end.

Definition IsDir (n : node) : bool :=
  match n with Directory _ => true | File _ _ => false end.

Definition setModTime (t : Z) (n : node) : node :=
  match n with File _ d => File t d | Directory _ => Directory t end.

(** [time.Time{}], midnight before the first of January of the year 1 in
    UTC: what the date of an entry is when the response gives none. *)
Definition zeroTime : Z := -62135596800000000000.

(** The times that a signed count of nanoseconds in 64 bits holds: from
    1677-09-21 to 2262-04-11. *)
Definition minNano : Z := - 2 ^ 63.
Definition maxNano : Z := 2 ^ 63 - 1.

Definition storable (t : Z) : Prop := minNano <= t <= maxNano.

(** [t.UnixNano()]: the count is computed in [int64] and wraps around. *)
Definition UnixNano (t : Z) : Z := (t + 2 ^ 63) mod 2 ^ 64 - 2 ^ 63.

(** What [os.Chtimes] hands to the system for the time [t]: nothing for
    the zero time ([UTIME_OMIT]: the time of the entry is left as it is),
    and [syscall.NsecToTimespec(t.UnixNano())] for every other time. *)
Definition utimes (t : Z) : option Z :=
  if t =? zeroTime then None else Some (UnixNano t).

(** The modification time after [os.Chtimes] with the time [t] has taken
    effect on an entry whose modification time was [written]. *)
Definition stamped (written t : Z) : Z :=
  match utimes t with Some t' => t' | None => written end.

(** The modification time of a file that was created at [created] and to
    which [body] was written at [written]. *)
Definition writtenAt (created written : Z) (body : string) : Z :=
  match body with EmptyString => created | _ => written end.

(** The disk: what is stored at each path.  The root is the entry at [[]]. *)
Abbreviation disk := (gmap (list string) node).

(** [filepath.Join(dir, name)] for a [name] that is one path segment
    ([simpleName] below); [filepath_Join] is the function for every
    name. *)
Definition Join (dir : path) (name : string) : path := dir ++ [name].

(** A name that is one path segment: not empty, not [.] or [..], and
    without a slash and without a zero byte. *)
Fixpoint hasChar (c : ascii) (s : string) : bool :=
  match s with
  | EmptyString => false
  | String c' s' => Ascii.eqb c' c || hasChar c s'
  end.

Definition simpleName (n : string) : bool :=
  negb (String.eqb n EmptyString) && negb (String.eqb n ".") &&
  negb (String.eqb n "..") && negb (hasChar "/" n) && negb (hasChar "000" n).

(** The pieces of a name between its slashes. *)
Fixpoint splitSlash (s : string) : list string :=
  match s with
  | EmptyString => [EmptyString]
  | String c s' =>
      if Ascii.eqb c "/" then EmptyString :: splitSlash s'
      else match splitSlash s' with
           | seg :: rest => String c seg :: rest
           | [] => [String c EmptyString]
           end
  end.

(** One piece in [filepath.Clean] of a rooted path: an empty piece and
    [.] are dropped, [..] takes the last segment away, and stays at the
    root. *)
Definition cleanStep (p : path) (seg : string) : path :=
  if (String.eqb seg EmptyString || String.eqb seg ".")%bool then p
  else if String.eqb seg ".." then removelast p
  else p ++ [seg].

(** [filepath.Join(dir, name)] for every [name], where the separator is
    the slash: the path [dir/name], cleaned. *)
Definition filepath_Join (dir : path) (name : string) : path :=
  fold_left cleanStep (splitSlash name) dir.

Definition parent (p : path) : path := removelast p.

(** Path resolution: every segment before the last must be a directory. *)
Inductive resolved := Found (n : node) | NotExist | NotDir.

Fixpoint walk (d : disk) (cur : path) (rest : list string) : resolved :=
  match rest with
  | [] => match d !! cur with Some n => Found n | None => NotExist end
  | s :: rest' =>
      match d !! cur with
      | Some (Directory _) => walk d (cur ++ [s]) rest'
      | Some (File _ _) => NotDir
      | None => NotExist
      end
  end.

Definition resolve (d : disk) (p : path) : resolved := walk d [] p.

(** The directory above a new entry gets a new modification time. *)
Definition touchParent (now : Z) (p : path) (d : disk) : disk :=
  alter (setModTime now) (parent p) d.

(** [os.MkdirAll] on a disk: each missing segment becomes a directory; a
    regular file in the way is an error ([None]). *)
Fixpoint mkdirAllFrom (now : Z) (d : disk) (cur : path) (rest : list string)
  : option disk :=
  match d !! cur with
  | Some (File _ _) => None
  | Some (Directory _) =>
      match rest with
      | [] => Some d
      | s :: rest' => mkdirAllFrom now d (cur ++ [s]) rest'
      end
  | None =>
      let d' := touchParent now cur (<[cur := Directory now]> d) in
      match rest with
      | [] => Some d'
      | s :: rest' => mkdirAllFrom now d' (cur ++ [s]) rest'
      end
  end.

Definition mkdirAll (now : Z) (d : disk) (p : path) : option disk :=
  mkdirAllFrom now d [] p.

(** The entries directly inside [dir]. *)
Definition childOf (dir : path) (kv : path * node) : option (string * node) :=
  match drop (length dir) kv.1 with
  | [name] => if bool_decide (take (length dir) kv.1 = dir)
              then Some (name, kv.2) else None
  | _ => None
  end.

Definition children (d : disk) (dir : path) : list (string * node) :=
  omap (childOf dir) (map_to_list d).

Definition byName (a b : string * node) : bool := String.ltb a.1 b.1.

(** What [os.RemoveAll] leaves: nothing at [p] or below it. *)
Definition removeTree (p : path) (d : disk) : disk :=
  filter (fun kv => ¬ p `prefix_of` kv.1) d.

End FS.
Export FS.

(** ** Errors, the environment and the state of a run *)

Inductive syscall :=
| SysStat | SysMkdirAll | SysCreate | SysWrite | SysChtimes | SysReadDir
| SysRemoveAll.

Inductive errno := ENOENT | ENOTDIR | EISDIR | EIO.

Inductive error :=
| TransportError (url : string)
| SyntaxError (body : string)
| PathError (op : syscall) (p : path) (no : errno).

(** [os.IsNotExist(err)] on a possibly nil error. *)
Definition IsNotExist (err : option error) : bool :=
  match err with
  | Some (PathError _ _ ENOENT) => true
  | _ => false
  end.

(** What the program does not control.  [http_get] is [httpClient.Get]
    followed by [ioutil.ReadAll] ([None]: the transport failed);
    [json_decode] reads a body as the JSON object of a listing ([None]:
    malformed); [QueryEscape] is [url.QueryEscape]; [wall n] is the wall
    clock at the [n]-th file-system call of the run and [fault c p n] says
    whether that call, being [c] on [p], is refused by the system
    (permission, space, I/O). *)
Record env := {
  http_get : string -> option string;
  json_decode : string -> option rr_filelist;
  QueryEscape : string -> string;
  wall : nat -> Z;
  fault : syscall -> path -> nat -> bool
}.

(** The state a run acts on: the local disk, the number of file-system
    calls made so far, and the URLs requested so far (oldest first). *)
Record world := { fs : disk; steps : nat; requests : list string }.

Inductive result (A : Type) :=
| Ok (a : A)
| Err (e : error)
| OutOfFuel.
Arguments Ok {A} a.
Arguments Err {A} e.
Arguments OutOfFuel {A}.

(** Computations: state passing with Go's [if err != nil { return err }]. *)
Definition M (A : Type) : Type := world -> result A * world.

Definition ret {A} (a : A) : M A := fun w => (Ok a, w).
Definition fail {A} (e : error) : M A := fun w => (Err e, w).
Definition bind {A B} (m : M A) (k : A -> M B) : M B :=
  fun w =>
    match m w with
    | (Ok a, w') => k a w'
    | (Err e, w') => (Err e, w')
    | (OutOfFuel, w') => (OutOfFuel, w')
    end.

Notation "'do' x <- m ; k" := (bind m (fun x => k))
  (at level 10, x name, m at level 100, k at level 200).
Notation "'do_' m ; k" := (bind m (fun _ => k))
  (at level 10, m at level 100, k at level 200).

(** A call whose returned error the program does not look at. *)
Definition discard {A} (m : M A) : M unit :=
  fun w => match m w with (_, w') => (Ok tt, w') end.

(** [for _, x := range l { ... }] with a body that may return an error. *)
Fixpoint forEach {A} (l : list A) (body : A -> M unit) : M unit :=
  match l with
  | [] => ret tt
  | x :: rest => do_ body x; forEach rest body
  end.

Section Program.
Variable E : env.

(** *** File-system calls *)

(** Every call takes the next tick of the run: it reads the wall clock, and
    the system may refuse it. *)
Definition sys (c : syscall) (p : path) : M Z :=
  fun w =>
    let n := steps w in
    let w' := {| fs := fs w; steps := S n; requests := requests w |} in
    if fault E c p n then (Err (PathError c p EIO), w')
    else (Ok (wall E n), w').

Definition setDisk (d : disk) : M unit :=
  fun w => (Ok tt, {| fs := d; steps := steps w; requests := requests w |}).

Definition getDisk : M disk := fun w => (Ok (fs w), w).

(** [os.Stat(p)]: the pair [(fi, err)] that Go returns. *)
Definition os_Stat (p : path) : M (option node * option error) :=
  fun w =>
    match sys SysStat p w with
    | (Ok _, w') =>
        match resolve (fs w') p with
        | Found n => (Ok (Some n, None), w')
        | NotExist => (Ok (None, Some (PathError SysStat p ENOENT)), w')
        | NotDir => (Ok (None, Some (PathError SysStat p ENOTDIR)), w')
        end
    | (Err e, w') => (Ok (None, Some e), w')
    | (OutOfFuel, w') => (OutOfFuel, w')
    end.

(** [os.MkdirAll(p, 0755)] *)
Definition os_MkdirAll (p : path) : M unit :=
  do now <- sys SysMkdirAll p;
  do d <- getDisk;
  match mkdirAll now d p with
  | Some d' => setDisk d'
  | None => fail (PathError SysMkdirAll p ENOTDIR)
  end.

(** [os.Create(p)]: the file is created empty, or truncated when it is
    there; the directory above must be there, and [p] must not be a
    directory.  The result stands for the open file. *)
Definition os_Create (p : path) : M path :=
  do now <- sys SysCreate p;
  do d <- getDisk;
  match resolve d (parent p) with
  | Found (Directory _) =>
      match d !! p with
      | Some (Directory _) => fail (PathError SysCreate p EISDIR)
      | Some (File _ _) => do_ setDisk (<[p := File now EmptyString]> d); ret p
      | None =>
          do_ setDisk (touchParent now p (<[p := File now EmptyString]> d));
          ret p
      end
  | Found (File _ _) | NotDir => fail (PathError SysCreate p ENOTDIR)
  | NotExist => fail (PathError SysCreate p ENOENT)
  end.

(** [nf.Write(body)] on the file opened at [p], which is empty.  A write
    of no bytes has no effect: the file keeps the time of its creation. *)
Definition file_Write (p : path) (body : string) : M unit :=
  do now <- sys SysWrite p;
  do d <- getDisk;
  match body with
  | EmptyString => ret tt
  | _ => setDisk (<[p := File now body]> d)
  end.

(** [os.Chtimes(p, t, t)]: the system is handed [utimes t] for both
    times; with nothing to set, the call returns nil and sets nothing. *)
Definition os_Chtimes (p : path) (t : Z) : M unit :=
  do_ sys SysChtimes p;
  do d <- getDisk;
  match utimes t with
  | None => ret tt
  | Some t' =>
      match d !! p with
      | Some n => setDisk (<[p := setModTime t' n]> d)
      | None => fail (PathError SysChtimes p ENOENT)
      end
  end.

(** [ioutil.ReadDir(p)]: the entries of the directory, sorted by name. *)
Definition ioutil_ReadDir (p : path) : M (list (string * node)) :=
  do_ sys SysReadDir p;
  do d <- getDisk;
  match resolve d p with
  | Found (Directory _) => ret (Sort.SliceStable byName (children d p))
  | Found (File _ _) | NotDir => fail (PathError SysReadDir p ENOTDIR)
  | NotExist => fail (PathError SysReadDir p ENOENT)
  end.

(** [os.RemoveAll(p)]: removes [p] and everything below; nil when there is
    nothing at [p]. *)
Definition os_RemoveAll (p : path) : M unit :=
  do now <- sys SysRemoveAll p;
  do d <- getDisk;
  match d !! p with
  | Some _ => setDisk (touchParent now p (removeTree p d))
  | None => ret tt
  end.

(** *** The program *)

(** [download(url)]; the measured duration only goes to the log. *)
Definition download (url : string) : M string :=
  fun w =>
    let w' := {| fs := fs w; steps := steps w;
                 requests := requests w ++ [url] |} in
    match http_get E url with
    | Some body => (Ok body, w')
    | None => (Err (TransportError url), w')
    end.

(** [json.Unmarshal(body, &fl)] for [var fl filelist].  The decoder writes
    the value of a key to the struct field of that name when the field is
    exported; a field that is not exported keeps the zero value of
    [var fl]. *)
Definition json_Unmarshal (body : string) : M filelist :=
  match json_decode E body with
  | Some r =>
      ret {| Dir := decodeField "Dir" EmptyString (rr_dir r);
             Files := decodeField "Files" [] (rr_files r);
             next := decodeField "next" 0%N (rr_next r) |}
  | None => fail (SyntaxError body)
  end.

(** [getFileList(baseURL, dir, first)].  The request is built from
    [baseURL] and [dir] alone. *)
Fixpoint getFileList (fuel : nat) (baseURL dir : string) (first : N)
  : M filelist :=
  match fuel with
  | O => fun w => (OutOfFuel, w)
  | S fuel' =>
      do body <- download (baseURL ++ fileListURL ++ dir)%string;
      do fl <- json_Unmarshal body;
      do files <-
        (if (0 <? next fl)%N
         then do moreFiles <- getFileList fuel' baseURL dir (next fl);
              ret (Files fl ++ Files moreFiles)
         else ret (Files fl));
      ret {| Dir := Dir fl;
             Files := Sort.SliceStable lessFile files;
             next := next fl |}
  end.

(** [ensureOutDirExists(outDir, verbose)]; [outDir] is absolute, so that
    [filepath.Abs] returns it. *)
Definition ensureOutDirExists (outDir : path) : M unit :=
  let path := outDir in
  do st <- os_Stat path;
  let '(fi, err) := st in
  if (bool_decide (err <> None) && negb (IsNotExist err))%bool
  then match err with Some e => fail e | None => ret tt end
  else
    do_ (match fi with
         | None => os_MkdirAll path
         | Some _ => ret tt
         end);
    do_ os_Create (Join path dirMarker);
    ret tt.

(** The branch of [updateLocalFiles] for a file that is missing or
    outdated: download, create or truncate, write, adjust the modification
    time.  What [os.Chtimes] returns is dropped; [nf.Close()] is deferred to
    the end of the function and changes nothing here. *)
Definition fetchFile (baseURL : string) (fl : filelist) (outDir : path)
  (file : file) : M unit :=
  let remoteFilename := (Dir fl ++ "/" ++ Name file)%string in
  let fileName := Join outDir (Name file) in
  do body <- download
         (baseURL ++ fileDownloadURL ++ QueryEscape E remoteFilename)%string;
  do nf <- os_Create fileName;
  do_ file_Write nf body;
  discard (os_Chtimes fileName (Date file)).

(** One turn of the loop of [updateLocalFiles]. *)
Definition updateLocalFile (baseURL : string) (fl : filelist) (outDir : path)
  (excls : Excludes.excludes) (file : file) : M unit :=
  if String.eqb (Type_ file) typeDirectory then ret tt
  else
    let remoteFilename := (Dir fl ++ "/" ++ Name file)%string in
    if Excludes.Contains excls remoteFilename then ret tt
    else
      let fileName := Join outDir (Name file) in
      do st <- os_Stat fileName;
      let '(fi, err) := st in
      if (bool_decide (err <> None) && negb (IsNotExist err))%bool
      then match err with Some e => fail e | None => ret tt end
      else
        if match fi with
           | None => true
           | Some n => (ModTime n <? Date file)%Z
           end
        then fetchFile baseURL fl outDir file
        else ret tt.

(** [updateLocalFiles(baseURL, fl, outDir, excls, removeLocal, verbose)] *)
Definition updateLocalFiles (baseURL : string) (fl : filelist) (outDir : path)
  (excls : Excludes.excludes) : M unit :=
  do_ ensureOutDirExists outDir;
  forEach (Files fl) (updateLocalFile baseURL fl outDir excls).

(** [isManagedDirectory(basePath, f)] *)
Definition isManagedDirectory (basePath : path) (f : string * node) : M bool :=
  if negb (IsDir f.2) then ret false
  else
    let markerFile := Join (Join basePath f.1) dirMarker in
    do st <- os_Stat markerFile;
    let '(fi, err) := st in
    if (bool_decide (err <> None) && negb (IsNotExist err))%bool then ret false
    else match fi with
         | None => ret false
         | Some _ => ret true
         end.

(** One turn of the loop of [removeDeletedFiles]. *)
Definition removeDeletedFile (existingFiles : gset string) (outDir : path)
  (f : string * node) : M unit :=
  if bool_decide (f.1 ∈ existingFiles) then ret tt
  else
    do managed <- isManagedDirectory outDir f;
    if (negb managed || String.eqb f.1 dirMarker)%bool then ret tt
    else os_RemoveAll (Join outDir f.1).

(** [removeDeletedFiles(fl, outDir, verbose)] *)
Definition removeDeletedFiles (fl : filelist) (outDir : path) : M unit :=
  let existingFiles : gset string := list_to_set (map Name (Files fl)) in
  do files <- ioutil_ReadDir outDir;
  forEach files (removeDeletedFile existingFiles outDir).

(** [syncFolder(address, folder, outDir, excls, removeLocal, verbose)] *)
Fixpoint syncFolder (fuel : nat) (address folder : string) (outDir : path)
  (excls : Excludes.excludes) (removeLocal : bool) : M unit :=
  match fuel with
  | O => fun w => (OutOfFuel, w)
  | S fuel' =>
      if Excludes.Contains excls folder then ret tt
      else
        do fl <- getFileList fuel address (QueryEscape E folder) 0%N;
        do_ updateLocalFiles address fl outDir excls;
        do_ (if removeLocal then removeDeletedFiles fl outDir else ret tt);
        forEach (Files fl) (fun file =>
          if negb (String.eqb (Type_ file) typeDirectory) then ret tt
          else
            let remoteFilename := (Dir fl ++ "/" ++ Name file)%string in
            let fileName := Join outDir (Name file) in
            syncFolder fuel' address remoteFilename fileName excls removeLocal)
  end.

End Program.

(** ** Words for the statements *)

(** The URL that [getFileList] asks for. *)
Definition listingURL (baseURL dir : string) : string :=
  (baseURL ++ fileListURL ++ dir)%string.

(** The world after one more request. *)
Definition requested (url : string) (w : world) : world :=
  {| fs := fs w; steps := steps w; requests := requests w ++ [url] |}.

(** The world after one more file-system call. *)
Definition tick (w : world) : world :=
  {| fs := fs w; steps := S (steps w); requests := requests w |}.

(** The same world with another disk. *)
Definition withDisk (d : disk) (w : world) : world :=
  {| fs := d; steps := steps w; requests := requests w |}.

(** The local modification time is not earlier than [t]. *)
Definition fresh (d : disk) (p : path) (t : Z) : Prop :=
  exists n, d !! p = Some n /\ t <= ModTime n.

(** [p] is a directory that can be reached. *)
Definition isDirAt (d : disk) (p : path) : Prop :=
  exists t, resolve d p = Found (Directory t).


(** The remote name of an entry, and the URL it is downloaded from. *)
Definition remoteName (fl : filelist) (f : file) : string :=
  (Dir fl ++ "/" ++ Name f)%string.

Definition downloadURL (E : env) (baseURL : string) (fl : filelist) (f : file)
  : string :=
  (baseURL ++ fileDownloadURL ++ QueryEscape E (remoteName fl f))%string.

(** An entry that [updateLocalFiles] looks at: not a directory entry, and
    not covered by an exclude. *)
Definition mirrored (excls : Excludes.excludes) (fl : filelist) (f : file)
  : Prop :=
  Type_ f <> typeDirectory /\ Excludes.Contains excls (remoteName fl f) = false.

(** The directory at [dir] holds a marker entry. *)
Definition hasMarker (d : disk) (dir : path) : Prop :=
  is_Some (d !! Join dir dirMarker).

(** A child of [outDir] that the reclaimer must leave alone: one that the
    listing names, the marker entry, an entry that is not a directory, or a
    directory without a marker entry. *)
Definition spared (fl : filelist) (d : disk) (outDir : path) (n : string)
  (nd : node) : Prop :=
  In n (map Name (Files fl)) \/ n = dirMarker \/ IsDir nd = false \/
  ~ hasMarker d (Join outDir n).

(** A child of [outDir] that the reclaimer removes when it comes to it: a
    directory that holds a marker entry, is not named like the marker and
    is not named by the listing. *)
Definition reclaimable (fl : filelist) (d : disk) (outDir : path) (m : string)
  : Prop :=
  ~ In m (map Name (Files fl)) /\ m <> dirMarker /\
  (exists t, d !! Join outDir m = Some (Directory t)) /\
  hasMarker d (Join outDir m).

(** [laterThan x y]: [x] may stand after [y] in a sorted listing: when [x]
    is a directory, so is [y], and the name of [x] is not the smaller. *)
Definition laterThan (x y : file) : Prop :=
  isDirectory x = true ->
  isDirectory y = true /\ String.ltb (Name x) (Name y) = false.

(** [keepsKinds d d']: what is on [d] is still there on [d'], a directory
    as a directory and a regular file as a regular file. *)
Definition keepsKinds (d d' : disk) : Prop :=
  forall q x, d !! q = Some x ->
    exists x', d' !! q = Some x' /\ IsDir x' = IsDir x.

(** A string without its slashes. *)
Fixpoint dropSlashes (s : string) : string :=
  match s with
  | EmptyString => EmptyString
  | String c s' =>
      if Ascii.eqb c "/" then dropSlashes s' else String c (dropSlashes s')
  end.

(** ** The start of the program *)

Definition sysDir : string := "0:/sys".

(** [func (e *excludes) String() string] *)
Definition excludes_String (e : Excludes.excludes) : string :=
  String.concat "," (Excludes.excls e).

(** [getAddress(domain, port)]; [strconv.FormatUint(port, 10)] is the
    decimal numeral of the port. *)
Definition getAddress (domain : string) (port : N) : string :=
  ("http://" ++ domain ++ ":" ++ NilZero.string_of_uint (N.to_uint port))%string.

(** The values of the flags after [flag.Parse()], and their defaults. *)
Record flags := {
  flag_domain : string;
  flag_port : N;
  flag_dirToBackup : string;
  flag_outDir : string;
  flag_password : string;
  flag_removeLocal : bool;
  flag_exclude : Excludes.excludes
}.

Definition defaultFlags : flags :=
  {| flag_domain := EmptyString; flag_port := 80; flag_dirToBackup := sysDir;
     flag_outDir := EmptyString; flag_password := "reprap";
     flag_removeLocal := false; flag_exclude := Excludes.empty |}.

(** What [main] takes from the system besides [env]: whether
    [httpClient.Get] of a URL returns without error (its answer is not
    read), the text of [time.Now()] in the layout of the program, and the
    absolute path that [filepath.Abs] makes of [-outDir]. *)
Record startup := {
  getAnswers : string -> bool;
  timeNow : string;
  absOutDir : path
}.

(** How a run of [main] ends: it returns, [os.Exit(0)] after "Duet
    currently not available", one of the three [log.Fatal], or no end
    within the fuel. *)
Inductive ending :=
| Finished
| NotAvailable
| FatalParameters
| FatalPort
| FatalSync (e : error)
| Unfinished.

Section Startup.
Variable E : env.
Variable S0 : startup.

(** [connect(address, password, verbose)] *)
Definition connect (address password : string) : M unit :=
  fun w =>
    let path := ("/rr_connect?password=" ++ QueryEscape E password
                 ++ "&time=" ++ QueryEscape E (timeNow S0))%string in
    let url := (address ++ path)%string in
    if getAnswers S0 url then (Ok tt, requested url w)
    else (Err (TransportError url), requested url w).

(** [main()], from the parsed flags on. *)
Definition main (fuel : nat) (f : flags) (w : world) : ending * world :=
  if (String.eqb (flag_domain f) EmptyString
      || String.eqb (flag_outDir f) EmptyString)%bool
  then (FatalParameters, w)
  else if (65535 <? flag_port f)%N then (FatalPort, w)
  else
    let address := getAddress (flag_domain f) (flag_port f) in
    match connect address (flag_password f) w with
    | (Ok _, w1) =>
        let absPath := absOutDir S0 in
        match syncFolder E fuel address (Excludes.cleanPath (flag_dirToBackup f))
                absPath (flag_exclude f) (flag_removeLocal f) w1 with
        | (Ok _, w2) => (Finished, w2)
        | (Err e, w2) => (FatalSync e, w2)
        | (OutOfFuel, w2) => (Unfinished, w2)
        end
    | (_, w1) => (NotAvailable, w1)
    end.

End Startup.

(** ** Concrete runs *)

Module Demo.

Definition address : string := "http://duet:80".

(** [url.QueryEscape] on the characters that the paths below are made of. *)
Fixpoint escape (s : string) : string :=
  match s with
  | EmptyString => EmptyString
  | String c s' =>
      if Ascii.eqb c ":" then ("%3A" ++ escape s')%string
      else if Ascii.eqb c "/" then ("%2F" ++ escape s')%string
      else String c (escape s')
  end.

Definition noFault : syscall -> path -> nat -> bool := fun _ _ _ => false.

Definition clock (n : nat) : Z := 1000 + Z.of_nat n.

Definition configG : file :=
  {| Type_ := "f"; Name := "config.g"; Size := 120; Date := 100 |}.
Definition bedG : file :=
  {| Type_ := "f"; Name := "bed.g"; Size := 80; Date := 90 |}.

(** A server that hands out [0:/sys] in two pages. *)
Definition page1 : rr_filelist :=
  {| rr_dir := "0:/sys"; rr_files := [configG]; rr_next := 1 |}.
Definition page2 : rr_filelist :=
  {| rr_dir := "0:/sys"; rr_files := [bedG]; rr_next := 0 |}.

Definition pagedServer : env :=
  {| http_get := fun url =>
       if String.eqb url "http://duet:80/rr_filelist?dir=0%3A%2Fsys"
       then Some "page 1"
       else if String.eqb url "http://duet:80/rr_filelist?dir=0%3A%2Fsys&first=1"
       then Some "page 2"
       else None;
     json_decode := fun body =>
       if String.eqb body "page 1" then Some page1
       else if String.eqb body "page 2" then Some page2
       else None;
     QueryEscape := escape;
     wall := clock;
     fault := noFault |}.

(** The tree [0:/sys/{a.txt, sub/b.txt}], and the same tree once [a.txt] is
    gone. *)
Definition aTxt : file := {| Type_ := "f"; Name := "a.txt"; Size := 3; Date := 100 |}.
Definition bTxt : file := {| Type_ := "f"; Name := "b.txt"; Size := 3; Date := 50 |}.
Definition subDir : file := {| Type_ := "d"; Name := "sub"; Size := 0; Date := 40 |}.

Definition sysListing : rr_filelist :=
  {| rr_dir := "0:/sys"; rr_files := [aTxt; subDir]; rr_next := 0 |}.
Definition sysListingLater : rr_filelist :=
  {| rr_dir := "0:/sys"; rr_files := [subDir]; rr_next := 0 |}.
Definition subListing : rr_filelist :=
  {| rr_dir := "0:/sys/sub"; rr_files := [bTxt]; rr_next := 0 |}.

Definition treeGet (url : string) : option string :=
  if String.eqb url "http://duet:80/rr_filelist?dir=0%3A%2Fsys"
  then Some "listing of sys"
  else if String.eqb url "http://duet:80/rr_filelist?dir=0%3A%2Fsys%2Fsub"
  then Some "listing of sub"
  else if String.eqb url "http://duet:80/rr_download?name=0%3A%2Fsys%2Fa.txt"
  then Some "aaa"
  else if String.eqb url "http://duet:80/rr_download?name=0%3A%2Fsys%2Fsub%2Fb.txt"
  then Some "bbb"
  else None.

Definition treeDecode (sys : rr_filelist) (body : string) : option rr_filelist :=
  if String.eqb body "listing of sys" then Some sys
  else if String.eqb body "listing of sub" then Some subListing
  else None.

Definition treeServer : env :=
  {| http_get := treeGet; json_decode := treeDecode sysListing;
     QueryEscape := escape; wall := clock; fault := noFault |}.

Definition treeServerLater : env :=
  {| http_get := treeGet; json_decode := treeDecode sysListingLater;
     QueryEscape := escape; wall := clock; fault := noFault |}.

(** The same server seen from a system that refuses every [os.Chtimes]. *)
Definition chtimesRefused (c : syscall) (p : path) (n : nat) : bool :=
  match c with SysChtimes => true | _ => false end.

Definition treeServerNoChtimes : env :=
  {| http_get := treeGet; json_decode := treeDecode sysListing;
     QueryEscape := escape; wall := clock; fault := chtimesRefused |}.

(** The listings as [getFileList] returns them. *)
Definition sysFiles : filelist :=
  {| Dir := "0:/sys"; Files := [subDir; aTxt]; next := 0 |}.
Definition sysFilesLater : filelist :=
  {| Dir := "0:/sys"; Files := [subDir]; next := 0 |}.

(** A disk with nothing but the root, and the start of a run on a disk. *)
Definition rootOnly : disk := {[ [] := Directory 0 ]}.

Definition start (d : disk) : world := {| fs := d; steps := 0; requests := [] |}.

Definition backup : path := ["backup"].

(** The mirror of the tree in [backup], as a first run leaves it. *)
Definition mirror : disk :=
  fs (syncFolder treeServer 3 address "0:/sys" backup Excludes.empty true
        (start rootOnly)).2.

(** A directory whose remote listing holds a file that has the name of the
    marker and a date after the local clock. *)
Definition markerTwin : file :=
  {| Type_ := "f"; Name := ".duetbackup"; Size := 0; Date := 5000 |}.
Definition twinFiles : filelist :=
  {| Dir := "0:/sys"; Files := [markerTwin]; next := 0 |}.
Definition twinServer : env :=
  {| http_get := fun _ => Some EmptyString; json_decode := fun _ => None;
     QueryEscape := escape; wall := clock; fault := noFault |}.

(** A server that answers every request, seen from the same system, and a
    listing of two files. *)
Definition anyServerNoChtimes : env :=
  {| http_get := fun _ => Some "data"; json_decode := fun _ => None;
     QueryEscape := escape; wall := clock; fault := chtimesRefused |}.
Definition twoFiles : filelist :=
  {| Dir := "0:/sys"; Files := [aTxt; configG]; next := 0 |}.

(** A local directory that holds a marker, a file and a directory without
    a marker, none of which the remote listing names. *)
Definition foreign : disk :=
  <[ ["backup"; "notes"; "todo.txt"] := File 7 "x" ]>
  (<[ ["backup"; "notes"] := Directory 6 ]>
  (<[ ["backup"; "old.g"] := File 5 "y" ]>
  (<[ ["backup"; ".duetbackup"] := File 4 EmptyString ]>
  (<[ ["backup"] := Directory 3 ]> rootOnly)))).

End Demo.

(** ** More runs *)

Module Cases.
Import Demo.

(** A server whose every listing holds the directory [sub]: a remote tree
    without an end. *)
Definition loopListing : rr_filelist :=
  {| rr_dir := "0:/sys"; rr_files := [subDir]; rr_next := 0 |}.
Definition loopServer : env :=
  {| http_get := fun _ => Some "again"; json_decode := fun _ => Some loopListing;
     QueryEscape := escape; wall := clock; fault := noFault |}.

(** A disk on which a regular file has the name of the output directory. *)
Definition fileInTheWay : disk := <[ backup := File 3 "z" ]> rootOnly.

(** A listing that names nothing. *)
Definition nothingLeft : filelist :=
  {| Dir := "0:/sys"; Files := []; next := 0 |}.

(** A response that holds an entry of a third type between two files. *)
Definition fileB : file := {| Type_ := "f"; Name := "b"; Size := 0; Date := 0 |}.
Definition otherM : file := {| Type_ := "x"; Name := "m"; Size := 0; Date := 0 |}.
Definition fileA : file := {| Type_ := "f"; Name := "a"; Size := 0; Date := 0 |}.
Definition mixedListing : rr_filelist :=
  {| rr_dir := "0:/sys"; rr_files := [fileB; otherM; fileA]; rr_next := 0 |}.
Definition mixedServer : env :=
  {| http_get := fun _ => Some "mixed"; json_decode := fun _ => Some mixedListing;
     QueryEscape := escape; wall := clock; fault := noFault |}.


(** A file dated in the year 2300, after the last time that 64 bits hold
    as a count of nanoseconds, and a file without a date. *)
Definition farFile : file :=
  {| Type_ := "f"; Name := "far.g"; Size := 0; Date := 10413792000000000000 |}.
Definition undated : file :=
  {| Type_ := "f"; Name := "undated.g"; Size := 0; Date := zeroTime |}.
Definition farFiles : filelist :=
  {| Dir := "0:/sys"; Files := [farFile; undated]; next := 0 |}.

End Cases.

(** * Properties *)

(** ** The exclude matcher *)

Module ExcludesFacts.
Import Excludes.

Lemma ContainsLoop_iff (l : list string) (p : string) :
  ContainsLoop l p = true <-> exists x, In x l /\ String.prefix x p = true.
Proof.
  induction l as [|x l IH]; simpl.
  - split; [discriminate | intros (x & [] & _)].
  - unfold HasPrefix. destruct (String.prefix x p) eqn:Hx.
    + split; [intros _; exists x; auto | reflexivity].
    + rewrite IH. split.
      * intros (y & Hy & Hp). exists y. auto.
      * intros (y & [<- | Hy] & Hp); [congruence | exists y; auto].
Qed.

Lemma excls_fold_Set (values : list string) (e : excludes) :
  excls (fold_left Set_ values e) = excls e ++ map cleanPath values.
Proof.
  revert e. induction values as [|v values IH]; intros e; simpl.
  - now rewrite app_nil_r.
  - rewrite IH. simpl. now rewrite <- app_assoc.
Qed.

Lemma excls_configured (values : list string) :
  excls (configured values) = map cleanPath values.
Proof. unfold configured. now rewrite excls_fold_Set. Qed.

(** [Set] is the only way in, and it stores cleaned values. *)
Lemma Contains_Set (e : excludes) (v p : string) :
  Contains (Set_ e v) p = (Contains e p || String.prefix (cleanPath v) p)%bool.
Proof.
  unfold Contains, Set_. simpl. induction (excls e) as [|x l IH]; simpl.
  - unfold HasPrefix. now destruct (String.prefix (cleanPath v) p).
  - destruct (HasPrefix p x); [reflexivity | exact IH].
Qed.

Lemma hasDoubleSlash_cons2 (c c' : ascii) (s : string) :
  hasDoubleSlash (String c (String c' s)) =
  ((Ascii.eqb c "/" && Ascii.eqb c' "/") || hasDoubleSlash (String c' s))%bool.
Proof. reflexivity. Qed.

Lemma collapseSlashes_head (c : ascii) (s : string) :
  exists t, collapseSlashes (String c s) = String c t.
Proof.
  revert c. induction s as [|c' s IH]; intros c.
  - now exists EmptyString.
  - cbn [collapseSlashes]. destruct (Ascii.eqb c "/" && Ascii.eqb c' "/")%bool eqn:Hcc.
    + apply andb_prop in Hcc as [Hc Hc']. apply Ascii.eqb_eq in Hc, Hc'. subst.
      apply IH.
    + eexists. reflexivity.
Qed.

Lemma collapseSlashes_no_double (s : string) :
  hasDoubleSlash (collapseSlashes s) = false.
Proof.
  induction s as [|c s IH]; [reflexivity |].
  destruct s as [|c' s]; [reflexivity |].
  change (collapseSlashes (String c (String c' s)))
    with (if (Ascii.eqb c "/" && Ascii.eqb c' "/")%bool
          then collapseSlashes (String c' s)
          else String c (collapseSlashes (String c' s))).
  destruct (Ascii.eqb c "/" && Ascii.eqb c' "/")%bool eqn:Hcc; [exact IH |].
  destruct (collapseSlashes_head c' s) as [t Ht]. rewrite Ht in IH |- *.
  now rewrite hasDoubleSlash_cons2, Hcc, IH.
Qed.

Lemma trimSlashSuffix_no_double (s : string) :
  hasDoubleSlash s = false -> hasDoubleSlash (trimSlashSuffix s) = false.
Proof.
  induction s as [|c s IH]; [reflexivity |].
  destruct s as [|c' s]; [cbn; now destruct (Ascii.eqb c "/") |].
  intros H. rewrite hasDoubleSlash_cons2 in H. apply orb_false_elim in H as [Hcc H].
  specialize (IH H).
  change (trimSlashSuffix (String c (String c' s)))
    with (String c (trimSlashSuffix (String c' s))).
  destruct s as [|c'' s].
  - cbn [trimSlashSuffix]. destruct (Ascii.eqb c' "/") eqn:Hc'; [reflexivity |].
    now rewrite hasDoubleSlash_cons2, Hc', andb_false_r.
  - change (trimSlashSuffix (String c' (String c'' s)))
      with (String c' (trimSlashSuffix (String c'' s))) in IH |- *.
    now rewrite hasDoubleSlash_cons2, Hcc, IH.
Qed.

Lemma trimSlashSuffix_no_trailing (s : string) :
  hasDoubleSlash s = false -> endsWithSlash (trimSlashSuffix s) = false.
Proof.
  induction s as [|c s IH]; [reflexivity |].
  destruct s as [|c' s]; [cbn; now destruct (Ascii.eqb c "/") eqn:Hc; cbn; rewrite ?Hc |].
  intros H. rewrite hasDoubleSlash_cons2 in H. apply orb_false_elim in H as [Hcc H].
  specialize (IH H).
  change (trimSlashSuffix (String c (String c' s)))
    with (String c (trimSlashSuffix (String c' s))).
  destruct s as [|c'' s].
  - cbn [trimSlashSuffix]. destruct (Ascii.eqb c' "/") eqn:Hc'.
    + rewrite andb_true_r in Hcc. exact Hcc.
    + cbn [endsWithSlash]. exact Hc'.
  - change (trimSlashSuffix (String c' (String c'' s)))
      with (String c' (trimSlashSuffix (String c'' s))) in IH |- *.
    exact IH.
Qed.

(** What [cleanPath] returns is clean. *)
Lemma cleanPath_clean (s : string) :
  hasDoubleSlash (cleanPath s) = false /\ endsWithSlash (cleanPath s) = false.
Proof.
  unfold cleanPath. split.
  - apply trimSlashSuffix_no_double, collapseSlashes_no_double.
  - apply trimSlashSuffix_no_trailing, collapseSlashes_no_double.
Qed.

Lemma collapseSlashes_id (s : string) :
  hasDoubleSlash s = false -> collapseSlashes s = s.
Proof.
  induction s as [|c s IH]; [reflexivity |].
  destruct s as [|c' s]; [reflexivity |].
  intros H. rewrite hasDoubleSlash_cons2 in H. apply orb_false_elim in H as [Hcc H].
  change (collapseSlashes (String c (String c' s)))
    with (if (Ascii.eqb c "/" && Ascii.eqb c' "/")%bool
          then collapseSlashes (String c' s)
          else String c (collapseSlashes (String c' s))).
  rewrite Hcc. now rewrite (IH H).
Qed.

Lemma trimSlashSuffix_id (s : string) :
  endsWithSlash s = false -> trimSlashSuffix s = s.
Proof.
  induction s as [|c s IH]; [reflexivity |].
  destruct s as [|c' s]; [cbn; now intros -> |].
  intros H. change (trimSlashSuffix (String c (String c' s)))
    with (String c (trimSlashSuffix (String c' s))).
  now rewrite IH.
Qed.

(** A path that is clean already is left as it is. *)
Lemma cleanPath_fixes_clean (s : string) :
  hasDoubleSlash s = false -> endsWithSlash s = false -> cleanPath s = s.
Proof.
  intros H1 H2. unfold cleanPath. rewrite (collapseSlashes_id s H1).
  now apply trimSlashSuffix_id.
Qed.

Lemma cleanPath_idempotent (s : string) : cleanPath (cleanPath s) = cleanPath s.
Proof. destruct (cleanPath_clean s). now apply cleanPath_fixes_clean. Qed.

(** C5, as the code has it: [Contains] compares the cleaned excludes with
    the path as it is passed, which is not cleaned; the comparison is a
    plain string prefix, so that the exclude [/sys] also covers
    [/system]. *)
Theorem Contains_iff_prefix_of_given_path :
  (forall (values : list string) (p : string),
      Contains (configured values) p = true <->
      exists v, In v values /\ String.prefix (cleanPath v) p = true)
  /\ Contains (configured ["/sys"]) "/system" = true.
Proof.
  split; [| reflexivity].
  intros values p. unfold Contains. rewrite excls_configured, ContainsLoop_iff.
  split.
  - intros (x & Hx & Hp). apply in_map_iff in Hx as (v & <- & Hv). eauto.
  - intros (v & Hv & Hp). exists (cleanPath v). split; [now apply in_map | exact Hp].
Qed.

(** C5 as it is stated fails: the path [//sys/www] cleans to [/sys/www],
    which starts with the exclude [/sys], and [Contains] says no. *)
Lemma Contains_does_not_clean_path :
  ~ (Contains (configured ["/sys"]) "//sys/www" = true <->
     exists v, In v ["/sys"] /\
               String.prefix (cleanPath v) (cleanPath "//sys/www") = true).
Proof.
  intros [_ H].
  assert (Hc : Contains (configured ["/sys"]) "//sys/www" = true).
  { apply H. exists "/sys". split; [now left | reflexivity]. }
  discriminate Hc.
Qed.

End ExcludesFacts.

(** ** Stable sorting *)

Module SortFacts.
Import Sort.

Section Generic.
Context {A : Type}.
Variable less : A -> A -> bool.

Lemma insertLeft_perm (x : A) (before : list A) :
  Permutation (insertLeft less x before) (x :: before).
Proof.
  induction before as [|y rest IH]; simpl; [reflexivity |].
  destruct (less x y); [| reflexivity].
  rewrite IH. apply perm_swap.
Qed.

Lemma fold_insertLeft_perm (l before : list A) :
  Permutation (fold_left (fun b x => insertLeft less x b) l before)
              (rev l ++ before).
Proof.
  revert before. induction l as [|x l IH]; intros before; simpl; [reflexivity |].
  rewrite IH, insertLeft_perm, <- app_assoc. simpl.
  apply Permutation_app_head. reflexivity.
Qed.

Lemma SliceStable_perm (l : list A) : Permutation (SliceStable less l) l.
Proof.
  unfold SliceStable, insertionSort.
  rewrite <- Permutation_rev, fold_insertLeft_perm, app_nil_r.
  symmetry. apply Permutation_rev.
Qed.

(** Sorting with two comparisons that agree on the elements of the slice
    gives the same slice. *)
Lemma insertLeft_ext (less' : A -> A -> bool) (x : A) (before : list A) :
  (forall y, In y before -> less x y = less' x y) ->
  insertLeft less x before = insertLeft less' x before.
Proof.
  induction before as [|y rest IH]; intros H; simpl; [reflexivity |].
  rewrite <- (H y) by now left.
  destruct (less x y); [| reflexivity].
  f_equal. apply IH. intros z Hz. apply H. now right.
Qed.

Lemma fold_insertLeft_ext (less' : A -> A -> bool) (l before : list A) :
  (forall a b, In a (l ++ before) -> In b (l ++ before) -> less a b = less' a b) ->
  fold_left (fun b x => insertLeft less x b) l before =
  fold_left (fun b x => insertLeft less' x b) l before.
Proof.
  revert before. induction l as [|x l IH]; intros before H; simpl; [reflexivity |].
  rewrite <- (insertLeft_ext less' x before).
  - apply IH. intros a b Ha Hb. apply H.
    + apply in_app_or in Ha as [Ha | Ha]; [right; apply in_or_app; now left |].
      apply (Permutation_in _ (insertLeft_perm x before)) in Ha.
      destruct Ha as [<- | Ha]; [now left | right; apply in_or_app; now right].
    + apply in_app_or in Hb as [Hb | Hb]; [right; apply in_or_app; now left |].
      apply (Permutation_in _ (insertLeft_perm x before)) in Hb.
      destruct Hb as [<- | Hb]; [now left | right; apply in_or_app; now right].
  - intros y Hy. apply H; [now left | right; apply in_or_app; now right].
Qed.

Lemma SliceStable_ext (less' : A -> A -> bool) (l : list A) :
  (forall a b, In a l -> In b l -> less a b = less' a b) ->
  SliceStable less l = SliceStable less' l.
Proof.
  intros H. unfold SliceStable, insertionSort. f_equal.
  apply fold_insertLeft_ext. now rewrite app_nil_r.
Qed.

(** From here on [less] is a strict weak order. *)
Hypothesis less_asym : forall x y, less x y = true -> less y x = false.
Hypothesis less_negtrans :
  forall x y z, less x y = false -> less y z = false -> less x z = false.

Lemma less_irrefl (x : A) : less x x = false.
Proof. destruct (less x x) eqn:H; [now rewrite (less_asym x x H) in H | reflexivity]. Qed.

Lemma equivb_refl (x : A) : equivb less x x = true.
Proof. unfold equivb. now rewrite less_irrefl. Qed.

Lemma insertLeft_sorted (x : A) (before : list A) :
  StronglySorted (flip (notAfter less)) before ->
  StronglySorted (flip (notAfter less)) (insertLeft less x before).
Proof.
  induction before as [|y rest IH]; intros Hs; simpl.
  - repeat constructor.
  - apply StronglySorted_inv in Hs as [Hrest Hy].
    destruct (less x y) eqn:Hxy.
    + constructor; [now apply IH |].
      rewrite (insertLeft_perm x rest). constructor; [| exact Hy].
      unfold flip, notAfter. now apply less_asym.
    + constructor; [now constructor |].
      constructor; [exact Hxy |].
      eapply Forall_impl; [exact Hy |]. unfold flip, notAfter.
      intros z Hz. now apply (less_negtrans x y z).
Qed.

Lemma fold_insertLeft_sorted (l before : list A) :
  StronglySorted (flip (notAfter less)) before ->
  StronglySorted (flip (notAfter less))
    (fold_left (fun b x => insertLeft less x b) l before).
Proof.
  revert before. induction l as [|x l IH]; intros before Hs; simpl; [exact Hs |].
  now apply IH, insertLeft_sorted.
Qed.

Lemma StronglySorted_rev_flip (R : A -> A -> Prop) (l : list A) :
  StronglySorted (flip R) l -> StronglySorted R (rev l).
Proof.
  induction 1 as [|x l Hs IH Hx]; simpl; [constructor |].
  apply StronglySorted_app_2; [| exact IH | repeat constructor].
  intros a b Ha Hb. apply list_elem_of_singleton in Hb as ->.
  apply list_elem_of_In, in_rev in Ha.
  rewrite Forall_forall in Hx. apply Hx. now apply list_elem_of_In.
Qed.

(** The sorted slice is in order: no element is less than one before it. *)
Lemma SliceStable_sorted (l : list A) :
  StronglySorted (notAfter less) (SliceStable less l).
Proof.
  unfold SliceStable, insertionSort. apply StronglySorted_rev_flip.
  apply fold_insertLeft_sorted. constructor.
Qed.

Lemma insertLeft_filter (k x : A) (before : list A) :
  List.filter (equivb less k) (insertLeft less x before) =
  List.filter (equivb less k) (x :: before).
Proof.
  induction before as [|y rest IH]; [reflexivity |].
  cbn [insertLeft]. destruct (less x y) eqn:Hxy; [| reflexivity].
  cbn [List.filter] in IH |- *. rewrite IH.
  destruct (equivb less k x) eqn:Hx, (equivb less k y) eqn:Hy; try reflexivity.
  exfalso. unfold equivb in Hx, Hy.
  apply andb_prop in Hx as [_ Hx], Hy as [Hy _].
  apply negb_true_iff in Hx, Hy.
  now rewrite (less_negtrans x k y Hx Hy) in Hxy.
Qed.

Lemma fold_insertLeft_filter (k : A) (l before : list A) :
  List.filter (equivb less k) (fold_left (fun b x => insertLeft less x b) l before) =
  rev (List.filter (equivb less k) l) ++ List.filter (equivb less k) before.
Proof.
  revert before. induction l as [|x l IH]; intros before; [reflexivity |].
  cbn [fold_left]. rewrite IH, insertLeft_filter. cbn [List.filter].
  destruct (equivb less k x); [| reflexivity].
  cbn [rev]. now rewrite <- app_assoc.
Qed.

Lemma filter_rev' (P : A -> bool) (l : list A) :
  List.filter P (rev l) = rev (List.filter P l).
Proof.
  induction l as [|x l IH]; [reflexivity |].
  cbn [rev List.filter]. rewrite List.filter_app, IH. cbn [List.filter].
  destruct (P x); [reflexivity | now rewrite app_nil_r].
Qed.

(** The sort is stable: the elements of one sort key keep their order. *)
Lemma SliceStable_stable (k : A) (l : list A) :
  List.filter (equivb less k) (SliceStable less l) = List.filter (equivb less k) l.
Proof.
  unfold SliceStable, insertionSort.
  rewrite filter_rev', fold_insertLeft_filter, app_nil_r. apply rev_involutive.
Qed.

(** Two sorted slices with the same elements of every sort key, in the
    same order, are the same slice. *)
Lemma sorted_same_filters_eq (l1 l2 : list A) :
  StronglySorted (notAfter less) l1 ->
  StronglySorted (notAfter less) l2 ->
  (forall k, List.filter (equivb less k) l1 = List.filter (equivb less k) l2) ->
  l1 = l2.
Proof.
  revert l2. induction l1 as [|a l1 IH]; intros [|b l2] S1 S2 H.
  - reflexivity.
  - specialize (H b). cbn [List.filter] in H. now rewrite equivb_refl in H.
  - specialize (H a). cbn [List.filter] in H. now rewrite equivb_refl in H.
  - apply StronglySorted_inv in S1 as [S1 Ha], S2 as [S2 Hb].
    rewrite Forall_forall in Ha, Hb.
    assert (Hab : less a b = false).
    { assert (Hin : In a (b :: l2)).
      { apply (filter_In (equivb less a)). rewrite <- H. cbn [List.filter].
        rewrite equivb_refl. now left. }
      destruct Hin as [<- | Hin]; [apply less_irrefl |].
      apply Hb. now apply list_elem_of_In. }
    assert (Hba : less b a = false).
    { assert (Hin : In b (a :: l1)).
      { apply (filter_In (equivb less b)). rewrite H. cbn [List.filter].
        rewrite equivb_refl. now left. }
      destruct Hin as [<- | Hin]; [apply less_irrefl |].
      apply Ha. now apply list_elem_of_In. }
    assert (a = b) as <-.
    { pose proof (H a) as Hk. cbn [List.filter] in Hk.
      rewrite equivb_refl in Hk. unfold equivb at 2 in Hk.
      rewrite Hab, Hba in Hk. cbn in Hk. congruence. }
    f_equal. apply IH; [exact S1 | exact S2 |].
    intros k. specialize (H k). cbn [List.filter] in H.
    destruct (equivb less k a); congruence.
Qed.

(** Every stable sort returns what [SliceStable] returns. *)
Lemma stable_sort_unique (l sorted : list A) :
  StronglySorted (notAfter less) sorted ->
  (forall k, List.filter (equivb less k) sorted = List.filter (equivb less k) l) ->
  sorted = SliceStable less l.
Proof.
  intros Hs Hf. apply sorted_same_filters_eq; [exact Hs | apply SliceStable_sorted |].
  intros k. now rewrite SliceStable_stable.
Qed.
End Generic.

(** *** The order of strings *)

Lemma ascii_compare_refl (c : ascii) : (c ?= c)%char = Eq.
Proof. unfold Ascii.compare. apply N.compare_refl. Qed.

Lemma string_compare_refl (s : string) : (s ?= s)%string = Eq.
Proof. induction s as [|c s IH]; simpl; [reflexivity |]. now rewrite ascii_compare_refl. Qed.

Lemma string_compare_lt_trans (a b c : string) :
  (a ?= b)%string = Lt -> (b ?= c)%string = Lt -> (a ?= c)%string = Lt.
Proof.
  revert b c. induction a as [|x a IH]; intros [|y b] [|z c]; simpl; try easy.
  destruct (x ?= y)%char eqn:Hxy; try easy; destruct (y ?= z)%char eqn:Hyz; try easy.
  - apply Ascii.compare_eq_iff in Hxy, Hyz. subst. rewrite ascii_compare_refl. apply IH.
  - apply Ascii.compare_eq_iff in Hxy. subst. now rewrite Hyz.
  - apply Ascii.compare_eq_iff in Hyz. subst. now rewrite Hxy.
  - intros _ _. unfold Ascii.compare in *. rewrite N.compare_lt_iff in *.
    rewrite (proj2 (N.compare_lt_iff _ _)); [reflexivity | lia].
Qed.

Lemma ltb_irrefl (s : string) : String.ltb s s = false.
Proof. unfold String.ltb. now rewrite string_compare_refl. Qed.

Lemma ltb_asym (a b : string) : String.ltb a b = true -> String.ltb b a = false.
Proof.
  unfold String.ltb. rewrite (String.compare_antisym a b).
  now destruct (b ?= a)%string.
Qed.

Lemma ltb_negtrans (a b c : string) :
  String.ltb a b = false -> String.ltb b c = false -> String.ltb a c = false.
Proof.
  unfold String.ltb. intros Hab Hbc.
  destruct (a ?= c)%string eqn:Hac; try reflexivity. exfalso.
  destruct (a ?= b)%string eqn:Hab'; try discriminate.
  - apply String.compare_eq_iff in Hab'. subst. now rewrite Hac in Hbc.
  - assert (Hba : (b ?= a)%string = Lt)
      by (rewrite String.compare_antisym, Hab'; reflexivity).
    now rewrite (string_compare_lt_trans b a c Hba Hac) in Hbc.
Qed.

Lemma ltb_false_leb (a b : string) : String.ltb b a = false -> String.leb a b = true.
Proof.
  unfold String.ltb, String.leb. rewrite (String.compare_antisym a b).
  now destruct (b ?= a)%string.
Qed.

Lemma ltb_total (a b : string) :
  String.ltb a b = false -> String.ltb b a = false -> a = b.
Proof.
  unfold String.ltb. intros Hab Hba. apply String.compare_eq_iff.
  rewrite (String.compare_antisym b a) in Hba.
  now destruct (a ?= b)%string.
Qed.

(** *** The comparison of [getFileList] *)

Lemma lessKind_asym (x y : file) : lessKind x y = true -> lessKind y x = false.
Proof.
  unfold lessKind. destruct (isDirectory x), (isDirectory y); simpl;
    try easy; apply ltb_asym.
Qed.

Lemma lessKind_negtrans (x y z : file) :
  lessKind x y = false -> lessKind y z = false -> lessKind x z = false.
Proof.
  unfold lessKind. destruct (isDirectory x), (isDirectory y), (isDirectory z);
    simpl; try easy; apply ltb_negtrans.
Qed.

Lemma lessFile_lessKind (a b : file) :
  knownType a -> knownType b -> lessFile a b = lessKind a b.
Proof.
  unfold knownType, lessFile, lessKind, isDirectory.
  intros [-> | ->] [-> | ->]; reflexivity.
Qed.

Lemma ltb_equiv_eqb (a b : string) :
  (negb (String.ltb a b) && negb (String.ltb b a))%bool = String.eqb b a.
Proof.
  destruct (String.eqb_spec b a) as [-> | Hne].
  - now rewrite ltb_irrefl.
  - destruct (String.ltb a b) eqn:H1; [reflexivity |].
    destruct (String.ltb b a) eqn:H2; [reflexivity |].
    now rewrite (ltb_total _ _ H1 H2) in Hne.
Qed.

Lemma equivb_lessKind_hasKey (k x : file) :
  knownType k -> knownType x ->
  equivb lessKind k x = hasKey (Type_ k) (Name k) x.
Proof.
  unfold knownType, equivb, lessKind, hasKey, isDirectory.
  intros [-> | ->] [-> | ->]; simpl; try reflexivity; apply ltb_equiv_eqb.
Qed.

End SortFacts.

(** ** The listing fetcher *)

Module FetchFacts.
Import Sort SortFacts.

(** The field [next] of [filelist] is not exported. *)
Lemma next_is_not_exported : isExported "next" = false.
Proof. reflexivity. Qed.

(** With any fuel to start on, [getFileList] makes one request and returns:
    the cursor of the response never reaches [fl.next], and [first] is not
    part of the request. *)
Lemma getFileList_run (E : env) (fuel : nat) (baseURL dir : string) (first : N)
  (w : world) :
  getFileList E (S fuel) baseURL dir first w =
  match http_get E (listingURL baseURL dir) with
  | None => (Err (TransportError (listingURL baseURL dir)),
             requested (listingURL baseURL dir) w)
  | Some body =>
      match json_decode E body with
      | None => (Err (SyntaxError body), requested (listingURL baseURL dir) w)
      | Some page =>
          (Ok {| Dir := rr_dir page;
                 Files := SliceStable lessFile (rr_files page);
                 next := 0%N |},
           requested (listingURL baseURL dir) w)
      end
  end.
Proof.
  cbn [getFileList]. unfold bind, download, json_Unmarshal, listingURL, requested.
  destruct (http_get E _) as [body|]; [| reflexivity].
  destruct (json_decode E body) as [page|]; reflexivity.
Qed.

Lemma getFileList_returns (E : env) (fuel : nat) (baseURL dir : string)
  (first : N) (w w' : world) (fl : filelist) :
  getFileList E fuel baseURL dir first w = (Ok fl, w') ->
  exists body page,
    http_get E (listingURL baseURL dir) = Some body /\
    json_decode E body = Some page /\
    fl = {| Dir := rr_dir page;
            Files := SliceStable lessFile (rr_files page);
            next := 0%N |} /\
    w' = requested (listingURL baseURL dir) w.
Proof.
  destruct fuel as [|fuel]; [discriminate |].
  rewrite getFileList_run.
  destruct (http_get E _) as [body|]; [| discriminate].
  destruct (json_decode E body) as [page|] eqn:Hpage; [| discriminate].
  intros [= <- <-]. exists body, page. auto.
Qed.

(** C1 fails on the code: a directory served in two pages.  The fetcher
    asks for the first page only and returns it as the whole listing; the
    entry of the second page is missing from what the two pages sort to. *)
Theorem getFileList_two_pages_returns_first_page :
  forall (fuel : nat) (w : world),
    getFileList Demo.pagedServer (S fuel) Demo.address "0%3A%2Fsys" 0%N w =
      (Ok {| Dir := "0:/sys"; Files := [Demo.configG]; next := 0%N |},
       requested "http://duet:80/rr_filelist?dir=0%3A%2Fsys" w)
    /\ SliceStable lessFile
         (rr_files Demo.page1 ++ rr_files Demo.page2) =
       [Demo.bedG; Demo.configG].
Proof. intros fuel w. rewrite getFileList_run. split; reflexivity. Qed.

(** Why C6 speaks of directories and files only: with an entry of a third
    type the closure is not a strict weak order, and two files on either
    side of such an entry stay as they came. *)
Remark lessFile_third_type :
  SliceStable lessFile
    [ {| Type_ := "f"; Name := "b"; Size := 0; Date := 0 |};
      {| Type_ := "x"; Name := "m"; Size := 0; Date := 0 |};
      {| Type_ := "f"; Name := "a"; Size := 0; Date := 0 |} ]
  = [ {| Type_ := "f"; Name := "b"; Size := 0; Date := 0 |};
      {| Type_ := "x"; Name := "m"; Size := 0; Date := 0 |};
      {| Type_ := "f"; Name := "a"; Size := 0; Date := 0 |} ].
Proof. reflexivity. Qed.

Lemma StronglySorted_lookup {A} (R : A -> A -> Prop) (l : list A) :
  StronglySorted R l ->
  forall (i j : nat) (a b : A),
    (i < j)%nat -> l !! i = Some a -> l !! j = Some b -> R a b.
Proof.
  induction 1 as [|x l Hs IH Hx]; intros i j a b Hij Hi Hj; [discriminate |].
  destruct j as [|j]; [lia |]. cbn in Hj.
  destruct i as [|i]; cbn in Hi.
  - injection Hi as <-. rewrite Forall_forall in Hx. apply Hx.
    eapply list_elem_of_lookup_2. exact Hj.
  - apply (IH i j); [lia | assumption | assumption].
Qed.

Lemma Forall_knownType_SliceStable (l : list file) :
  Forall knownType (SliceStable lessFile l) -> Forall knownType l.
Proof.
  intros H. rewrite Forall_forall in *. intros x Hx. apply H.
  apply list_elem_of_In. apply list_elem_of_In in Hx.
  eapply Permutation_in; [symmetry; apply SliceStable_perm | exact Hx].
Qed.

(** On entries of the two kinds the closure of [getFileList] sorts as the
    comparison by kind and name does. *)
Lemma SliceStable_lessFile_lessKind (l : list file) :
  Forall knownType l -> SliceStable lessFile l = SliceStable lessKind l.
Proof.
  intros H. rewrite Forall_forall in H. apply SliceStable_ext.
  intros a b Ha Hb. apply lessFile_lessKind; apply H; now apply list_elem_of_In.
Qed.

(** C6: the entries that [getFileList] returns, when each is a directory or
    a file, are in order: no file stands before a directory, two entries of
    one kind stand in ascending order of their names, and the entries of one
    sort key (kind and name) stand in the order in which the response had
    them.  The result is the same for every amount of fuel: one unit is
    enough. *)
Theorem getFileList_sorted (E : env) (fuel : nat) (baseURL dir : string)
  (first : N) (w w' : world) (fl : filelist) :
  getFileList E fuel baseURL dir first w = (Ok fl, w') ->
  Forall knownType (Files fl) ->
  (forall fuel', getFileList E (S fuel') baseURL dir first w = (Ok fl, w')) /\
  (forall (i j : nat) (a b : file),
      (i < j)%nat -> Files fl !! i = Some a -> Files fl !! j = Some b ->
      (Type_ a = typeFile -> Type_ b <> typeDirectory) /\
      (Type_ a = Type_ b -> String.leb (Name a) (Name b) = true)) /\
  exists body page,
    http_get E (listingURL baseURL dir) = Some body /\
    json_decode E body = Some page /\
    Permutation (Files fl) (rr_files page) /\
    forall t n : string,
      List.filter (hasKey t n) (Files fl) =
      List.filter (hasKey t n) (rr_files page).
Proof.
  intros Hrun Hknown.
  assert (Hfuel : forall fuel',
            getFileList E (S fuel') baseURL dir first w = (Ok fl, w')).
  { intros fuel'. destruct fuel as [|fuel]; [discriminate Hrun |].
    rewrite getFileList_run in *. exact Hrun. }
  split; [exact Hfuel |].
  apply getFileList_returns in Hrun as (body & page & Hget & Hdec & -> & _).
  cbn [Files] in *. clear Hfuel.
  pose proof (Forall_knownType_SliceStable _ Hknown) as Hin.
  rewrite (SliceStable_lessFile_lessKind _ Hin) in *.
  split.
  - intros i j a b Hij Hi Hj.
    pose proof (StronglySorted_lookup _ _
      (SliceStable_sorted lessKind lessKind_asym lessKind_negtrans (rr_files page))
      i j a b Hij Hi Hj) as Hab.
    assert (Ha : knownType a).
    { rewrite Forall_forall in Hknown. apply Hknown.
      eapply list_elem_of_lookup_2. exact Hi. }
    assert (Hb : knownType b).
    { rewrite Forall_forall in Hknown. apply Hknown.
      eapply list_elem_of_lookup_2. exact Hj. }
    unfold notAfter, lessKind, isDirectory in Hab. split.
    + intros Hfa Hdb. rewrite Hfa, Hdb in Hab. discriminate Hab.
    + intros Hty. rewrite Hty, Bool.eqb_reflx in Hab. now apply ltb_false_leb.
  - exists body, page. repeat split; [exact Hget | exact Hdec | apply SliceStable_perm |].
    intros t n.
    destruct (List.filter (hasKey t n) (rr_files page)) as [|k rest] eqn:Hf.
    + destruct (List.filter (hasKey t n) (SliceStable lessKind (rr_files page)))
        as [|k rest] eqn:Hs; [reflexivity | exfalso].
      assert (Hk : In k (List.filter (hasKey t n) (rr_files page))).
      { apply filter_In. assert (Hk : In k (k :: rest)) by now left.
        rewrite <- Hs in Hk. apply filter_In in Hk as [Hk Hkey]. split; [| exact Hkey].
        eapply Permutation_in; [apply SliceStable_perm | exact Hk]. }
      now rewrite Hf in Hk.
    + rewrite <- Hf.
      assert (Hk : In k (List.filter (hasKey t n) (rr_files page)))
        by (rewrite Hf; now left).
      apply filter_In in Hk as [Hk Hkey].
      assert (Hkk : knownType k).
      { rewrite Forall_forall in Hin. apply Hin. now apply list_elem_of_In. }
      unfold hasKey in Hkey. apply andb_prop in Hkey as [Ht Hn].
      apply String.eqb_eq in Ht, Hn. subst t n.
      rewrite Forall_forall in Hknown, Hin.
      transitivity (List.filter (equivb lessKind k)
                      (SliceStable lessKind (rr_files page))).
      * apply filter_ext_in. intros x Hx. symmetry.
        apply equivb_lessKind_hasKey; [exact Hkk |].
        apply Hknown. now apply list_elem_of_In.
      * rewrite (SliceStable_stable lessKind lessKind_negtrans).
        apply filter_ext_in. intros x Hx.
        apply equivb_lessKind_hasKey; [exact Hkk |].
        apply Hin. now apply list_elem_of_In.
Qed.

End FetchFacts.

(** ** The local file system *)

Module FSFacts.

Lemma Join_ne (p : path) (n : string) : Join p n <> p.
Proof.
  unfold Join. intros H. apply (f_equal length) in H.
  rewrite length_app in H. simpl in H. lia.
Qed.

Lemma parent_Join (p : path) (n : string) : parent (Join p n) = p.
Proof. unfold parent, Join. apply removelast_last. Qed.

Lemma Join_inj (p : path) (n m : string) : Join p n = Join p m -> n = m.
Proof. unfold Join. intros H. apply app_inv_head in H. congruence. Qed.

Lemma Join_not_prefix (p : path) (n : string) : ~ Join p n `prefix_of` p.
Proof.
  intros H. apply prefix_length in H. unfold Join in H.
  rewrite length_app in H. simpl in H. lia.
Qed.

Lemma Join_prefix_Join (p : path) (n m : string) (q : path) :
  Join p n `prefix_of` q -> Join p m `prefix_of` q -> n = m.
Proof.
  unfold Join. intros [k1 ->] [k2 H]. rewrite <- !app_assoc in H.
  apply app_inv_head in H. simpl in H. congruence.
Qed.

Lemma Join_prefix_ne (p q : path) (n : string) :
  Join p n `prefix_of` q -> q <> p.
Proof. intros H Heq. subst q. now apply (Join_not_prefix p n). Qed.

Lemma walk_Found_lookup (d : disk) (cur rest : path) (x : node) :
  walk d cur rest = Found x -> d !! (cur ++ rest) = Some x.
Proof.
  revert cur. induction rest as [|s rest IH]; intros cur; cbn [walk app].
  - rewrite app_nil_r. destruct (d !! cur); congruence.
  - destruct (d !! cur) as [[]|]; try discriminate.
    intros H. apply IH in H. now rewrite <- app_assoc in H.
Qed.

Lemma resolve_Found_lookup (d : disk) (p : path) (x : node) :
  resolve d p = Found x -> d !! p = Some x.
Proof. apply walk_Found_lookup. Qed.

Lemma walk_snoc (d : disk) (cur rest : path) (n : string) :
  walk d cur (rest ++ [n]) =
  match walk d cur rest with
  | Found (Directory _) =>
      match d !! (cur ++ rest ++ [n]) with
      | Some x => Found x
      | None => NotExist
      end
  | Found (File _ _) => NotDir
  | r => r
  end.
Proof.
  revert cur. induction rest as [|s rest IH]; intros cur; cbn [walk app].
  - destruct (d !! cur) as [[]|]; reflexivity.
  - destruct (d !! cur) as [[]|]; try reflexivity.
    rewrite IH. now rewrite <- app_assoc.
Qed.

Lemma resolve_Join (d : disk) (p : path) (n : string) :
  isDirAt d p ->
  resolve d (Join p n) =
  match d !! Join p n with Some x => Found x | None => NotExist end.
Proof. intros [t H]. unfold resolve, Join in *. now rewrite walk_snoc, H. Qed.

Lemma walk_dir_iff (d : disk) (cur rest : path) :
  (exists t, walk d cur rest = Found (Directory t)) <->
  (forall q, q `prefix_of` rest -> exists t, d !! (cur ++ q) = Some (Directory t)).
Proof.
  revert cur. induction rest as [|s rest IH]; intros cur; cbn [walk app].
  - split.
    + intros [t H] q Hq. apply prefix_nil_inv in Hq as ->. rewrite app_nil_r.
      destruct (d !! cur); [| discriminate]. exists t. congruence.
    + intros H. destruct (H [] (prefix_nil _)) as [t Ht].
      rewrite app_nil_r in Ht. rewrite Ht. eauto.
  - split.
    + intros [t H] q Hq.
      destruct (d !! cur) as [[|t0]|] eqn:Hcur; try discriminate.
      destruct q as [|s' q]; [rewrite app_nil_r; eauto |].
      apply prefix_cons_inv_1 in Hq as Hs. subst s'.
      apply prefix_cons_inv_2 in Hq.
      destruct (proj1 (IH (cur ++ [s])) (ex_intro _ t H) q Hq) as [t' Ht'].
      exists t'. now rewrite <- app_assoc in Ht'.
    + intros H. destruct (H [] (prefix_nil _)) as [t Ht].
      rewrite app_nil_r in Ht. rewrite Ht. apply IH. intros q Hq.
      rewrite <- app_assoc. apply (H (s :: q)). now apply prefix_cons.
Qed.

Lemma isDirAt_iff (d : disk) (p : path) :
  isDirAt d p <->
  (forall q, q `prefix_of` p -> exists t, d !! q = Some (Directory t)).
Proof. unfold isDirAt, resolve. now rewrite walk_dir_iff. Qed.

Lemma isDirAt_lookup (d : disk) (p : path) :
  isDirAt d p -> exists t, d !! p = Some (Directory t).
Proof. intros [t H]. exists t. now apply resolve_Found_lookup. Qed.

(** A directory stays one when the disk changes elsewhere, or when only
    modification times change. *)
Lemma isDirAt_insert (d : disk) (p k : path) (x : node) :
  ~ k `prefix_of` p -> isDirAt d p -> isDirAt (<[k := x]> d) p.
Proof.
  rewrite !isDirAt_iff. intros Hk H q Hq.
  rewrite lookup_insert_ne; [now apply H | intros ->; contradiction].
Qed.

Lemma isDirAt_touch (d : disk) (p k : path) (t : Z) :
  isDirAt d p -> isDirAt (alter (setModTime t) k d) p.
Proof.
  rewrite !isDirAt_iff. intros H q Hq. destruct (H q Hq) as [t' Ht'].
  destruct (decide (k = q)) as [-> | Hne].
  - rewrite lookup_alter_eq, Ht'. cbn. eauto.
  - rewrite lookup_alter_ne by done. eauto.
Qed.

Lemma isDirAt_prefix (d : disk) (p q : path) :
  q `prefix_of` p -> isDirAt d p -> isDirAt d q.
Proof.
  rewrite !isDirAt_iff. intros Hq H r Hr. apply H. now transitivity q.
Qed.

End FSFacts.

(** ** What the calls do *)

Module RunFacts.
Import FSFacts.

Section WithEnv.
Variable E : env.

Lemma sys_run (c : syscall) (p : path) (w : world) :
  sys E c p w =
  if fault E c p (steps w) then (Err (PathError c p EIO), tick w)
  else (Ok (wall E (steps w)), tick w).
Proof. reflexivity. Qed.

Lemma os_Stat_run (p : path) (w : world) :
  os_Stat E p w =
  (Ok (if fault E SysStat p (steps w)
       then (None, Some (PathError SysStat p EIO))
       else match resolve (fs w) p with
            | Found n => (Some n, None)
            | NotExist => (None, Some (PathError SysStat p ENOENT))
            | NotDir => (None, Some (PathError SysStat p ENOTDIR))
            end),
   tick w).
Proof.
  unfold os_Stat. rewrite sys_run. destruct (fault E SysStat p (steps w)); [reflexivity |].
  cbn [fs tick]. destruct (resolve (fs w) p); reflexivity.
Qed.

Lemma os_Create_run (p : path) (w : world) :
  os_Create E p w =
  if fault E SysCreate p (steps w) then (Err (PathError SysCreate p EIO), tick w)
  else
    let now := wall E (steps w) in
    match resolve (fs w) (parent p) with
    | Found (Directory _) =>
        match fs w !! p with
        | Some (Directory _) => (Err (PathError SysCreate p EISDIR), tick w)
        | Some (File _ _) =>
            (Ok p, withDisk (<[p := File now EmptyString]> (fs w)) (tick w))
        | None =>
            (Ok p, withDisk (touchParent now p (<[p := File now EmptyString]> (fs w)))
                     (tick w))
        end
    | Found (File _ _) | NotDir => (Err (PathError SysCreate p ENOTDIR), tick w)
    | NotExist => (Err (PathError SysCreate p ENOENT), tick w)
    end.
Proof.
  unfold os_Create, bind. rewrite sys_run.
  destruct (fault E SysCreate p (steps w)); [reflexivity |].
  unfold getDisk. cbn [fs tick].
  destruct (resolve (fs w) (parent p)) as [[]| |]; try reflexivity.
  destruct (fs w !! p) as [[]|]; reflexivity.
Qed.

Lemma file_Write_run (p : path) (body : string) (w : world) :
  file_Write E p body w =
  if fault E SysWrite p (steps w) then (Err (PathError SysWrite p EIO), tick w)
  else (Ok tt,
        match body with
        | EmptyString => tick w
        | _ => withDisk (<[p := File (wall E (steps w)) body]> (fs w)) (tick w)
        end).
Proof.
  unfold file_Write, bind. rewrite sys_run.
  destruct (fault E SysWrite p (steps w)); [reflexivity |].
  destruct body; reflexivity.
Qed.

Lemma os_Chtimes_run (p : path) (t : Z) (w : world) :
  os_Chtimes E p t w =
  if fault E SysChtimes p (steps w) then (Err (PathError SysChtimes p EIO), tick w)
  else match utimes t with
       | None => (Ok tt, tick w)
       | Some t' =>
           match fs w !! p with
           | Some n => (Ok tt, withDisk (<[p := setModTime t' n]> (fs w)) (tick w))
           | None => (Err (PathError SysChtimes p ENOENT), tick w)
           end
       end.
Proof.
  unfold os_Chtimes, bind. rewrite sys_run.
  destruct (fault E SysChtimes p (steps w)); [reflexivity |].
  unfold getDisk. cbn [fs tick]. destruct (utimes t); [| reflexivity].
  destruct (fs w !! p); reflexivity.
Qed.

Lemma os_MkdirAll_run (p : path) (w : world) :
  os_MkdirAll E p w =
  if fault E SysMkdirAll p (steps w)
  then (Err (PathError SysMkdirAll p EIO), tick w)
  else match mkdirAll (wall E (steps w)) (fs w) p with
       | Some d' => (Ok tt, withDisk d' (tick w))
       | None => (Err (PathError SysMkdirAll p ENOTDIR), tick w)
       end.
Proof.
  unfold os_MkdirAll, bind. rewrite sys_run.
  destruct (fault E SysMkdirAll p (steps w)); [reflexivity |].
  unfold getDisk. cbn [fs tick]. destruct (mkdirAll _ _ _); reflexivity.
Qed.

Lemma os_RemoveAll_run (p : path) (w : world) :
  os_RemoveAll E p w =
  if fault E SysRemoveAll p (steps w)
  then (Err (PathError SysRemoveAll p EIO), tick w)
  else match fs w !! p with
       | Some _ =>
           (Ok tt, withDisk (touchParent (wall E (steps w)) p (removeTree p (fs w)))
                     (tick w))
       | None => (Ok tt, tick w)
       end.
Proof.
  unfold os_RemoveAll, bind. rewrite sys_run.
  destruct (fault E SysRemoveAll p (steps w)); [reflexivity |].
  unfold getDisk. cbn [fs tick]. destruct (fs w !! p); reflexivity.
Qed.

Lemma ioutil_ReadDir_run (p : path) (w : world) :
  ioutil_ReadDir E p w =
  if fault E SysReadDir p (steps w)
  then (Err (PathError SysReadDir p EIO), tick w)
  else match resolve (fs w) p with
       | Found (Directory _) =>
           (Ok (Sort.SliceStable byName (children (fs w) p)), tick w)
       | Found (File _ _) | NotDir => (Err (PathError SysReadDir p ENOTDIR), tick w)
       | NotExist => (Err (PathError SysReadDir p ENOENT), tick w)
       end.
Proof.
  unfold ioutil_ReadDir, bind. rewrite sys_run.
  destruct (fault E SysReadDir p (steps w)); [reflexivity |].
  unfold getDisk. cbn [fs tick]. destruct (resolve (fs w) p) as [[]| |]; reflexivity.
Qed.

Lemma download_run (url : string) (w : world) :
  download E url w =
  match http_get E url with
  | Some body => (Ok body, requested url w)
  | None => (Err (TransportError url), requested url w)
  end.
Proof. reflexivity. Qed.

End WithEnv.

(** The loop stops at the first turn that does not return nil. *)
Lemma forEach_cons {A} (x : A) (l : list A) (body : A -> M unit) (w : world) :
  forEach (x :: l) body w =
  match body x w with
  | (Ok _, w') => forEach l body w'
  | (Err e, w') => (Err e, w')
  | (OutOfFuel, w') => (OutOfFuel, w')
  end.
Proof. reflexivity. Qed.

Lemma forEach_app {A} (l1 l2 : list A) (body : A -> M unit) (w : world) :
  forEach (l1 ++ l2) body w =
  match forEach l1 body w with
  | (Ok _, w') => forEach l2 body w'
  | (Err e, w') => (Err e, w')
  | (OutOfFuel, w') => (OutOfFuel, w')
  end.
Proof.
  revert w. induction l1 as [|x l1 IH]; intros w; [reflexivity |].
  cbn [app]. rewrite !forEach_cons. destruct (body x w) as [[[]|e|] w']; auto.
Qed.

(** What every turn keeps, the loop keeps. *)
Lemma forEach_invariant {A} (I : world -> Prop) (l : list A)
  (body : A -> M unit) :
  (forall x w, In x l -> I w -> I (body x w).2) ->
  forall w, I w -> I (forEach l body w).2.
Proof.
  induction l as [|x l IH]; intros Hbody w Hw; [exact Hw |].
  rewrite forEach_cons. pose proof (Hbody x w (or_introl eq_refl) Hw) as Hx.
  destruct (body x w) as [[[]|e|] w']; cbn [snd] in *; try exact Hx.
  apply IH; [| exact Hx]. intros y w0 Hy. apply Hbody. now right.
Qed.

End RunFacts.

(** ** Creating the directory and its marker *)

Module EnsureFacts.
Import FSFacts RunFacts.

Lemma parent_prefix (p : path) : parent p `prefix_of` p.
Proof.
  unfold parent. destruct (decide (p = [])) as [-> | Hne]; [done |].
  destruct (exists_last Hne) as (q & s & ->).
  rewrite removelast_last. now apply prefix_app_r.
Qed.

Section Mkdir.
Variable now : Z.

(** One new directory at [cur]. *)
Lemma mkdir_step_at (d : disk) (cur : path) :
  exists t, touchParent now cur (<[cur := Directory now]> d) !! cur
            = Some (Directory t).
Proof.
  unfold touchParent. destruct (decide (parent cur = cur)) as [-> | Hne].
  - rewrite lookup_alter_eq, lookup_insert_eq. cbn. eauto.
  - rewrite lookup_alter_ne, lookup_insert_eq by done. eauto.
Qed.

Lemma mkdir_step_frame (d : disk) (cur k : path) :
  k <> cur -> k <> parent cur ->
  touchParent now cur (<[cur := Directory now]> d) !! k = d !! k.
Proof.
  intros H1 H2. unfold touchParent.
  rewrite lookup_alter_ne, lookup_insert_ne; done.
Qed.

Lemma mkdir_step_dirs (d : disk) (cur k : path) (t : Z) :
  d !! cur = None -> d !! k = Some (Directory t) ->
  exists t', touchParent now cur (<[cur := Directory now]> d) !! k
             = Some (Directory t').
Proof.
  intros Hcur Hk. unfold touchParent.
  assert (k <> cur) by congruence.
  destruct (decide (parent cur = k)) as [-> | Hne].
  - rewrite lookup_alter_eq, lookup_insert_ne, Hk by done. cbn. eauto.
  - rewrite lookup_alter_ne, lookup_insert_ne by done. eauto.
Qed.

Lemma mkdirAllFrom_Some (rest : list string) :
  forall (d : disk) (cur : path) (d' : disk),
    mkdirAllFrom now d cur rest = Some d' ->
    (forall q, q `prefix_of` rest ->
               exists t, d' !! (cur ++ q) = Some (Directory t)) /\
    (forall k, ~ k `prefix_of` (cur ++ rest) -> d' !! k = d !! k) /\
    (forall k t, d !! k = Some (Directory t) ->
                 exists t', d' !! k = Some (Directory t')).
Proof.
  induction rest as [|s rest IH]; intros d cur d' H; cbn [mkdirAllFrom] in H.
  - destruct (d !! cur) as [[|t0]|] eqn:Hcur; try discriminate; injection H as <-.
    + repeat split; eauto.
      intros q Hq. apply prefix_nil_inv in Hq as ->. rewrite app_nil_r. eauto.
    + repeat split.
      * intros q Hq. apply prefix_nil_inv in Hq as ->. rewrite app_nil_r.
        apply mkdir_step_at.
      * intros k Hk. rewrite app_nil_r in Hk. apply mkdir_step_frame.
        -- intros ->. now apply Hk.
        -- intros ->. apply Hk, parent_prefix.
      * intros k t Hk. now apply mkdir_step_dirs with t.
  - assert (Hstep : forall d1 : disk,
               (exists t, d1 !! cur = Some (Directory t)) ->
               (forall k, ~ k `prefix_of` (cur ++ s :: rest) -> d1 !! k = d !! k) ->
               (forall k t, d !! k = Some (Directory t) ->
                            exists t', d1 !! k = Some (Directory t')) ->
               mkdirAllFrom now d1 (cur ++ [s]) rest = Some d' ->
               (forall q, q `prefix_of` s :: rest ->
                          exists t, d' !! (cur ++ q) = Some (Directory t)) /\
               (forall k, ~ k `prefix_of` (cur ++ s :: rest) -> d' !! k = d !! k) /\
               (forall k t, d !! k = Some (Directory t) ->
                            exists t', d' !! k = Some (Directory t'))).
    { intros d1 [t1 Hd1] Hframe Hdirs Hrec.
      apply IH in Hrec as (Hq & Hk & Hd). repeat split.
      - intros [|s' q] Hpre.
        + rewrite app_nil_r. now apply Hd with t1.
        + apply prefix_cons_inv_1 in Hpre as Hs. subst s'.
          apply prefix_cons_inv_2 in Hpre.
          destruct (Hq q Hpre) as [t Ht]. exists t.
          now rewrite <- app_assoc in Ht.
      - intros k Hpre. rewrite Hk, Hframe; [done | done |].
        now rewrite <- app_assoc.
      - intros k t Hkt. destruct (Hdirs k t Hkt) as [t' Ht']. now apply Hd with t'. }
    destruct (d !! cur) as [[|t0]|] eqn:Hcur; try discriminate.
    + apply (Hstep d); eauto.
    + apply (Hstep (touchParent now cur (<[cur := Directory now]> d))).
      * apply mkdir_step_at.
      * intros k Hk. apply mkdir_step_frame.
        -- intros ->. apply Hk. now apply prefix_app_r.
        -- intros ->. apply Hk. transitivity cur; [apply parent_prefix |].
           now apply prefix_app_r.
      * intros k t Hk. now apply mkdir_step_dirs with t.
      * exact H.
Qed.

Lemma mkdirAll_Some (d d' : disk) (p : path) :
  mkdirAll now d p = Some d' ->
  isDirAt d' p /\ (forall k, ~ k `prefix_of` p -> d' !! k = d !! k).
Proof.
  intros H. apply mkdirAllFrom_Some in H as (Hq & Hk & _). split.
  - apply isDirAt_iff. exact Hq.
  - exact Hk.
Qed.

Lemma mkdirAllFrom_succeeds (rest : list string) :
  forall (d : disk) (cur : path),
    (forall q t b, q `prefix_of` rest -> d !! (cur ++ q) <> Some (File t b)) ->
    exists d', mkdirAllFrom now d cur rest = Some d'.
Proof.
  induction rest as [|s rest IH]; intros d cur H; cbn [mkdirAllFrom].
  - assert (H0 : forall t b, d !! cur <> Some (File t b)).
    { intros t b. specialize (H [] t b (prefix_nil _)). now rewrite app_nil_r in H. }
    destruct (d !! cur) as [[t b|]|]; eauto.
    exfalso. now apply (H0 t b).
  - assert (H0 : forall t b, d !! cur <> Some (File t b)).
    { intros t b. specialize (H [] t b (prefix_nil _)). now rewrite app_nil_r in H. }
    destruct (d !! cur) as [[t b|]|] eqn:Hcur.
    + exfalso. now apply (H0 t b).
    + apply IH. intros q t b Hq. rewrite <- app_assoc. apply H.
      now apply prefix_cons.
    + apply IH. intros q t b Hq. rewrite mkdir_step_frame.
      * rewrite <- app_assoc. apply H. now apply prefix_cons.
      * intros Heq. apply (f_equal length) in Heq.
        rewrite !length_app in Heq. simpl in Heq. lia.
      * intros Heq. pose proof (parent_prefix cur) as Hp. rewrite <- Heq in Hp.
        apply prefix_length in Hp. rewrite !length_app in Hp. simpl in Hp. lia.
Qed.

Lemma mkdirAll_succeeds (d : disk) (p : path) :
  (forall q t b, q `prefix_of` p -> d !! q <> Some (File t b)) ->
  exists d', mkdirAll now d p = Some d'.
Proof. intros H. apply mkdirAllFrom_succeeds. exact H. Qed.

End Mkdir.

(** Without a regular file on the way, a path is a directory or absent. *)
Lemma walk_no_file (d : disk) (rest cur : path) :
  (forall q t b, q `prefix_of` rest -> d !! (cur ++ q) <> Some (File t b)) ->
  (exists t, walk d cur rest = Found (Directory t)) \/ walk d cur rest = NotExist.
Proof.
  revert cur. induction rest as [|s rest IH]; intros cur H; cbn [walk].
  - assert (H0 : forall t b, d !! cur <> Some (File t b)).
    { intros t b. specialize (H [] t b (prefix_nil _)). now rewrite app_nil_r in H. }
    destruct (d !! cur) as [[t b|t]|]; eauto.
    exfalso. now apply (H0 t b).
  - assert (H0 : forall t b, d !! cur <> Some (File t b)).
    { intros t b. specialize (H [] t b (prefix_nil _)). now rewrite app_nil_r in H. }
    destruct (d !! cur) as [[t b|t]|]; eauto.
    + exfalso. now apply (H0 t b).
    + apply IH. intros q t' b Hq. rewrite <- app_assoc. apply H.
      now apply prefix_cons.
Qed.

Section Ensure.
Variable E : env.

(** What [ensureOutDirExists] may change, whatever it returns. *)
Lemma ensureOutDirExists_effect (outDir : path) (w w' : world) (r : result unit) :
  ensureOutDirExists E outDir w = (r, w') ->
  requests w' = requests w /\
  (forall q, ~ q `prefix_of` outDir -> q <> Join outDir dirMarker ->
             fs w' !! q = fs w !! q) /\
  (fs w' !! Join outDir dirMarker = fs w !! Join outDir dirMarker \/
   exists n, fs w' !! Join outDir dirMarker = Some (File (wall E n) EmptyString)) /\
  (r = Ok tt ->
   isDirAt (fs w') outDir /\
   exists n, fs w' !! Join outDir dirMarker = Some (File (wall E n) EmptyString)).
Proof.
  unfold ensureOutDirExists, bind. rewrite os_Stat_run.
  pose proof (parent_Join outDir dirMarker) as Hpar.
  pose proof (Join_not_prefix outDir dirMarker) as Hnp.
  set (m := Join outDir dirMarker) in *.
  assert (Hafter : forall w1 : world,
            requests w1 = requests w ->
            (forall q, ~ q `prefix_of` outDir -> fs w1 !! q = fs w !! q) ->
            (match os_Create E m w1 with
             | (Ok _, w2) => (Ok tt, w2)
             | (Err e, w2) => (Err e, w2)
             | (OutOfFuel, w2) => (OutOfFuel, w2)
             end) = (r, w') ->
            requests w' = requests w /\
            (forall q, ~ q `prefix_of` outDir -> q <> m -> fs w' !! q = fs w !! q) /\
            (fs w' !! m = fs w !! m \/
             exists n, fs w' !! m = Some (File (wall E n) EmptyString)) /\
            (r = Ok tt ->
             isDirAt (fs w') outDir /\
             exists n, fs w' !! m = Some (File (wall E n) EmptyString))).
  { intros w1 Hreq Hframe H. rewrite os_Create_run in H.
    assert (Herr : forall e, (r, w') = (Err e, tick w1) ->
              requests w' = requests w /\
              (forall q, ~ q `prefix_of` outDir -> q <> m -> fs w' !! q = fs w !! q) /\
              (fs w' !! m = fs w !! m \/
               exists n, fs w' !! m = Some (File (wall E n) EmptyString)) /\
              (r = Ok tt ->
               isDirAt (fs w') outDir /\
               exists n, fs w' !! m = Some (File (wall E n) EmptyString))).
    { intros e [= -> ->]. cbn. split; [exact Hreq |].
      split; [intros q Hq _; now apply Hframe |].
      split; [left; now apply Hframe | discriminate]. }
    destruct (fault E SysCreate m (steps w1)); [eapply Herr; symmetry; exact H |].
    cbv zeta in H. rewrite Hpar in H.
    destruct (resolve (fs w1) outDir) as [[|t0]| |] eqn:Hres;
      try (eapply Herr; symmetry; exact H).
    assert (Hdir : isDirAt (fs w1) outDir) by (exists t0; exact Hres).
    destruct (fs w1 !! m) as [[|]|] eqn:Hm; try (eapply Herr; symmetry; exact H).
    - injection H as <- <-. cbn. repeat split; auto.
      + intros q Hq Hqm. rewrite lookup_insert_ne by done. now apply Hframe.
      + right. exists (steps w1). now rewrite lookup_insert_eq.
      + now apply isDirAt_insert.
      + exists (steps w1). now rewrite lookup_insert_eq.
    - assert (Hne : outDir <> m) by (intros Heq; apply Hnp; now rewrite <- Heq).
      injection H as <- <-. cbn. unfold touchParent. rewrite Hpar.
      repeat split; auto.
      + intros q Hq Hqm. rewrite lookup_alter_ne, lookup_insert_ne by
          (try done; intros ->; now apply Hq).
        now apply Hframe.
      + right. exists (steps w1). now rewrite lookup_alter_ne, lookup_insert_eq.
      + now apply isDirAt_touch, isDirAt_insert.
      + exists (steps w1). now rewrite lookup_alter_ne, lookup_insert_eq. }
  assert (Herr : forall e w1, fs w1 = fs w -> requests w1 = requests w ->
            (Err e, w1) = (r, w') ->
            requests w' = requests w /\
            (forall q, ~ q `prefix_of` outDir -> q <> m -> fs w' !! q = fs w !! q) /\
            (fs w' !! m = fs w !! m \/
             exists n, fs w' !! m = Some (File (wall E n) EmptyString)) /\
            (r = Ok tt ->
             isDirAt (fs w') outDir /\
             exists n, fs w' !! m = Some (File (wall E n) EmptyString))).
  { intros e w1 Hfs Hreq [= <- <-]. rewrite Hfs. split; [done |]. split; [done |].
    split; [now left | discriminate]. }
  destruct (fault E SysStat outDir (steps w)); [cbn; now apply Herr |].
  destruct (resolve (fs w) outDir) as [n| |] eqn:Hres; cbn.
  - apply Hafter; done.
  - rewrite os_MkdirAll_run. cbn [steps tick fs].
    destruct (fault E SysMkdirAll outDir (S (steps w))); [now apply Herr |].
    destruct (mkdirAll _ (fs w) outDir) as [d'|] eqn:Hmk; [| now apply Herr].
    apply mkdirAll_Some in Hmk as [_ Hk]. apply Hafter; [done |].
    cbn. exact Hk.
  - now apply Herr.
Qed.

(** When nothing is in the way and the system refuses nothing,
    [ensureOutDirExists] returns nil. *)
Lemma ensureOutDirExists_succeeds (outDir : path) (w : world) :
  (forall q t b, q `prefix_of` outDir -> fs w !! q <> Some (File t b)) ->
  (forall t, fs w !! Join outDir dirMarker <> Some (Directory t)) ->
  (forall c p n, fault E c p n = false) ->
  exists w', ensureOutDirExists E outDir w = (Ok tt, w').
Proof.
  intros Hfiles Hmarker Hfault.
  unfold ensureOutDirExists, bind. rewrite os_Stat_run, Hfault.
  pose proof (parent_Join outDir dirMarker) as Hpar.
  pose proof (Join_not_prefix outDir dirMarker) as Hnp.
  set (m := Join outDir dirMarker) in *.
  assert (Hafter : forall w1 : world,
            isDirAt (fs w1) outDir -> fs w1 !! m = fs w !! m ->
            exists w', (match os_Create E m w1 with
                        | (Ok _, w2) => (Ok tt, w2)
                        | (Err e, w2) => (Err e, w2)
                        | (OutOfFuel, w2) => (OutOfFuel, w2)
                        end) = (Ok tt, w')).
  { intros w1 [t0 Hres] Hm. rewrite os_Create_run, Hfault. cbv zeta.
    rewrite Hpar, Hres, Hm.
    destruct (fs w !! m) as [[|t]|] eqn:Hwm; eauto.
    exfalso. now apply (Hmarker t). }
  destruct (walk_no_file (fs w) outDir [] Hfiles) as [[t Ht] | Hno].
  - fold (resolve (fs w) outDir) in Ht. rewrite Ht. cbn.
    apply Hafter; [exists t; exact Ht | done].
  - fold (resolve (fs w) outDir) in Hno. rewrite Hno. cbn.
    rewrite os_MkdirAll_run, Hfault. cbn [steps tick fs].
    destruct (mkdirAll_succeeds (wall E (S (steps w))) (fs w) outDir Hfiles)
      as [d' Hd'].
    rewrite Hd'. apply mkdirAll_Some in Hd' as [Hdir Hk].
    apply Hafter; cbn; [exact Hdir | now apply Hk].
Qed.

End Ensure.
End EnsureFacts.

(** ** Times and names *)

Module TimeFacts.

Lemma UnixNano_range (t : Z) : storable (UnixNano t).
Proof.
  unfold storable, UnixNano, minNano, maxNano.
  pose proof (Z.mod_pos_bound (t + 2 ^ 63) (2 ^ 64) ltac:(lia)). lia.
Qed.

Lemma UnixNano_storable (t : Z) : storable t -> UnixNano t = t.
Proof.
  unfold storable, UnixNano, minNano, maxNano. intros H.
  rewrite Z.mod_small by lia. lia.
Qed.

Lemma zeroTime_early : zeroTime < minNano.
Proof. reflexivity. Qed.


(** For the zero time the entry keeps the time it has. *)
Lemma stamped_zeroTime (written : Z) : stamped written zeroTime = written.
Proof. reflexivity. Qed.

(** Every other time is handed on wrapped. *)
Lemma stamped_wraps (written t : Z) :
  t <> zeroTime -> stamped written t = UnixNano t.
Proof.
  intros H. unfold stamped, utimes. now destruct (Z.eqb_spec t zeroTime).
Qed.

(** A time after the last that 64 bits hold is handed on as an earlier
    one. *)
Lemma stamped_late (written t : Z) : maxNano < t -> stamped written t < t.
Proof.
  intros H. rewrite stamped_wraps.
  - pose proof (UnixNano_range t) as [_ Hr]. lia.
  - pose proof zeroTime_early. unfold minNano, maxNano in *. lia.
Qed.

(** A time that is not after the last that 64 bits hold leaves the entry
    not older, when the entry was written after the zero time. *)
Lemma stamped_not_older (written t : Z) :
  t <= maxNano -> zeroTime <= written -> t <= stamped written t.
Proof.
  intros Ht Hw. unfold stamped, utimes.
  destruct (Z.eqb_spec t zeroTime) as [-> | _]; [exact Hw |].
  destruct (Z.le_gt_cases minNano t) as [Hge | Hlt].
  - rewrite UnixNano_storable; [lia | split; assumption].
  - pose proof (UnixNano_range t) as [Hr _]. lia.
Qed.

Lemma splitSlash_no_slash (n : string) :
  hasChar "/" n = false -> splitSlash n = [n].
Proof.
  induction n as [|c n IH]; [reflexivity |]. cbn [hasChar splitSlash].
  destruct (Ascii.eqb c "/"); [discriminate |]. cbn [orb].
  intros H. now rewrite (IH H).
Qed.

(** On a name that is one segment, [filepath.Join] appends the name. *)
Lemma filepath_Join_simpleName (dir : path) (n : string) :
  simpleName n = true -> filepath_Join dir n = Join dir n.
Proof.
  unfold simpleName. rewrite !andb_true_iff, !negb_true_iff.
  intros ((((H0 & H1) & H2) & Hs) & _).
  unfold filepath_Join. rewrite (splitSlash_no_slash n Hs).
  cbn [fold_left]. unfold cleanStep. now rewrite H0, H1, H2.
Qed.

(** Off such names it does not: the name may lead out of the directory, to
    the directory itself, or to another entry of it. *)
Remark filepath_Join_other_names :
  filepath_Join ["backup"] "../escaped.txt" = ["escaped.txt"] /\
  filepath_Join ["backup"] "." = ["backup"] /\
  filepath_Join ["backup"] EmptyString = ["backup"] /\
  filepath_Join ["backup"] "./.duetbackup" = Join ["backup"] dirMarker /\
  filepath_Join ["backup"] "sub/b.txt" = ["backup"; "sub"; "b.txt"].
Proof. repeat split. Qed.

End TimeFacts.

(** ** The mirror updater *)

Module UpdateFacts.
Import FSFacts RunFacts.

Ltac norm H := cbn [steps requests fs withDisk tick requested] in H.

Section Turn.
Variable E : env.
Variables (baseURL : string) (fl : filelist) (outDir : path).
Variable excls : Excludes.excludes.

Lemma mirrored_dec (f : file) :
  {mirrored excls fl f} + {~ mirrored excls fl f}.
Proof.
  unfold mirrored.
  destruct (String.eqb_spec (Type_ f) typeDirectory) as [Ht | Ht].
  - right. tauto.
  - destruct (Excludes.Contains excls (remoteName fl f)) eqn:Hc.
    + right. intros [_ H]. discriminate H.
    + left. auto.
Qed.

Lemma updateLocalFile_skips (f : file) (w : world) :
  ~ mirrored excls fl f ->
  updateLocalFile E baseURL fl outDir excls f w = (Ok tt, w).
Proof.
  unfold mirrored, updateLocalFile, remoteName. intros H.
  destruct (String.eqb_spec (Type_ f) typeDirectory) as [Ht | Ht]; [reflexivity |].
  destruct (Excludes.Contains excls _) eqn:Hc; [reflexivity | tauto].
Qed.

Lemma updateLocalFile_mirrored (f : file) (w : world) :
  mirrored excls fl f ->
  updateLocalFile E baseURL fl outDir excls f w =
  let p := Join outDir (Name f) in
  if fault E SysStat p (steps w) then (Err (PathError SysStat p EIO), tick w)
  else match resolve (fs w) p with
       | NotDir => (Err (PathError SysStat p ENOTDIR), tick w)
       | NotExist => fetchFile E baseURL fl outDir f (tick w)
       | Found n =>
           if ModTime n <? Date f then fetchFile E baseURL fl outDir f (tick w)
           else (Ok tt, tick w)
       end.
Proof.
  unfold mirrored, updateLocalFile, remoteName. intros [Ht Hc].
  destruct (String.eqb_spec (Type_ f) typeDirectory) as [Ht' | _]; [contradiction |].
  rewrite Hc. unfold bind. rewrite os_Stat_run. cbv zeta.
  destruct (fault E SysStat _ (steps w)); [reflexivity |].
  destruct (resolve (fs w) _) as [n | |]; try reflexivity.
  cbn. destruct (ModTime n <? Date f); reflexivity.
Qed.

Lemma fetchFile_outcome (f : file) (w w' : world) (r : result unit) :
  fetchFile E baseURL fl outDir f w = (r, w') ->
  let p := Join outDir (Name f) in
  requests w' = requests w ++ [downloadURL E baseURL fl f] /\
  (forall q, q <> p -> q <> outDir -> fs w' !! q = fs w !! q) /\
  (fs w' !! outDir = fs w !! outDir \/
   exists t1, fs w' !! outDir = setModTime t1 <$> fs w !! outDir) /\
  (((exists e, r = Err e) /\
    (fs w' !! p = fs w !! p \/ exists t b, fs w' !! p = Some (File t b))) \/
   (r = Ok tt /\
    exists body t,
      http_get E (downloadURL E baseURL fl f) = Some body /\
      fs w' !! p = Some (File t body) /\
      (fault E SysChtimes p (steps w + 2) = true ->
       t = writtenAt (wall E (steps w)) (wall E (S (steps w))) body) /\
      (fault E SysChtimes p (steps w + 2) = false ->
       t = stamped (writtenAt (wall E (steps w)) (wall E (S (steps w))) body)
             (Date f)))).
Proof.
  intros H. unfold fetchFile, bind in H.
  fold (remoteName fl f) in H. fold (downloadURL E baseURL fl f) in H.
  pose proof (parent_Join outDir (Name f)) as Hpar.
  pose proof (Join_ne outDir (Name f)) as Hne.
  assert (Hne' : outDir <> Join outDir (Name f)) by congruence.
  set (p := Join outDir (Name f)) in *.
  replace (steps w + 2)%nat with (S (S (steps w))) by lia.
  rewrite download_run in H.
  destruct (http_get E (downloadURL E baseURL fl f)) as [body|] eqn:Hget.
  2:{ injection H as <- <-. cbn. repeat split; eauto. }
  rewrite os_Create_run in H. norm H.
  destruct (fault E SysCreate p (steps w)).
  { injection H as <- <-. cbn. repeat split; eauto. }
  cbv zeta in H. rewrite Hpar in H.
  destruct (resolve (fs w) outDir) as [[]| |];
    try (injection H as <- <-; cbn; repeat split; eauto).
  destruct (fs w !! p) as [[t0 b0|]|] eqn:Hp;
    try (injection H as <- <-; cbn; repeat split; eauto).
  - rewrite file_Write_run in H. norm H.
    destruct (fault E SysWrite p (S (steps w))).
    { injection H as <- <-. cbn. repeat split; eauto.
      - intros q Hq _. now rewrite lookup_insert_ne.
      - left. now rewrite lookup_insert_ne.
      - left. split; eauto. right. rewrite lookup_insert_eq. eauto. }
    unfold discard in H. rewrite os_Chtimes_run in H.
    unfold stamped, writtenAt.
    destruct body as [|c body']; norm H;
      rewrite ?insert_insert_eq, ?lookup_insert_eq in H;
      (destruct (fault E SysChtimes p (S (S (steps w)))) eqn:Hch;
       [| destruct (utimes (Date f)) as [t'|]]);
      injection H as <- <-; cbn; rewrite ?insert_insert_eq;
      (split; [reflexivity |]);
      (split; [intros q Hq _; now rewrite lookup_insert_ne |]);
      (split; [left; now rewrite lookup_insert_ne |]);
      right; (split; [reflexivity |]); eexists; eexists;
      (split; [reflexivity |]);
      (split; [apply lookup_insert_eq |]);
      split; intros Hx; first [ discriminate Hx | reflexivity ].
  - rewrite file_Write_run in H. norm H.
    unfold touchParent in H. rewrite Hpar in H.
    destruct (fault E SysWrite p (S (steps w))).
    { injection H as <- <-. cbn. repeat split; eauto.
      - intros q Hq Hq'. rewrite lookup_alter_ne, lookup_insert_ne; done.
      - right. exists (wall E (steps w)). rewrite lookup_alter_eq.
        now rewrite lookup_insert_ne.
      - left. split; eauto. right.
        rewrite lookup_alter_ne, lookup_insert_eq; eauto. }
    unfold discard in H. rewrite os_Chtimes_run in H.
    unfold stamped, writtenAt.
    destruct body as [|c body']; norm H;
      rewrite ?lookup_insert_eq in H;
      rewrite ?(lookup_alter_ne _ _ _ _ Hne'), ?lookup_insert_eq in H;
      (destruct (fault E SysChtimes p (S (S (steps w)))) eqn:Hch;
       [| destruct (utimes (Date f)) as [t'|]]);
      injection H as <- <-; cbn; rewrite ?insert_insert_eq;
      (split; [reflexivity |]);
      (split; [intros q Hq Hq';
               rewrite ?(lookup_insert_ne _ _ _ _ (not_eq_sym Hq));
               rewrite lookup_alter_ne, lookup_insert_ne; done |]);
      (split; [right; exists (wall E (steps w));
               rewrite ?(lookup_insert_ne _ _ _ _ Hne);
               rewrite lookup_alter_eq; now rewrite lookup_insert_ne |]);
      right; (split; [reflexivity |]); eexists; eexists;
      (split; [reflexivity |]);
      (split; [first [ apply lookup_insert_eq
                     | rewrite lookup_alter_ne by done; apply lookup_insert_eq ] |]);
      split; intros Hx; first [ discriminate Hx | reflexivity ].
Qed.

(** What one turn may change on the disk, whatever it returns. *)
Lemma updateLocalFile_disk (f : file) (w : world) :
  let w' := (updateLocalFile E baseURL fl outDir excls f w).2 in
  let p := Join outDir (Name f) in
  (forall q, q <> p -> q <> outDir -> fs w' !! q = fs w !! q) /\
  (fs w' !! outDir = fs w !! outDir \/
   exists t1, fs w' !! outDir = setModTime t1 <$> fs w !! outDir) /\
  (fs w' !! p = fs w !! p \/ exists t b, fs w' !! p = Some (File t b)).
Proof.
  cbv zeta. destruct (mirrored_dec f) as [Hm | Hm].
  2:{ rewrite updateLocalFile_skips by done. cbn. auto. }
  rewrite updateLocalFile_mirrored by done. cbv zeta.
  assert (Hfetch :
    let w' := (fetchFile E baseURL fl outDir f (tick w)).2 in
    (forall q, q <> Join outDir (Name f) -> q <> outDir -> fs w' !! q = fs w !! q) /\
    (fs w' !! outDir = fs w !! outDir \/
     exists t1, fs w' !! outDir = setModTime t1 <$> fs w !! outDir) /\
    (fs w' !! Join outDir (Name f) = fs w !! Join outDir (Name f) \/
     exists t b, fs w' !! Join outDir (Name f) = Some (File t b))).
  { destruct (fetchFile E baseURL fl outDir f (tick w)) as [r w'] eqn:Hf.
    apply fetchFile_outcome in Hf as (_ & H1 & H2 & H3). cbn in *.
    repeat split; [exact H1 | exact H2 |].
    destruct H3 as [[_ H3] | (_ & body & t & _ & H3 & _)]; eauto. }
  destruct (fault E SysStat _ (steps w)); [cbn; auto |].
  destruct (resolve (fs w) _) as [n| |]; [| exact Hfetch | cbn; auto].
  destruct (ModTime n <? Date f); [exact Hfetch | cbn; auto].
Qed.

(** A turn keeps the directory a directory and removes no entry of it. *)
Lemma updateLocalFile_keeps (f : file) (w : world) :
  let w' := (updateLocalFile E baseURL fl outDir excls f w).2 in
  (isDirAt (fs w) outDir -> isDirAt (fs w') outDir) /\
  (forall n, is_Some (fs w !! Join outDir n) -> is_Some (fs w' !! Join outDir n)).
Proof.
  cbv zeta. destruct (updateLocalFile_disk f w) as (H1 & H2 & H3).
  set (w' := (updateLocalFile E baseURL fl outDir excls f w).2) in *. split.
  - rewrite !isDirAt_iff. intros Hd q Hq. destruct (Hd q Hq) as [t Ht].
    destruct (decide (q = outDir)) as [-> | Hne].
    + destruct H2 as [H2 | [t1 H2]]; rewrite H2, Ht; cbn; eauto.
    + rewrite H1; [eauto | | exact Hne].
      intros ->. now apply (Join_not_prefix outDir (Name f)).
  - intros n Hn. destruct (decide (Join outDir n = Join outDir (Name f))) as [Heq | Hne].
    + rewrite Heq in *. destruct H3 as [H3 | (t & b & H3)]; rewrite H3; eauto.
    + rewrite H1; [exact Hn | exact Hne | apply Join_ne].
Qed.



(** A turn that returns nil, when [os.Chtimes] is never refused, the
    clock is not before the zero time and the entry is not dated after the
    last time that [os.Chtimes] hands on, leaves the entry not older than
    the listing says and makes no entry of the directory older. *)
Lemma updateLocalFile_first_run (f : file) (w w' : world) :
  (forall p n, fault E SysChtimes p n = false) ->
  (forall n, zeroTime <= wall E n) ->
  (mirrored excls fl f -> Date f <= maxNano) ->
  updateLocalFile E baseURL fl outDir excls f w = (Ok tt, w') ->
  isDirAt (fs w) outDir ->
  (forall n t, fresh (fs w) (Join outDir n) t -> fresh (fs w') (Join outDir n) t) /\
  (mirrored excls fl f -> fresh (fs w') (Join outDir (Name f)) (Date f)).
Proof.
  intros Hch Hwall Hdate Hrun Hdir. destruct (mirrored_dec f) as [Hm | Hm].
  2:{ rewrite updateLocalFile_skips in Hrun by done. injection Hrun as <-.
      split; [auto | contradiction]. }
  rewrite updateLocalFile_mirrored in Hrun by done. cbv zeta in Hrun.
  rewrite (resolve_Join _ _ _ Hdir) in Hrun.
  assert (Hfetch : fetchFile E baseURL fl outDir f (tick w) = (Ok tt, w') ->
    (forall nd, fs w !! Join outDir (Name f) = Some nd -> ModTime nd < Date f) ->
    (forall n t, fresh (fs w) (Join outDir n) t -> fresh (fs w') (Join outDir n) t) /\
    (mirrored excls fl f -> fresh (fs w') (Join outDir (Name f)) (Date f))).
  { intros Hf Hold. apply fetchFile_outcome in Hf as (_ & H1 & _ & Hp). cbn in *.
    destruct Hp as [[[e He] _] | (_ & body & t & _ & Hp & _ & Ht)];
      [discriminate |].
    rewrite (Ht (Hch _ _)) in Hp.
    pose proof (TimeFacts.stamped_not_older
                  (writtenAt (wall E (S (steps w))) (wall E (S (S (steps w)))) body)
                  (Date f) (Hdate Hm)
                  ltac:(destruct body; apply Hwall)) as Hst.
    split.
    - intros n t0 (nd & Hnd & Hle).
      destruct (decide (Join outDir n = Join outDir (Name f))) as [Heq | Hne].
      + rewrite Heq in *. eexists. split; [exact Hp |].
        cbn. specialize (Hold nd Hnd). lia.
      + exists nd. split; [| exact Hle]. rewrite H1; [exact Hnd | exact Hne |].
        apply Join_ne.
    - intros _. eexists. split; [exact Hp | cbn; lia]. }
  destruct (fault E SysStat _ (steps w)); [discriminate |].
  destruct (fs w !! Join outDir (Name f)) as [nd|] eqn:Hnd.
  - destruct (Z.ltb_spec (ModTime nd) (Date f)) as [Hlt | Hge].
    + apply Hfetch; [exact Hrun |]. intros nd' [= <-]. exact Hlt.
    + injection Hrun as <-. cbn. split; [auto |].
      intros _. exists nd. auto.
  - apply Hfetch; [exact Hrun |]. intros nd' Hnd'. discriminate.
Qed.

Lemma forEach_first_run (l : list file) :
  (forall p n, fault E SysChtimes p n = false) ->
  (forall n, zeroTime <= wall E n) ->
  (forall f, In f l -> mirrored excls fl f -> Date f <= maxNano) ->
  forall w w',
    forEach l (updateLocalFile E baseURL fl outDir excls) w = (Ok tt, w') ->
    isDirAt (fs w) outDir ->
    isDirAt (fs w') outDir /\
    (forall n t, fresh (fs w) (Join outDir n) t -> fresh (fs w') (Join outDir n) t) /\
    (forall f, In f l -> mirrored excls fl f ->
               fresh (fs w') (Join outDir (Name f)) (Date f)).
Proof.
  intros Hch Hwall. induction l as [|f l IH]; intros Hdate w w' Hrun Hdir.
  - injection Hrun as <-. repeat split; auto. intros f [].
  - rewrite forEach_cons in Hrun.
    destruct (updateLocalFile E baseURL fl outDir excls f w) as [[[]|e|] w1] eqn:Hf;
      try discriminate.
    pose proof (proj1 (updateLocalFile_keeps f w)) as Hk. rewrite Hf in Hk.
    cbn [snd] in Hk. specialize (Hk Hdir).
    destruct (updateLocalFile_first_run f w w1 Hch Hwall
                (Hdate f (or_introl eq_refl)) Hf Hdir) as [Hmono Hfresh].
    destruct (IH (fun g Hg => Hdate g (or_intror Hg)) w1 w' Hrun Hk)
      as (Hd' & Hmono' & Hall). repeat split; auto.
    intros g [<- | Hg] Hm; [apply Hmono'; auto | now apply Hall].
Qed.

(** The turn of an entry that is not older locally changes nothing. *)
Lemma updateLocalFile_fresh (f : file) (w : world) :
  isDirAt (fs w) outDir ->
  (mirrored excls fl f -> fresh (fs w) (Join outDir (Name f)) (Date f)) ->
  let w' := (updateLocalFile E baseURL fl outDir excls f w).2 in
  fs w' = fs w /\ requests w' = requests w.
Proof.
  intros Hdir Hfresh. cbv zeta. destruct (mirrored_dec f) as [Hm | Hm].
  2:{ rewrite updateLocalFile_skips by done. auto. }
  rewrite updateLocalFile_mirrored by done. cbv zeta.
  destruct (fault E SysStat _ (steps w)); [auto |].
  rewrite (resolve_Join _ _ _ Hdir).
  destruct (Hfresh Hm) as (nd & -> & Hle).
  destruct (Z.ltb_spec (ModTime nd) (Date f)); [lia | auto].
Qed.

Lemma forEach_second_run (l : list file) :
  forall w,
    isDirAt (fs w) outDir ->
    (forall f, In f l -> mirrored excls fl f ->
               fresh (fs w) (Join outDir (Name f)) (Date f)) ->
    let w' := (forEach l (updateLocalFile E baseURL fl outDir excls) w).2 in
    fs w' = fs w /\ requests w' = requests w.
Proof.
  induction l as [|f l IH]; intros w Hdir Hall; [cbn; auto |].
  cbv zeta. rewrite forEach_cons.
  destruct (updateLocalFile_fresh f w Hdir) as [Hfs Hreq].
  { intros Hm. apply Hall; [now left | exact Hm]. }
  destruct (updateLocalFile E baseURL fl outDir excls f w) as [[[]|e|] w1];
    cbn [snd] in *; auto.
  rewrite <- Hfs, <- Hreq. apply IH.
  - now rewrite Hfs.
  - intros g Hg Hm. rewrite Hfs. apply Hall; [now right | exact Hm].
Qed.

End Turn.

(** After [updateLocalFiles] has returned nil the directory is there and
    holds its marker. *)
Lemma updateLocalFiles_managed (E : env) (baseURL : string) (fl : filelist)
  (outDir : path) (excls : Excludes.excludes) (w w' : world) :
  updateLocalFiles E baseURL fl outDir excls w = (Ok tt, w') ->
  isDirAt (fs w') outDir /\ hasMarker (fs w') outDir.
Proof.
  unfold updateLocalFiles, bind. intros H.
  destruct (ensureOutDirExists E outDir w) as [[[]|e|] w1] eqn:He; try discriminate.
  apply EnsureFacts.ensureOutDirExists_effect in He as (_ & _ & _ & Hok).
  destruct (Hok eq_refl) as [Hdir [n Hn]].
  pose proof (forEach_invariant
    (fun w => isDirAt (fs w) outDir /\ hasMarker (fs w) outDir)
    (Files fl) (updateLocalFile E baseURL fl outDir excls)) as Hinv.
  rewrite (surjective_pairing (forEach _ _ w1)) in H. injection H as _ <-.
  apply Hinv.
  - intros f w0 _ [Hd Hmk].
    destruct (updateLocalFile_keeps E baseURL fl outDir excls f w0) as [H1 H2].
    split; [now apply H1 | now apply H2].
  - split; [exact Hdir |]. unfold hasMarker. rewrite Hn. eauto.
Qed.

(** C7, as the code has it: when an update has returned nil and no
    [os.Chtimes] of it was refused, an update of the disk it left, with the
    same listing, requests no download, provided that the name of every
    mirrored entry is one path segment, that no mirrored entry is dated
    after the last time that [os.Chtimes] hands on as it is, and that no
    mirrored entry that has the name of the marker is dated after the wall
    clock of the second run.  The wall clock of the first run is not before
    the zero time. *)
Theorem second_update_downloads_nothing (E1 E2 : env) (baseURL : string)
  (fl : filelist) (outDir : path) (excls : Excludes.excludes)
  (w w1 w2 : world) :
  updateLocalFiles E1 baseURL fl outDir excls w = (Ok tt, w1) ->
  (forall p n, fault E1 SysChtimes p n = false) ->
  (forall n, zeroTime <= wall E1 n) ->
  (forall f, In f (Files fl) -> mirrored excls fl f ->
             simpleName (Name f) = true /\ Date f <= maxNano) ->
  (forall f n, In f (Files fl) -> mirrored excls fl f -> Name f = dirMarker ->
               Date f <= wall E2 n) ->
  fs w2 = fs w1 ->
  requests (updateLocalFiles E2 baseURL fl outDir excls w2).2 = requests w2.
Proof.
  intros Hrun Hch Hwall Hentries Hmarker Hfs.
  assert (Hpost : forall f, In f (Files fl) -> mirrored excls fl f ->
                            fresh (fs w1) (Join outDir (Name f)) (Date f)).
  { unfold updateLocalFiles, bind in Hrun.
    destruct (ensureOutDirExists E1 outDir w) as [[[]|e|] w0] eqn:He;
      try discriminate.
    apply EnsureFacts.ensureOutDirExists_effect in He as (_ & _ & _ & Hok).
    destruct (Hok eq_refl) as [Hdir _].
    apply (forEach_first_run E1 baseURL fl outDir excls (Files fl) Hch Hwall
             (fun f Hf Hm => proj2 (Hentries f Hf Hm)) w0 w1 Hrun Hdir). }
  unfold updateLocalFiles, bind.
  destruct (ensureOutDirExists E2 outDir w2) as [r w3] eqn:He.
  apply EnsureFacts.ensureOutDirExists_effect in He as (Hreq & Hframe & Hmk & Hok).
  destruct r as [[]|e|]; cbn [snd]; try exact Hreq.
  destruct (Hok eq_refl) as [Hdir _].
  rewrite <- Hreq.
  apply (forEach_second_run E2 baseURL fl outDir excls (Files fl) w3 Hdir).
  intros f Hf Hm. destruct (Hpost f Hf Hm) as (nd & Hnd & Hle).
  destruct (String.eqb_spec (Name f) dirMarker) as [Heq | Hne].
  - rewrite Heq in Hnd |- *. destruct Hmk as [Hmk | [n Hmk]].
    + exists nd. rewrite Hmk, Hfs. auto.
    + exists (File (wall E2 n) EmptyString). split; [exact Hmk |].
      cbn. exact (Hmarker f n Hf Hm Heq).
  - exists nd. split; [| exact Hle]. rewrite Hframe, Hfs; [exact Hnd | |].
    + apply Join_not_prefix.
    + intros Heq. apply Join_inj in Heq. contradiction.
Qed.

End UpdateFacts.

(** ** The reclaimer *)

Module ReclaimFacts.
Import FSFacts RunFacts.

Lemma childOf_Some (dir : path) (k : path) (v : node) (n : string) (nd : node) :
  childOf dir (k, v) = Some (n, nd) -> k = Join dir n /\ v = nd.
Proof.
  unfold childOf. cbn [fst snd].
  destruct (drop (length dir) k) as [|n' [|? ?]] eqn:Hdrop; try discriminate.
  case_bool_decide as Htake; [| discriminate]. intros [= -> ->].
  split; [| reflexivity].
  rewrite <- (take_drop (length dir) k), Hdrop, Htake. reflexivity.
Qed.

Lemma childOf_Join (dir : path) (n : string) (nd : node) :
  childOf dir (Join dir n, nd) = Some (n, nd).
Proof.
  unfold childOf, Join. cbn [fst snd].
  rewrite drop_app_length, take_app_length. now rewrite bool_decide_eq_true_2.
Qed.

(** [children] lists the entries directly inside the directory. *)
Lemma children_lookup (d : disk) (dir : path) (n : string) (nd : node) :
  (n, nd) ∈ children d dir <-> d !! Join dir n = Some nd.
Proof.
  unfold children. rewrite list_elem_of_omap. split.
  - intros ([k v] & Hin & Hc). apply elem_of_map_to_list in Hin.
    apply childOf_Some in Hc as [-> ->]. exact Hin.
  - intros H. exists (Join dir n, nd). split.
    + now apply elem_of_map_to_list.
    + apply childOf_Join.
Qed.

Lemma removeTree_outside (p q : path) (d : disk) :
  ~ p `prefix_of` q -> removeTree p d !! q = d !! q.
Proof.
  intros H. unfold removeTree. destruct (d !! q) as [x|] eqn:Hq.
  - apply map_lookup_filter_Some. auto.
  - apply map_lookup_filter_None. left. exact Hq.
Qed.

Lemma removeTree_inside (p q : path) (d : disk) :
  p `prefix_of` q -> removeTree p d !! q = None.
Proof.
  intros H. unfold removeTree. apply map_lookup_filter_None. right.
  intros x _ Hn. now apply Hn.
Qed.

Section Reclaim.
Variable E : env.
Variable existingFiles : gset string.
Variable outDir : path.

(** What one turn of the loop does: it removes a directory, and only one
    that is not in the listing, is not named like the marker and holds a
    marker entry; otherwise it leaves the disk as it is. *)
Lemma removeDeletedFile_disk (f : string * node) (w : world) :
  let w' := (removeDeletedFile E existingFiles outDir f w).2 in
  fs w' = fs w \/
  ((f.1 ∉ existingFiles) /\ IsDir f.2 = true /\ f.1 <> dirMarker /\
   hasMarker (fs w) (Join outDir f.1) /\
   exists now,
     fs w' = touchParent now (Join outDir f.1) (removeTree (Join outDir f.1) (fs w))).
Proof.
  cbv zeta. unfold removeDeletedFile.
  case_bool_decide as Hex; [now left |].
  unfold bind, isManagedDirectory.
  destruct (IsDir f.2) eqn:Hdir; cbn [negb]; [| now left].
  unfold bind. rewrite os_Stat_run.
  destruct (fault E SysStat _ (steps w)); [now left |].
  destruct (resolve (fs w) (Join (Join outDir f.1) dirMarker)) as [n| |] eqn:Hres;
    cbn; try now left.
  destruct (String.eqb_spec f.1 dirMarker) as [Hm | Hm]; cbn; [now left |].
  rewrite os_RemoveAll_run. cbn [steps tick fs].
  destruct (fault E SysRemoveAll _ (S (steps w))); [now left |].
  destruct (fs w !! Join outDir f.1); [| now left].
  right. repeat split; auto.
  - unfold hasMarker. apply resolve_Found_lookup in Hres. rewrite Hres. eauto.
  - eexists. reflexivity.
Qed.

(** The entries below a child that the turn does not remove stay as they
    are. *)
Lemma removeDeletedFile_frame (f : string * node) (w : world) (n : string) :
  f.1 <> n ->
  forall q, Join outDir n `prefix_of` q ->
    fs (removeDeletedFile E existingFiles outDir f w).2 !! q = fs w !! q.
Proof.
  intros Hne q Hq.
  destruct (removeDeletedFile_disk f w) as [-> | (_ & _ & _ & _ & now & ->)];
    [reflexivity |].
  unfold touchParent. rewrite parent_Join.
  rewrite lookup_alter_ne.
  - apply removeTree_outside. intros Hq'. apply Hne.
    now apply (Join_prefix_Join outDir f.1 n q).
  - intros <-. now apply (Join_not_prefix outDir n).
Qed.

End Reclaim.

Lemma removeDeletedFiles_keeps (E : env) (fl : filelist) (outDir : path)
  (w : world) (n : string) (nd : node) :
  fs w !! Join outDir n = Some nd ->
  spared fl (fs w) outDir n nd ->
  forall q, Join outDir n `prefix_of` q ->
    fs (removeDeletedFiles E fl outDir w).2 !! q = fs w !! q.
Proof.
  intros Hnd Hsp q Hq. unfold removeDeletedFiles, bind.
  rewrite ioutil_ReadDir_run.
  destruct (fault E SysReadDir outDir (steps w)); [reflexivity |].
  destruct (resolve (fs w) outDir) as [[]| |]; try reflexivity.
  set (existing := list_to_set (map Name (Files fl)) : gset string).
  set (files := Sort.SliceStable byName (children (fs w) outDir)).
  assert (Hsnap : forall f, In f files -> fs w !! Join outDir f.1 = Some f.2).
  { intros [m ndm] Hf. cbn [fst snd]. apply (proj1 (children_lookup _ _ _ _)).
    apply list_elem_of_In.
    eapply Permutation_in; [apply SortFacts.SliceStable_perm | exact Hf]. }
  pose proof (forEach_invariant
    (fun w0 => forall q, Join outDir n `prefix_of` q -> fs w0 !! q = fs w !! q)
    files (removeDeletedFile E existing outDir)) as Hinv.
  apply (Hinv); [| intros q0 _; reflexivity | exact Hq].
  intros f w0 Hf Hw0 q0 Hq0. rewrite <- (Hw0 q0 Hq0).
  destruct (decide (f.1 = n)) as [Heq | Hne].
  2:{ now apply (removeDeletedFile_frame E existing outDir f w0 n). }
  destruct (removeDeletedFile_disk E existing outDir f w0)
    as [-> | (Hex & Hdir & Hmk & Hhas & _)]; [reflexivity |].
  exfalso. specialize (Hsnap f Hf). rewrite Heq in *.
  rewrite Hnd in Hsnap. injection Hsnap as ->.
  destruct Hsp as [Hin | [Hm | [Hd | Hno]]].
  - apply Hex. unfold existing. apply elem_of_list_to_set.
    now apply list_elem_of_In.
  - contradiction.
  - congruence.
  - apply Hno. unfold hasMarker in *. rewrite <- Hw0; [exact Hhas |].
    now apply prefix_app_r.
Qed.

(** C4: the reclaimer leaves the marker entry of the directory and every
    directory in it that holds no marker entry as they are, with all that is
    below them, also when the listing does not name them. *)
Theorem removeDeletedFiles_spares_marker_and_unmanaged (E : env) (fl : filelist)
  (outDir : path) (w : world) (n : string) (nd : node) :
  fs w !! Join outDir n = Some nd ->
  n = dirMarker \/ (IsDir nd = true /\ ~ hasMarker (fs w) (Join outDir n)) ->
  forall q, Join outDir n `prefix_of` q ->
    fs (removeDeletedFiles E fl outDir w).2 !! q = fs w !! q.
Proof.
  intros Hnd Hcase. apply (removeDeletedFiles_keeps E fl outDir w n nd Hnd).
  unfold spared. destruct Hcase as [-> | [_ Hno]]; auto.
Qed.

(** C10: the reclaimer leaves every child of the directory that is not a
    directory holding a marker entry as it is, with all that is below it,
    also when the listing does not name it; so it removes no regular
    file. *)
Theorem removeDeletedFiles_removes_only_managed_directories (E : env)
  (fl : filelist) (outDir : path) (w : world) (n : string) (nd : node) :
  fs w !! Join outDir n = Some nd ->
  ~ (IsDir nd = true /\ hasMarker (fs w) (Join outDir n)) ->
  forall q, Join outDir n `prefix_of` q ->
    fs (removeDeletedFiles E fl outDir w).2 !! q = fs w !! q.
Proof.
  intros Hnd Hnot. apply (removeDeletedFiles_keeps E fl outDir w n nd Hnd).
  unfold spared. destruct (IsDir nd) eqn:Hd; [| auto].
  right. right. right. intros Hm. apply Hnot. auto.
Qed.

(** All that the reclaimer takes from the disk lies in a reclaimable
    directory. *)
Lemma removeDeletedFiles_removes_below_managed_only (E : env) (fl : filelist)
  (outDir : path) (w : world) (q : path) :
  q <> outDir ->
  fs (removeDeletedFiles E fl outDir w).2 !! q = fs w !! q \/
  (fs (removeDeletedFiles E fl outDir w).2 !! q = None /\
   exists m, reclaimable fl (fs w) outDir m /\ Join outDir m `prefix_of` q).
Proof.
  intros Hq. unfold removeDeletedFiles, bind. rewrite ioutil_ReadDir_run.
  destruct (fault E SysReadDir outDir (steps w)); [now left |].
  destruct (resolve (fs w) outDir) as [[]| |]; try now left.
  set (existing := list_to_set (map Name (Files fl)) : gset string).
  set (files := Sort.SliceStable byName (children (fs w) outDir)).
  assert (Hsnap : forall f, In f files -> fs w !! Join outDir f.1 = Some f.2).
  { intros [m ndm] Hf. cbn [fst snd]. apply (proj1 (children_lookup _ _ _ _)).
    apply list_elem_of_In.
    eapply Permutation_in; [apply SortFacts.SliceStable_perm | exact Hf]. }
  pose proof (forEach_invariant
    (fun w0 => forall q, q <> outDir ->
       fs w0 !! q = fs w !! q \/
       (fs w0 !! q = None /\
        exists m, reclaimable fl (fs w) outDir m /\ Join outDir m `prefix_of` q))
    files (removeDeletedFile E existing outDir)) as Hinv.
  apply Hinv; [| intros q0 _; now left | exact Hq].
  intros f w0 Hf Hw0 q0 Hq0.
  destruct (removeDeletedFile_disk E existing outDir f w0)
    as [-> | (Hex & Hdir & Hmk & Hhas & now & ->)]; [now apply Hw0 |].
  unfold touchParent. rewrite parent_Join, lookup_alter_ne by done.
  destruct (decide (Join outDir f.1 `prefix_of` q0)) as [Hin | Hout].
  2:{ rewrite removeTree_outside by done. now apply Hw0. }
  right. split; [now apply removeTree_inside |].
  exists f.1. split; [| exact Hin]. repeat split.
  - intros Hn. apply Hex. unfold existing. apply elem_of_list_to_set.
    now apply list_elem_of_In.
  - exact Hmk.
  - specialize (Hsnap f Hf). destruct f.2 as [|t]; [discriminate Hdir | eauto].
  - unfold hasMarker in *.
    destruct (Hw0 (Join (Join outDir f.1) dirMarker)) as [<- | [Hnone _]].
    + apply (Join_prefix_ne outDir _ f.1). now apply prefix_app_r.
    + exact Hhas.
    + rewrite Hnone in Hhas. now destruct Hhas.
Qed.

Section Removal.
Variable E : env.
Hypothesis no_fault : forall c p n, fault E c p n = false.
Variable existingFiles : gset string.
Variable outDir : path.

Lemma removeDeletedFile_returns (f : string * node) (w : world) :
  (removeDeletedFile E existingFiles outDir f w).1 = Ok tt.
Proof.
  unfold removeDeletedFile. case_bool_decide; [reflexivity |].
  unfold bind, isManagedDirectory.
  destruct (IsDir f.2); cbn [negb]; [| reflexivity].
  unfold bind. rewrite os_Stat_run, no_fault.
  destruct (resolve (fs w) _); cbn; try reflexivity.
  destruct (String.eqb f.1 dirMarker); cbn; [reflexivity |].
  rewrite os_RemoveAll_run, no_fault. cbn [steps tick fs].
  destruct (fs w !! _); reflexivity.
Qed.

Lemma forEach_removeDeletedFile_returns (l : list (string * node)) (w : world) :
  (forEach l (removeDeletedFile E existingFiles outDir) w).1 = Ok tt.
Proof.
  revert w. induction l as [|f l IH]; intros w; [reflexivity |].
  rewrite forEach_cons. pose proof (removeDeletedFile_returns f w) as Hf.
  destruct (removeDeletedFile E existingFiles outDir f w) as [[[]|e|] w'];
    cbn in Hf; try discriminate. apply IH.
Qed.

Lemma removeDeletedFile_keeps_dir (f : string * node) (w : world) :
  isDirAt (fs w) outDir ->
  isDirAt (fs (removeDeletedFile E existingFiles outDir f w).2) outDir.
Proof.
  intros Hd.
  destruct (removeDeletedFile_disk E existingFiles outDir f w)
    as [-> | (_ & _ & _ & _ & now & ->)]; [exact Hd |].
  apply isDirAt_touch. apply isDirAt_iff. intros q Hq.
  rewrite removeTree_outside.
  - now apply (proj1 (isDirAt_iff _ _) Hd).
  - intros Hp. apply (Join_not_prefix outDir f.1). now transitivity q.
Qed.

Lemma removeDeletedFile_keeps_gone (f : string * node) (w : world) (q : path) :
  q <> outDir -> fs w !! q = None ->
  fs (removeDeletedFile E existingFiles outDir f w).2 !! q = None.
Proof.
  intros Hq Hnone.
  destruct (removeDeletedFile_disk E existingFiles outDir f w)
    as [-> | (_ & _ & _ & _ & now & ->)]; [exact Hnone |].
  unfold touchParent. rewrite parent_Join, lookup_alter_ne by done.
  unfold removeTree. apply map_lookup_filter_None. now left.
Qed.

(** The turn of a managed directory that the listing does not name removes
    it. *)
Lemma removeDeletedFile_removes (n : string) (t : Z) (w : world) (q : path) :
  n ∉ existingFiles -> n <> dirMarker ->
  isDirAt (fs w) outDir ->
  is_Some (fs w !! Join outDir n) ->
  (exists t', fs w !! Join outDir n = Some (Directory t')) ->
  hasMarker (fs w) (Join outDir n) ->
  Join outDir n `prefix_of` q ->
  fs (removeDeletedFile E existingFiles outDir (n, Directory t) w).2 !! q = None.
Proof.
  intros Hex Hm Hd Hsome [t' Hn] [x Hmk] Hq.
  unfold removeDeletedFile. cbn [fst snd]. rewrite bool_decide_eq_false_2 by done.
  unfold bind, isManagedDirectory. cbn [IsDir negb fst snd].
  unfold bind. rewrite os_Stat_run, no_fault.
  assert (Hdn : isDirAt (fs w) (Join outDir n)).
  { exists t'. rewrite (resolve_Join _ _ _ Hd), Hn. reflexivity. }
  rewrite (resolve_Join _ _ _ Hdn), Hmk. cbn.
  destruct (String.eqb_spec n dirMarker) as [Heq | _]; [contradiction |]. cbn.
  rewrite os_RemoveAll_run, no_fault. cbn [steps tick fs]. rewrite Hn. cbn.
  unfold touchParent. rewrite parent_Join, lookup_alter_ne.
  - now apply removeTree_inside.
  - intros Heq. now apply (Join_prefix_ne outDir q n).
Qed.

End Removal.

(** What the reclaimer does remove: when the system refuses nothing, a
    managed directory in [outDir] that the listing does not name and that is
    not named like the marker is gone afterwards, with all that was below
    it. *)
Lemma removeDeletedFiles_removes_managed (E : env) (fl : filelist)
  (outDir : path) (w : world) (n : string) :
  (forall c p k, fault E c p k = false) ->
  isDirAt (fs w) outDir ->
  reclaimable fl (fs w) outDir n ->
  (removeDeletedFiles E fl outDir w).1 = Ok tt /\
  forall q, Join outDir n `prefix_of` q ->
    fs (removeDeletedFiles E fl outDir w).2 !! q = None.
Proof.
  intros Hfault Hd (Hnot & Hmk & [t Hn] & Hhas).
  unfold removeDeletedFiles, bind. rewrite ioutil_ReadDir_run, Hfault.
  destruct Hd as [t0 Hres]. rewrite Hres.
  set (existing := list_to_set (map Name (Files fl)) : gset string).
  set (files := Sort.SliceStable byName (children (fs w) outDir)).
  assert (Hex : n ∉ existing).
  { unfold existing. rewrite elem_of_list_to_set, list_elem_of_In. exact Hnot. }
  assert (Hin : In (n, Directory t) files).
  { eapply Permutation_in; [symmetry; apply SortFacts.SliceStable_perm |].
    apply list_elem_of_In. now apply children_lookup. }
  apply in_split in Hin as (l1 & l2 & Hfiles). rewrite Hfiles.
  split; [apply forEach_removeDeletedFile_returns; exact Hfault |].
  intros q Hq.
  assert (Hqne : q <> outDir).
  { now apply (Join_prefix_ne outDir q n). }
  rewrite forEach_app.
  pose proof (forEach_removeDeletedFile_returns E Hfault existing outDir l1 (tick w))
    as Hok1.
  pose proof (forEach_invariant
    (fun w0 => isDirAt (fs w0) outDir /\
       ((forall q, Join outDir n `prefix_of` q -> fs w0 !! q = fs w !! q) \/
        (forall q, Join outDir n `prefix_of` q -> fs w0 !! q = None)))
    l1 (removeDeletedFile E existing outDir)) as Hinv1.
  assert (H1 : let w1 := (forEach l1 (removeDeletedFile E existing outDir)
                            (tick w)).2 in
     isDirAt (fs w1) outDir /\
     ((forall q, Join outDir n `prefix_of` q -> fs w1 !! q = fs w !! q) \/
      (forall q, Join outDir n `prefix_of` q -> fs w1 !! q = None))).
  { apply (Hinv1 ) with (w := tick w).
    - intros f w0 _ [Hd0 Hcase]. split; [now apply removeDeletedFile_keeps_dir |].
      destruct Hcase as [Hsame | Hgone].
      + destruct (decide (f.1 = n)) as [Heq | Hne].
        * destruct (removeDeletedFile_disk E existing outDir f w0)
            as [-> | (_ & _ & _ & _ & now & ->)]; [now left |].
          right. intros q0 Hq0. unfold touchParent.
          rewrite parent_Join, lookup_alter_ne.
          -- apply removeTree_inside. now rewrite Heq.
          -- intros Heq'. now apply (Join_prefix_ne outDir q0 n).
        * left. intros q0 Hq0. rewrite <- (Hsame q0 Hq0).
          now apply (removeDeletedFile_frame E existing outDir f w0 n).
      + right. intros q0 Hq0. apply removeDeletedFile_keeps_gone; [| now apply Hgone].
        now apply (Join_prefix_ne outDir q0 n).
    - split; [exists t0; exact Hres | now left]. }
  clear Hinv1.
  destruct (forEach l1 (removeDeletedFile E existing outDir) (tick w))
    as [[[]|e|] w1]; cbn in Hok1, H1; try discriminate.
  destruct H1 as [Hd1 Hcase]. rewrite forEach_cons.
  assert (Hturn : forall q, Join outDir n `prefix_of` q ->
            fs (removeDeletedFile E existing outDir (n, Directory t) w1).2 !! q = None).
  { intros q0 Hq0. destruct Hcase as [Hsame | Hgone].
    - apply (removeDeletedFile_removes E Hfault existing outDir n t w1 q0);
        auto.
      + rewrite Hsame by done. rewrite Hn. eauto.
      + exists t. rewrite Hsame by done. exact Hn.
      + unfold hasMarker in *. rewrite Hsame; [exact Hhas |].
        now apply prefix_app_r.
    - apply removeDeletedFile_keeps_gone; [| now apply Hgone].
      now apply (Join_prefix_ne outDir q0 n). }
  destruct (removeDeletedFile E existing outDir (n, Directory t) w1)
    as [[[]|e|] w2]; cbn [snd] in Hturn; try now apply Hturn.
  pose proof (forEach_invariant
    (fun w0 => forall q, Join outDir n `prefix_of` q -> fs w0 !! q = None)
    l2 (removeDeletedFile E existing outDir)) as Hinv2.
  apply Hinv2; [| exact Hturn | exact Hq].
  intros f w0 _ Hgone q0 Hq0. apply removeDeletedFile_keeps_gone; [| now apply Hgone].
  now apply (Join_prefix_ne outDir q0 n).
Qed.

End ReclaimFacts.

(** ** Whole runs *)

Module SyncFacts.
Import FSFacts RunFacts.

(** An excluded folder is left alone: no request, no change. *)
Lemma syncFolder_excluded (E : env) (fuel : nat) (address folder : string)
  (outDir : path) (excls : Excludes.excludes) (removeLocal : bool) (w : world) :
  Excludes.Contains excls folder = true ->
  syncFolder E (S fuel) address folder outDir excls removeLocal w = (Ok tt, w).
Proof. intros H. cbn [syncFolder]. now rewrite H. Qed.

(** The loop returns the first error and runs no later turn. *)
Lemma forEach_stops {A} (l1 l2 : list A) (x : A) (body : A -> M unit)
  (w w1 w' : world) (e : error) :
  forEach l1 body w = (Ok tt, w1) ->
  body x w1 = (Err e, w') ->
  forEach (l1 ++ x :: l2) body w = (Err e, w').
Proof. intros H1 Hx. now rewrite forEach_app, H1, forEach_cons, Hx. Qed.

(** An error of [updateLocalFiles] is the result of [syncFolder]: there is
    no reclaim and no descent after it. *)
Lemma syncFolder_update_error (E : env) (fuel : nat) (address folder : string)
  (outDir : path) (excls : Excludes.excludes) (removeLocal : bool)
  (w w1 w2 : world) (fl : filelist) (e : error) :
  Excludes.Contains excls folder = false ->
  getFileList E (S fuel) address (QueryEscape E folder) 0%N w = (Ok fl, w1) ->
  updateLocalFiles E address fl outDir excls w1 = (Err e, w2) ->
  syncFolder E (S fuel) address folder outDir excls removeLocal w = (Err e, w2).
Proof.
  intros Hc Hl Hu. cbn [syncFolder]. rewrite Hc. unfold bind at 1. rewrite Hl.
  unfold bind at 1. now rewrite Hu.
Qed.

(** The scenario of the specification: the first run builds the mirror, a
    second run downloads nothing. *)
Example sync_scenario :
  syncFolder Demo.treeServer 3 Demo.address "0:/sys" Demo.backup Excludes.empty
    true (Demo.start Demo.rootOnly)
  = (Ok tt,
     {| fs := <[ ["backup"; "sub"; "b.txt"] := File 50 "bbb" ]>
              (<[ ["backup"; "sub"; ".duetbackup"] := File 1010 EmptyString ]>
              (<[ ["backup"; "sub"] := Directory 1012 ]>
              (<[ ["backup"; "a.txt"] := File 100 "aaa" ]>
              (<[ ["backup"; ".duetbackup"] := File 1002 EmptyString ]>
              (<[ ["backup"] := Directory 1009 ]>
              {[ [] := Directory 1001 ]})))));
        steps := 16;
        requests := ["http://duet:80/rr_filelist?dir=0%3A%2Fsys";
                     "http://duet:80/rr_download?name=0%3A%2Fsys%2Fa.txt";
                     "http://duet:80/rr_filelist?dir=0%3A%2Fsys%2Fsub";
                     "http://duet:80/rr_download?name=0%3A%2Fsys%2Fsub%2Fb.txt"] |})
  /\ requests (syncFolder Demo.treeServer 3 Demo.address "0:/sys" Demo.backup
                 Excludes.empty true (Demo.start Demo.mirror)).2
     = ["http://duet:80/rr_filelist?dir=0%3A%2Fsys";
        "http://duet:80/rr_filelist?dir=0%3A%2Fsys%2Fsub"].
Proof. split; vm_compute; reflexivity. Qed.

End SyncFacts.

(** ** The claims on concrete runs *)

Module Runs.
Import Demo.

(** C2 fails on the code: [a.txt] is in the mirror and no longer in the
    remote listing; the reclaimer returns nil and the file is still there,
    since a regular file is never a managed directory. *)
Theorem removeDeletedFiles_keeps_stale_file :
  ~ In "a.txt" (map Name (Files sysFilesLater)) /\
  fs (start mirror) !! ["backup"; "a.txt"] = Some (File 100 "aaa") /\
  (removeDeletedFiles treeServerLater sysFilesLater backup (start mirror)).1 = Ok tt /\
  fs (removeDeletedFiles treeServerLater sysFilesLater backup (start mirror)).2
    !! ["backup"; "a.txt"] = Some (File 100 "aaa").
Proof.
  split; [intros [H | []]; discriminate H |].
  repeat split; vm_compute; reflexivity.
Qed.

(** The same in a whole run with [removeLocal] set. *)
Example sync_keeps_stale_file :
  let run := syncFolder treeServerLater 3 address "0:/sys" backup Excludes.empty
               true (start mirror) in
  run.1 = Ok tt /\ fs run.2 !! ["backup"; "a.txt"] = Some (File 100 "aaa").
Proof. split; vm_compute; reflexivity. Qed.


(** C7 as it is stated fails: the remote directory holds a file named like
    the marker and dated after the local clock.  The first update returns
    nil; the second one refreshes the marker, finds it older than the
    entry, and downloads the file again. *)
Lemma marker_twin_is_downloaded_again :
  let first := updateLocalFiles twinServer address twinFiles backup
                 Excludes.empty (start rootOnly) in
  let second := updateLocalFiles twinServer address twinFiles backup
                  Excludes.empty (start (fs first.2)) in
  first.1 = Ok tt /\ second.1 = Ok tt /\
  requests second.2 = ["http://duet:80/rr_download?name=0%3A%2Fsys%2F.duetbackup"].
Proof. repeat split; vm_compute; reflexivity. Qed.

(** C8 fails on the code: the system refuses [os.Chtimes] on [a.txt].  The
    update goes on to [config.g] and returns nil; [a.txt] is left with the
    time of its writing, not with the time of the listing. *)
Theorem updateLocalFiles_ignores_Chtimes_error :
  let run := updateLocalFiles anyServerNoChtimes address twoFiles backup
               Excludes.empty (start rootOnly) in
  fault anyServerNoChtimes SysChtimes (Join backup "a.txt") 6 = true /\
  run.1 = Ok tt /\
  requests run.2 = ["http://duet:80/rr_download?name=0%3A%2Fsys%2Fa.txt";
                    "http://duet:80/rr_download?name=0%3A%2Fsys%2Fconfig.g"] /\
  fs run.2 !! ["backup"; "a.txt"] = Some (File 1005 "data") /\
  Date aTxt = 100.
Proof. repeat split; vm_compute; reflexivity. Qed.

(** Why C3 and C7 speak of the times that [os.Chtimes] hands on as they
    are: a file dated in the year 2300 gets the wrapped time, in the year
    1715, and is downloaded again by the next run; a file without a date
    keeps the time of its creation, the server having sent no bytes to
    write, and is not. *)
Example far_date_is_downloaded_again :
  let first := updateLocalFiles twinServer address Cases.farFiles backup
                 Excludes.empty (start rootOnly) in
  first.1 = Ok tt /\
  fs first.2 !! ["backup"; "far.g"]
  = Some (File (-8032952073709551616) EmptyString) /\
  fs first.2 !! ["backup"; "undated.g"] = Some (File 1008 EmptyString) /\
  requests (updateLocalFiles twinServer address Cases.farFiles backup
              Excludes.empty (start (fs first.2))).2
  = ["http://duet:80/rr_download?name=0%3A%2Fsys%2Ffar.g"].
Proof. repeat split; vm_compute; reflexivity. Qed.

(** C6 does not hold of every response that is decoded: the type of an
    entry is any string, and with an entry that is neither a directory nor
    a file between them, two files stay as they came, the greater name
    first. *)
Theorem getFileList_third_type_is_not_sorted :
  getFileList Cases.mixedServer 1 address "0%3A%2Fsys" 0%N (start rootOnly)
  = (Ok {| Dir := "0:/sys";
           Files := [Cases.fileB; Cases.otherM; Cases.fileA];
           next := 0 |},
     requested "http://duet:80/rr_filelist?dir=0%3A%2Fsys" (start rootOnly)) /\
  Type_ Cases.fileB = typeFile /\ Type_ Cases.fileA = typeFile /\
  String.leb (Name Cases.fileB) (Name Cases.fileA) = false /\
  ~ (forall (i j : nat) (a b : file),
        (i < j)%nat ->
        [Cases.fileB; Cases.otherM; Cases.fileA] !! i = Some a ->
        [Cases.fileB; Cases.otherM; Cases.fileA] !! j = Some b ->
        (Type_ a = typeFile -> Type_ b <> typeDirectory) /\
        (Type_ a = Type_ b -> String.leb (Name a) (Name b) = true)).
Proof.
  split; [vm_compute; reflexivity |]. repeat split.
  intros H.
  destruct (H 0%nat 2%nat Cases.fileB Cases.fileA ltac:(lia) eq_refl eq_refl)
    as [_ Hle].
  specialize (Hle eq_refl). discriminate Hle.
Qed.

End Runs.

(** ** The directory and its marker *)

Module ManagedFacts.
Import FSFacts RunFacts.

(** C9: when no regular file stands where the directory or one of its
    parent segments should be, the marker entry is not a directory and the
    system refuses nothing, [ensureOutDirExists] returns nil, whether the
    directory was there or not; then every segment of the path is a
    directory and the marker is an empty file written by this call.  And
    whenever [updateLocalFiles] has returned nil the directory is there and
    holds its marker. *)
Theorem ensureOutDirExists_creates_and_marks :
  (forall (E : env) (outDir : path) (w : world),
      (forall q t b, q `prefix_of` outDir -> fs w !! q <> Some (File t b)) ->
      (forall t, fs w !! Join outDir dirMarker <> Some (Directory t)) ->
      (forall c p n, fault E c p n = false) ->
      exists w',
        ensureOutDirExists E outDir w = (Ok tt, w') /\
        (forall q, q `prefix_of` outDir ->
                   exists t, fs w' !! q = Some (Directory t)) /\
        exists n, fs w' !! Join outDir dirMarker
                  = Some (File (wall E n) EmptyString)) /\
  (forall (E : env) (baseURL : string) (fl : filelist) (outDir : path)
          (excls : Excludes.excludes) (w w' : world),
      updateLocalFiles E baseURL fl outDir excls w = (Ok tt, w') ->
      (forall q, q `prefix_of` outDir ->
                 exists t, fs w' !! q = Some (Directory t)) /\
      hasMarker (fs w') outDir).
Proof.
  split.
  - intros E outDir w Hfiles Hmarker Hfault.
    destruct (EnsureFacts.ensureOutDirExists_succeeds E outDir w Hfiles Hmarker Hfault)
      as [w' Hrun].
    exists w'. split; [exact Hrun |].
    apply EnsureFacts.ensureOutDirExists_effect in Hrun as (_ & _ & _ & Hok).
    destruct (Hok eq_refl) as [Hdir Hm]. split; [| exact Hm].
    now apply isDirAt_iff.
  - intros E baseURL fl outDir excls w w' Hrun.
    apply UpdateFacts.updateLocalFiles_managed in Hrun as [Hdir Hm].
    split; [now apply isDirAt_iff | exact Hm].
Qed.

End ManagedFacts.

(** ** The theorems at concrete inputs *)

Module Witnesses.
Import Demo.

Lemma backup_prefixes (q : path) :
  q `prefix_of` backup -> q = [] \/ q = backup.
Proof.
  intros [k Hk]. destruct q as [|s [|s' q]]; [now left | | discriminate Hk].
  right. injection Hk as <- _. reflexivity.
Defined.

Lemma getFileList_sorted_witness :
  getFileList treeServer 1 address "0%3A%2Fsys" 0%N (start rootOnly)
    = (Ok sysFiles, requested "http://duet:80/rr_filelist?dir=0%3A%2Fsys"
                      (start rootOnly)) /\
  Forall knownType (Files sysFiles) /\
  ((forall fuel',
       getFileList treeServer (S fuel') address "0%3A%2Fsys" 0%N (start rootOnly)
       = (Ok sysFiles, requested "http://duet:80/rr_filelist?dir=0%3A%2Fsys"
                         (start rootOnly))) /\
   (forall (i j : nat) (a b : file),
       (i < j)%nat -> Files sysFiles !! i = Some a -> Files sysFiles !! j = Some b ->
       (Type_ a = typeFile -> Type_ b <> typeDirectory) /\
       (Type_ a = Type_ b -> String.leb (Name a) (Name b) = true)) /\
   exists body page,
     http_get treeServer (listingURL address "0%3A%2Fsys") = Some body /\
     json_decode treeServer body = Some page /\
     Permutation (Files sysFiles) (rr_files page) /\
     forall t n : string,
       List.filter (hasKey t n) (Files sysFiles) =
       List.filter (hasKey t n) (rr_files page)).
Proof.
  assert (Hrun : getFileList treeServer 1 address "0%3A%2Fsys" 0%N (start rootOnly)
                 = (Ok sysFiles,
                    requested "http://duet:80/rr_filelist?dir=0%3A%2Fsys"
                      (start rootOnly))) by (vm_compute; reflexivity).
  assert (Hknown : Forall knownType (Files sysFiles)).
  { constructor; [left; reflexivity |].
    constructor; [right; reflexivity | constructor]. }
  split; [exact Hrun |]. split; [exact Hknown |].
  exact (FetchFacts.getFileList_sorted treeServer 1 address "0%3A%2Fsys" 0%N
           _ _ sysFiles Hrun Hknown).
Defined.


Lemma second_update_downloads_nothing_witness :
  let first := updateLocalFiles treeServer address sysFiles backup Excludes.empty
                 (start rootOnly) in
  first = (Ok tt, first.2) /\
  (forall p n, fault treeServer SysChtimes p n = false) /\
  (forall n, zeroTime <= wall treeServer n) /\
  (forall f, In f (Files sysFiles) -> mirrored Excludes.empty sysFiles f ->
             simpleName (Name f) = true /\ Date f <= maxNano) /\
  (forall f n, In f (Files sysFiles) -> mirrored Excludes.empty sysFiles f ->
               Name f = dirMarker -> Date f <= wall treeServer n) /\
  fs (start (fs first.2)) = fs first.2 /\
  requests (updateLocalFiles treeServer address sysFiles backup Excludes.empty
              (start (fs first.2))).2
  = requests (start (fs first.2)).
Proof.
  cbv zeta.
  assert (Hrun : updateLocalFiles treeServer address sysFiles backup
                   Excludes.empty (start rootOnly)
                 = (Ok tt, (updateLocalFiles treeServer address sysFiles backup
                              Excludes.empty (start rootOnly)).2)).
  { vm_compute. reflexivity. }
  assert (Hch : forall p n, fault treeServer SysChtimes p n = false)
    by (intros p n; reflexivity).
  assert (Hmk : forall f n, In f (Files sysFiles) ->
                  mirrored Excludes.empty sysFiles f ->
                  Name f = dirMarker -> Date f <= wall treeServer n).
  { intros f n [<- | [<- | []]] _ Hn; discriminate Hn. }
  assert (Hwall : forall n, zeroTime <= wall treeServer n).
  { intros n. cbn. unfold clock, zeroTime. lia. }
  assert (Hent : forall f, In f (Files sysFiles) ->
                   mirrored Excludes.empty sysFiles f ->
                   simpleName (Name f) = true /\ Date f <= maxNano).
  { intros f [<- | [<- | []]] _; split; (reflexivity || discriminate). }
  split; [exact Hrun |]. split; [exact Hch |]. split; [exact Hwall |].
  split; [exact Hent |]. split; [exact Hmk |].
  split; [reflexivity |].
  exact (UpdateFacts.second_update_downloads_nothing treeServer treeServer
           address sysFiles backup Excludes.empty (start rootOnly) _
           (start (fs (updateLocalFiles treeServer address sysFiles backup
                         Excludes.empty (start rootOnly)).2))
           Hrun Hch Hwall Hent Hmk eq_refl).
Defined.

Lemma ensureOutDirExists_creates_and_marks_witness :
  (forall q t b, q `prefix_of` backup ->
                 fs (start rootOnly) !! q <> Some (File t b)) /\
  (forall t, fs (start rootOnly) !! Join backup dirMarker <> Some (Directory t)) /\
  (forall c p n, fault treeServer c p n = false) /\
  (exists w',
      ensureOutDirExists treeServer backup (start rootOnly) = (Ok tt, w') /\
      (forall q, q `prefix_of` backup ->
                 exists t, fs w' !! q = Some (Directory t)) /\
      exists n, fs w' !! Join backup dirMarker
                = Some (File (wall treeServer n) EmptyString)) /\
  (updateLocalFiles treeServer address sysFiles backup Excludes.empty
     (start rootOnly)
   = (Ok tt, (updateLocalFiles treeServer address sysFiles backup Excludes.empty
                (start rootOnly)).2) /\
   (forall q, q `prefix_of` backup ->
      exists t, fs (updateLocalFiles treeServer address sysFiles backup
                      Excludes.empty (start rootOnly)).2 !! q
                = Some (Directory t)) /\
   hasMarker (fs (updateLocalFiles treeServer address sysFiles backup
                    Excludes.empty (start rootOnly)).2) backup).
Proof.
  assert (H1 : forall q t b, q `prefix_of` backup ->
                 fs (start rootOnly) !! q <> Some (File t b)).
  { intros q t b Hq. destruct (backup_prefixes q Hq) as [-> | ->];
      vm_compute; discriminate. }
  assert (H2 : forall t, fs (start rootOnly) !! Join backup dirMarker
                         <> Some (Directory t)).
  { intros t. vm_compute. discriminate. }
  assert (H3 : forall c p n, fault treeServer c p n = false)
    by (intros c p n; reflexivity).
  assert (Hrun : updateLocalFiles treeServer address sysFiles backup
                   Excludes.empty (start rootOnly)
                 = (Ok tt, (updateLocalFiles treeServer address sysFiles backup
                              Excludes.empty (start rootOnly)).2)).
  { vm_compute. reflexivity. }
  split; [exact H1 |]. split; [exact H2 |]. split; [exact H3 |]. split.
  - exact (proj1 ManagedFacts.ensureOutDirExists_creates_and_marks
             treeServer backup (start rootOnly) H1 H2 H3).
  - split; [exact Hrun |].
    exact (proj2 ManagedFacts.ensureOutDirExists_creates_and_marks
             treeServer address sysFiles backup Excludes.empty _ _ Hrun).
Defined.

Lemma removeDeletedFiles_spares_marker_and_unmanaged_witness :
  fs (start foreign) !! Join backup "notes" = Some (Directory 6) /\
  ("notes" = dirMarker \/
   (IsDir (Directory 6) = true /\ ~ hasMarker (fs (start foreign)) (Join backup "notes"))) /\
  forall q, Join backup "notes" `prefix_of` q ->
    fs (removeDeletedFiles treeServerLater sysFilesLater backup (start foreign)).2 !! q
    = fs (start foreign) !! q.
Proof.
  assert (H1 : fs (start foreign) !! Join backup "notes" = Some (Directory 6))
    by (vm_compute; reflexivity).
  assert (H2 : "notes" = dirMarker \/
               (IsDir (Directory 6) = true /\
                ~ hasMarker (fs (start foreign)) (Join backup "notes"))).
  { right. split; [reflexivity |]. intros [x Hx]. vm_compute in Hx. discriminate Hx. }
  split; [exact H1 |]. split; [exact H2 |].
  exact (ReclaimFacts.removeDeletedFiles_spares_marker_and_unmanaged
           treeServerLater sysFilesLater backup (start foreign) "notes" _ H1 H2).
Defined.

Lemma removeDeletedFiles_removes_only_managed_directories_witness :
  fs (start foreign) !! Join backup "old.g" = Some (File 5 "y") /\
  ~ (IsDir (File 5 "y") = true /\ hasMarker (fs (start foreign)) (Join backup "old.g")) /\
  forall q, Join backup "old.g" `prefix_of` q ->
    fs (removeDeletedFiles treeServerLater sysFilesLater backup (start foreign)).2 !! q
    = fs (start foreign) !! q.
Proof.
  assert (H1 : fs (start foreign) !! Join backup "old.g" = Some (File 5 "y"))
    by (vm_compute; reflexivity).
  assert (H2 : ~ (IsDir (File 5 "y") = true /\
                  hasMarker (fs (start foreign)) (Join backup "old.g"))).
  { intros [H _]. discriminate H. }
  split; [exact H1 |]. split; [exact H2 |].
  exact (ReclaimFacts.removeDeletedFiles_removes_only_managed_directories
           treeServerLater sysFilesLater backup (start foreign) "old.g" _ H1 H2).
Defined.

End Witnesses.

(** * Further properties *)

(** ** More on the exclude matcher *)

Module ExcludesMore.
Import Excludes ExcludesFacts.

(** X1: whatever the argument, [cleanPath] returns a path without two
    slashes in a row and without a slash at its end. *)
Theorem cleanPath_result_is_clean (s : string) :
  hasDoubleSlash (cleanPath s) = false /\ endsWithSlash (cleanPath s) = false.
Proof. apply cleanPath_clean. Qed.

Lemma dropSlashes_collapseSlashes (s : string) :
  dropSlashes (collapseSlashes s) = dropSlashes s.
Proof.
  induction s as [|c s IH]; [reflexivity |].
  destruct s as [|c' s]; [reflexivity |].
  change (collapseSlashes (String c (String c' s)))
    with (if (Ascii.eqb c "/" && Ascii.eqb c' "/")%bool
          then collapseSlashes (String c' s)
          else String c (collapseSlashes (String c' s))).
  destruct (Ascii.eqb c "/") eqn:Hc; cbn [andb].
  - destruct (Ascii.eqb c' "/") eqn:Hc'.
    + rewrite IH. cbn [dropSlashes]. now rewrite Hc, Hc'.
    + change (dropSlashes (String c ?t)) with
        (if Ascii.eqb c "/" then dropSlashes t else String c (dropSlashes t)).
      rewrite Hc. exact IH.
  - change (dropSlashes (String c ?t)) with
      (if Ascii.eqb c "/" then dropSlashes t else String c (dropSlashes t)).
    rewrite Hc. now rewrite IH.
Qed.

Lemma dropSlashes_trimSlashSuffix (s : string) :
  dropSlashes (trimSlashSuffix s) = dropSlashes s.
Proof.
  induction s as [|c s IH]; [reflexivity |].
  destruct s as [|c' s].
  - cbn. destruct (Ascii.eqb c "/") eqn:Hc; [reflexivity |]. cbn. now rewrite Hc.
  - change (trimSlashSuffix (String c (String c' s)))
      with (String c (trimSlashSuffix (String c' s))).
    change (dropSlashes (String c ?t)) with
      (if Ascii.eqb c "/" then dropSlashes t else String c (dropSlashes t)).
    now rewrite IH.
Qed.

Lemma length_collapseSlashes (s : string) :
  (String.length (collapseSlashes s) <= String.length s)%nat.
Proof.
  induction s as [|c s IH]; [reflexivity |].
  destruct s as [|c' s]; [reflexivity |].
  change (collapseSlashes (String c (String c' s)))
    with (if (Ascii.eqb c "/" && Ascii.eqb c' "/")%bool
          then collapseSlashes (String c' s)
          else String c (collapseSlashes (String c' s))).
  destruct (Ascii.eqb c "/" && Ascii.eqb c' "/")%bool.
  - change (String.length (String c (String c' s)))
      with (S (String.length (String c' s))). lia.
  - change (String.length (String c ?t)) with (S (String.length t)). lia.
Qed.

Lemma length_trimSlashSuffix (s : string) :
  (String.length (trimSlashSuffix s) <= String.length s)%nat.
Proof.
  induction s as [|c s IH]; [reflexivity |].
  destruct s as [|c' s].
  - cbn. destruct (Ascii.eqb c "/"); cbn; lia.
  - change (trimSlashSuffix (String c (String c' s)))
      with (String c (trimSlashSuffix (String c' s))).
    change (String.length (String c ?t)) with (S (String.length t)). lia.
Qed.

(** X2: [cleanPath] takes nothing but slashes away: without their slashes
    the path and the cleaned path are the same string, and the cleaned path
    is not longer. *)
Theorem cleanPath_drops_only_slashes (s : string) :
  dropSlashes (cleanPath s) = dropSlashes s /\
  (String.length (cleanPath s) <= String.length s)%nat.
Proof.
  unfold cleanPath. split.
  - now rewrite dropSlashes_trimSlashSuffix, dropSlashes_collapseSlashes.
  - etransitivity; [apply length_trimSlashSuffix | apply length_collapseSlashes].
Qed.

(** X3: the paths that [cleanPath] leaves as they are, are the clean ones,
    and cleaning twice is cleaning once. *)
Theorem cleanPath_fixed_points :
  (forall s, cleanPath s = s <->
             hasDoubleSlash s = false /\ endsWithSlash s = false) /\
  (forall s, cleanPath (cleanPath s) = cleanPath s).
Proof.
  split.
  - intros s. split.
    + intros H. rewrite <- H. apply cleanPath_clean.
    + intros [H1 H2]. now apply cleanPath_fixes_clean.
  - apply cleanPath_idempotent.
Qed.

(** X4: what [Contains] answers depends on the set of values that were
    given to [Set], not on their order or number, and an exclude is never
    lost: with more values, what was excluded stays excluded. *)
Theorem Contains_grows_with_values (values values' : list string) (p : string) :
  (forall v, In v values -> In v values') ->
  Contains (configured values) p = true ->
  Contains (configured values') p = true.
Proof.
  unfold Contains. rewrite !excls_configured, !ContainsLoop_iff.
  intros Hsub (x & Hx & Hp). exists x. split; [| exact Hp].
  apply in_map_iff in Hx as (v & <- & Hv). apply in_map. now apply Hsub.
Qed.

Lemma prefix_app_r_string (x p s : string) :
  String.prefix x p = true -> String.prefix x (p ++ s)%string = true.
Proof.
  revert p. induction x as [|a x IH]; intros p; [now destruct p, s |].
  destruct p as [|b p]; [discriminate |]. intros H.
  change (String b p ++ s)%string with (String b (p ++ s)%string).
  simpl in H |- *. destruct (ascii_dec a b); [now apply IH | discriminate].
Qed.

(** X5: an exclude covers all that is below: a path that [Contains] accepts
    is still accepted with anything appended to it, so the remote names
    that are built from an excluded folder are excluded. *)
Theorem Contains_covers_longer_paths (e : excludes) (p s : string) :
  Contains e p = true -> Contains e (p ++ s)%string = true.
Proof.
  unfold Contains. rewrite !ContainsLoop_iff.
  intros (x & Hx & Hp). exists x. split; [exact Hx |].
  now apply prefix_app_r_string.
Qed.

Lemma prefix_empty (p : string) : String.prefix EmptyString p = true.
Proof. now destruct p. Qed.

(** X6: the exclude [/] is cleaned to the empty string, which every path
    starts with: once it is given, with whatever other excludes,
    [syncFolder] returns at once, for every folder, without a request and
    without a change. *)
Theorem exclude_slash_excludes_all (E : env) (fuel : nat)
  (address folder : string) (outDir : path) (values : list string)
  (removeLocal : bool) (w : world) :
  In "/" values ->
  (forall p, Contains (configured values) p = true) /\
  syncFolder E (S fuel) address folder outDir (configured values) removeLocal w
  = (Ok tt, w).
Proof.
  intros Hin.
  assert (Hall : forall p, Contains (configured values) p = true).
  { intros p. unfold Contains. rewrite excls_configured, ContainsLoop_iff.
    exists (cleanPath "/"). split; [now apply in_map | apply prefix_empty]. }
  split; [exact Hall |]. cbn [syncFolder]. now rewrite Hall.
Qed.

Lemma string_app_assoc (a b c : string) :
  ((a ++ b) ++ c = a ++ (b ++ c))%string.
Proof.
  induction a as [|x a IH]; [reflexivity |].
  change (String x ((a ++ b) ++ c) = String x (a ++ (b ++ c)))%string.
  now rewrite IH.
Qed.

Lemma concat_snoc (sep : string) (l : list string) (x : string) :
  l <> [] ->
  String.concat sep (l ++ [x]) = (String.concat sep l ++ sep ++ x)%string.
Proof.
  induction l as [|y l IH]; [congruence |]. intros _.
  destruct l as [|z l]; [reflexivity |].
  change (String.concat sep ((y :: z :: l) ++ [x]))
    with (y ++ sep ++ String.concat sep ((z :: l) ++ [x]))%string.
  rewrite IH by discriminate.
  change (String.concat sep (y :: z :: l))
    with (y ++ sep ++ String.concat sep (z :: l))%string.
  now rewrite !string_app_assoc.
Qed.

(** X7: [String] shows the excludes as [Set] stored them, cleaned and in
    the order given, with commas between: each [Set] appends the cleaned
    value, after a comma when it is not the first. *)
Theorem excludes_String_Set (e : excludes) (v : string) :
  excludes_String (Set_ e v) =
  match excls e with
  | [] => cleanPath v
  | _ => (excludes_String e ++ "," ++ cleanPath v)%string
  end.
Proof.
  unfold excludes_String, Set_. cbn [excls].
  destruct (excls e) as [|x l] eqn:He; [reflexivity |].
  now apply concat_snoc.
Qed.

End ExcludesMore.

(** ** More on the listing fetcher *)

Module FetchMore.
Import Sort SortFacts FetchFacts.

(** X8: with fuel to start on, [getFileList] makes one request, for
    [baseURL/rr_filelist?dir=dir], and does not touch the disk; it returns
    the transport error when the request fails, the decoding error when the
    body is malformed, and a listing otherwise: there is no second try. *)
Theorem getFileList_one_request (E : env) (fuel : nat) (baseURL dir : string)
  (first : N) (w : world) :
  let url := listingURL baseURL dir in
  let run := getFileList E (S fuel) baseURL dir first w in
  run.2 = requested url w /\
  (http_get E url = None <-> run.1 = Err (TransportError url)) /\
  (forall body, http_get E url = Some body ->
     (json_decode E body = None <-> run.1 = Err (SyntaxError body)) /\
     (forall page, json_decode E body = Some page ->
        exists fl, run.1 = Ok fl /\ Dir fl = rr_dir page /\
                   Permutation (Files fl) (rr_files page))).
Proof.
  cbv zeta. rewrite getFileList_run.
  destruct (http_get E (listingURL baseURL dir)) as [body|] eqn:Hget.
  - destruct (json_decode E body) as [page|] eqn:Hdec; cbn [fst snd].
    + split; [reflexivity |]. split; [split; discriminate |].
      intros body' [= <-]. rewrite Hdec. split; [split; discriminate |].
      intros page' [= <-]. eexists. split; [reflexivity |]. split; [reflexivity |].
      apply SliceStable_perm.
    + split; [reflexivity |]. split; [split; discriminate |].
      intros body' [= <-]. rewrite Hdec. split; [split; reflexivity |].
      intros page' Hp. discriminate Hp.
  - cbn [fst snd]. split; [reflexivity |]. split; [split; reflexivity |].
    intros body' Hb. discriminate Hb.
Qed.

Lemma lessFile_dir_left (x y : file) :
  isDirectory x = true -> lessFile x y = false ->
  isDirectory y = true /\ String.ltb (Name x) (Name y) = false.
Proof.
  unfold lessFile, isDirectory. intros Hx Hless.
  apply String.eqb_eq in Hx. rewrite Hx in Hless. revert Hless.
  rewrite (String.eqb_sym typeDirectory (Type_ y)), String.eqb_refl.
  destruct (String.eqb (Type_ y) typeDirectory); [auto | discriminate].
Qed.

Lemma lessFile_dir_right (x y : file) :
  isDirectory y = true -> lessFile x y = true ->
  isDirectory x = true /\ String.ltb (Name x) (Name y) = true.
Proof.
  unfold lessFile, isDirectory. intros Hy Hless.
  apply String.eqb_eq in Hy. rewrite Hy in Hless. revert Hless.
  destruct (String.eqb (Type_ x) typeDirectory); [auto | discriminate].
Qed.

Lemma insertLeft_dirs_first (x : file) (before : list file) :
  StronglySorted laterThan before ->
  StronglySorted laterThan (insertLeft lessFile x before).
Proof.
  induction before as [|y rest IH]; intros Hs; cbn [insertLeft].
  - repeat constructor.
  - apply StronglySorted_inv in Hs as [Hrest Hy].
    destruct (lessFile x y) eqn:Hxy.
    + constructor; [now apply IH |].
      rewrite (insertLeft_perm lessFile x rest). constructor; [| exact Hy].
      intros Hdy. destruct (lessFile_dir_right x y Hdy Hxy) as [Hdx Hlt].
      split; [exact Hdx | now apply ltb_asym].
    + constructor; [now constructor |].
      assert (Hxy' : laterThan x y) by (intros Hdx; now apply lessFile_dir_left).
      constructor; [exact Hxy' |].
      rewrite Forall_forall in Hy |- *. intros z Hz Hdx.
      destruct (Hxy' Hdx) as [Hdy Hn]. destruct (Hy z Hz Hdy) as [Hdz Hn'].
      split; [exact Hdz | now apply (ltb_negtrans _ (Name y))].
Qed.

Lemma fold_insertLeft_dirs_first (l before : list file) :
  StronglySorted laterThan before ->
  StronglySorted laterThan
    (fold_left (fun b x => insertLeft lessFile x b) l before).
Proof.
  revert before. induction l as [|x l IH]; intros before Hs; [exact Hs |].
  cbn [fold_left]. now apply IH, insertLeft_dirs_first.
Qed.

Lemma insertLeft_keeps_keys (t n : string) (x : file) (before : list file) :
  List.filter (hasKey t n) (insertLeft lessFile x before) =
  List.filter (hasKey t n) (x :: before).
Proof.
  induction before as [|y rest IH]; [reflexivity |].
  cbn [insertLeft]. destruct (lessFile x y) eqn:Hxy; [| reflexivity].
  cbn [List.filter] in IH |- *. rewrite IH.
  destruct (hasKey t n x) eqn:Hx, (hasKey t n y) eqn:Hy; try reflexivity.
  exfalso. unfold hasKey in Hx, Hy.
  apply andb_prop in Hx as [Hx1 Hx2], Hy as [Hy1 Hy2].
  apply String.eqb_eq in Hx1, Hx2, Hy1, Hy2.
  unfold lessFile in Hxy. rewrite Hx1, Hy1, String.eqb_refl, Hx2, Hy2 in Hxy.
  now rewrite ltb_irrefl in Hxy.
Qed.

Lemma fold_insertLeft_keeps_keys (t n : string) (l before : list file) :
  List.filter (hasKey t n) (fold_left (fun b x => insertLeft lessFile x b) l before) =
  rev (List.filter (hasKey t n) l) ++ List.filter (hasKey t n) before.
Proof.
  revert before. induction l as [|x l IH]; intros before; [reflexivity |].
  cbn [fold_left]. rewrite IH, insertLeft_keeps_keys. cbn [List.filter].
  destruct (hasKey t n x); [| reflexivity].
  cbn [rev]. now rewrite <- app_assoc.
Qed.

(** X9: for a response of at most 20 entries, which [sort.SliceStable]
    sorts by one insertion sort, and whatever type strings it holds, the
    listing that [getFileList] returns has the entries of the response,
    each as often; every entry before a directory is a directory whose
    name is not the greater; and the entries of one type and name keep the
    order of the response. *)
Theorem getFileList_directories_first (E : env) (fuel : nat)
  (baseURL dir : string) (first : N) (w w' : world) (fl : filelist) :
  getFileList E fuel baseURL dir first w = (Ok fl, w') ->
  (length (Files fl) <= 20)%nat ->
  exists body page,
    http_get E (listingURL baseURL dir) = Some body /\
    json_decode E body = Some page /\
    Permutation (Files fl) (rr_files page) /\
    (forall (i j : nat) (a b : file),
        (i < j)%nat -> Files fl !! i = Some a -> Files fl !! j = Some b ->
        Type_ b = typeDirectory ->
        Type_ a = typeDirectory /\ String.leb (Name a) (Name b) = true) /\
    (forall t n : string,
        List.filter (hasKey t n) (Files fl) =
        List.filter (hasKey t n) (rr_files page)).
Proof.
  intros Hrun _.
  apply getFileList_returns in Hrun as (body & page & Hget & Hdec & -> & _).
  exists body, page. cbn [Files].
  split; [exact Hget |]. split; [exact Hdec |].
  split; [apply SliceStable_perm |]. split.
  - intros i j a b Hij Hi Hj Hb.
    assert (Hs : StronglySorted (flip laterThan) (SliceStable lessFile (rr_files page))).
    { unfold SliceStable, insertionSort.
      apply (StronglySorted_rev_flip (flip laterThan)).
      apply fold_insertLeft_dirs_first. constructor. }
    pose proof (StronglySorted_lookup _ _ Hs i j a b Hij Hi Hj) as Hab.
    unfold flip, laterThan, isDirectory in Hab.
    destruct Hab as [Ha Hn]; [now apply String.eqb_eq |].
    split; [now apply String.eqb_eq | now apply ltb_false_leb].
  - intros t n. unfold SliceStable, insertionSort.
    rewrite filter_rev', fold_insertLeft_keeps_keys, app_nil_r.
    apply rev_involutive.
Qed.

End FetchMore.

(** ** More on the mirror updater *)

Module UpdateMore.
Import FSFacts RunFacts EnsureFacts UpdateFacts.

Lemma keepsKinds_refl (d : disk) : keepsKinds d d.
Proof. intros q x H. eauto. Qed.

Lemma keepsKinds_trans (d1 d2 d3 : disk) :
  keepsKinds d1 d2 -> keepsKinds d2 d3 -> keepsKinds d1 d3.
Proof.
  intros H12 H23 q x Hq. destruct (H12 q x Hq) as (x2 & Hx2 & Hk2).
  destruct (H23 q x2 Hx2) as (x3 & Hx3 & Hk3). exists x3. split; congruence.
Qed.

Lemma keepsKinds_touch (d : disk) (k : path) (t : Z) :
  keepsKinds d (alter (setModTime t) k d).
Proof.
  intros q x Hq. destruct (decide (k = q)) as [-> | Hne].
  - rewrite lookup_alter_eq, Hq. cbn. eexists. split; [reflexivity |].
    now destruct x.
  - rewrite lookup_alter_ne by done. eauto.
Qed.

Lemma keepsKinds_insert_new (d : disk) (k : path) (y : node) :
  d !! k = None -> keepsKinds d (<[k := y]> d).
Proof.
  intros Hk q x Hq. rewrite lookup_insert_ne by congruence. eauto.
Qed.

Lemma keepsKinds_insert_same (d : disk) (k : path) (x y : node) :
  d !! k = Some x -> IsDir y = IsDir x -> keepsKinds d (<[k := y]> d).
Proof.
  intros Hk Hy q x' Hq. destruct (decide (k = q)) as [-> | Hne].
  - rewrite lookup_insert_eq. exists y. split; congruence.
  - rewrite lookup_insert_ne by done. eauto.
Qed.

Lemma mkdirAllFrom_keepsKinds (now : Z) (rest : list string) :
  forall (d : disk) (cur : path) (d' : disk),
    mkdirAllFrom now d cur rest = Some d' -> keepsKinds d d'.
Proof.
  induction rest as [|s rest IH]; intros d cur d' H; cbn [mkdirAllFrom] in H.
  - destruct (d !! cur) as [[|t0]|] eqn:Hcur; try discriminate; injection H as <-.
    + apply keepsKinds_refl.
    + apply keepsKinds_trans with (<[cur := Directory now]> d);
        [now apply keepsKinds_insert_new | apply keepsKinds_touch].
  - destruct (d !! cur) as [[|t0]|] eqn:Hcur; try discriminate.
    + now apply IH in H.
    + apply IH in H. eapply keepsKinds_trans; [| exact H].
      apply keepsKinds_trans with (<[cur := Directory now]> d);
        [now apply keepsKinds_insert_new | apply keepsKinds_touch].
Qed.

Section Ensure.
Variable E : env.

Lemma os_Create_keepsKinds (p : path) (w : world) :
  keepsKinds (fs w) (fs (os_Create E p w).2).
Proof.
  rewrite os_Create_run. destruct (fault E SysCreate p (steps w));
    [apply keepsKinds_refl |].
  cbv zeta. destruct (resolve (fs w) (parent p)) as [[]| |];
    try apply keepsKinds_refl.
  destruct (fs w !! p) as [[t b|t]|] eqn:Hp; cbn; try apply keepsKinds_refl.
  - now apply keepsKinds_insert_same with (File t b).
  - apply keepsKinds_trans with (<[p := File (wall E (steps w)) EmptyString]> (fs w));
      [now apply keepsKinds_insert_new | apply keepsKinds_touch].
Qed.

Lemma ensureOutDirExists_keepsKinds (outDir : path) (w : world) :
  keepsKinds (fs w) (fs (ensureOutDirExists E outDir w).2).
Proof.
  unfold ensureOutDirExists, bind. rewrite os_Stat_run.
  assert (Hafter : forall w1 : world,
            keepsKinds (fs w) (fs w1) ->
            keepsKinds (fs w)
              (fs (match os_Create E (Join outDir dirMarker) w1 with
                   | (Ok _, w2) => (Ok tt, w2)
                   | (Err e, w2) => (Err e, w2)
                   | (OutOfFuel, w2) => (OutOfFuel, w2)
                   end).2)).
  { intros w1 H1. pose proof (os_Create_keepsKinds (Join outDir dirMarker) w1) as Hc.
    destruct (os_Create E (Join outDir dirMarker) w1) as [[?|?|] w2]; cbn in *;
      now apply keepsKinds_trans with (fs w1). }
  destruct (fault E SysStat outDir (steps w)); [apply keepsKinds_refl |].
  destruct (resolve (fs w) outDir) as [n| |]; cbn.
  - apply Hafter, keepsKinds_refl.
  - rewrite os_MkdirAll_run. cbn [steps tick fs].
    destruct (fault E SysMkdirAll outDir (S (steps w))); [apply keepsKinds_refl |].
    destruct (mkdirAll _ (fs w) outDir) as [d'|] eqn:Hmk; [| apply keepsKinds_refl].
    apply Hafter. cbn. now apply mkdirAllFrom_keepsKinds in Hmk.
  - apply keepsKinds_refl.
Qed.

(** X10: whatever [ensureOutDirExists] returns, it makes no request, it
    leaves every path that is neither a segment of [outDir] nor the marker
    as it was, and nothing that was on the disk is gone or has changed its
    kind. *)
Theorem ensureOutDirExists_touches_only_its_path (outDir : path) (w : world) :
  let w' := (ensureOutDirExists E outDir w).2 in
  requests w' = requests w /\
  (forall q, ~ q `prefix_of` outDir -> q <> Join outDir dirMarker ->
             fs w' !! q = fs w !! q) /\
  keepsKinds (fs w) (fs w').
Proof.
  cbv zeta. split; [| split].
  - destruct (ensureOutDirExists E outDir w) as [r w'] eqn:He.
    now apply ensureOutDirExists_effect in He as (H & _).
  - destruct (ensureOutDirExists E outDir w) as [r w'] eqn:He.
    now apply ensureOutDirExists_effect in He as (_ & H & _).
  - apply ensureOutDirExists_keepsKinds.
Qed.

(** X11: what stands in the way makes [ensureOutDirExists] fail without a
    change: when [outDir] is a regular file, the directory is not created
    and the marker cannot be ([ENOTDIR]); when the marker entry is a
    directory, it cannot be truncated ([EISDIR]). *)
Theorem ensureOutDirExists_blocked (outDir : path) (w : world) :
  (forall c p n, fault E c p n = false) ->
  ((exists t b, resolve (fs w) outDir = Found (File t b)) ->
   ensureOutDirExists E outDir w =
   (Err (PathError SysCreate (Join outDir dirMarker) ENOTDIR), tick (tick w))) /\
  (isDirAt (fs w) outDir ->
   (exists t, fs w !! Join outDir dirMarker = Some (Directory t)) ->
   ensureOutDirExists E outDir w =
   (Err (PathError SysCreate (Join outDir dirMarker) EISDIR), tick (tick w))).
Proof.
  intros Hfault. unfold ensureOutDirExists, bind.
  rewrite os_Stat_run, Hfault. split.
  - intros (t & b & Hres). rewrite Hres. cbn.
    rewrite os_Create_run, Hfault. cbv zeta. rewrite parent_Join. cbn [fs tick].
    now rewrite Hres.
  - intros [t0 Hres] [t Hm]. rewrite Hres. cbn.
    rewrite os_Create_run, Hfault. cbv zeta. rewrite parent_Join. cbn [fs tick].
    now rewrite Hres, Hm.
Qed.

(** X12: the marker that [ensureOutDirExists] writes is the marker that
    [isManagedDirectory] looks for: after it has returned nil for the
    directory [n] in [base], [isManagedDirectory] says yes for that
    directory, unless its [os.Stat] is refused. *)
Theorem ensureOutDirExists_makes_managed (base : path) (n : string) (t : Z)
  (w w' : world) :
  ensureOutDirExists E (Join base n) w = (Ok tt, w') ->
  fault E SysStat (Join (Join base n) dirMarker) (steps w') = false ->
  isManagedDirectory E base (n, Directory t) w' = (Ok true, tick w').
Proof.
  intros Hrun Hfault.
  apply ensureOutDirExists_effect in Hrun as (_ & _ & _ & Hok).
  destruct (Hok eq_refl) as [Hdir [k Hm]].
  unfold isManagedDirectory, bind. cbn [IsDir negb fst snd].
  rewrite os_Stat_run, Hfault, (resolve_Join _ _ _ Hdir), Hm. reflexivity.
Qed.

End Ensure.

Section Update.
Variable E : env.
Variables (baseURL : string) (fl : filelist) (outDir : path).
Variable excls : Excludes.excludes.

Lemma fetchFile_directory_unchanged (f : file) (w : world) (t : Z) :
  fs w !! Join outDir (Name f) = Some (Directory t) ->
  fs (fetchFile E baseURL fl outDir f w).2 = fs w.
Proof.
  intros Hp. unfold fetchFile, bind. rewrite download_run.
  destruct (http_get E _); [| reflexivity].
  rewrite os_Create_run. cbn [steps requested fs].
  destruct (fault E SysCreate _ (steps w)); [reflexivity |].
  cbv zeta. destruct (resolve (fs w) _) as [[]| |]; try reflexivity.
  now rewrite Hp.
Qed.

Lemma updateLocalFile_keepsKinds (f : file) (w : world) :
  keepsKinds (fs w) (fs (updateLocalFile E baseURL fl outDir excls f w).2).
Proof.
  intros q x Hq.
  destruct (updateLocalFile_disk E baseURL fl outDir excls f w) as (H1 & H2 & H3).
  set (w' := (updateLocalFile E baseURL fl outDir excls f w).2) in *.
  destruct (decide (q = Join outDir (Name f))) as [-> | Hne].
  - destruct x as [t b | t].
    + destruct H3 as [H3 | (t' & b' & H3)]; rewrite H3; eauto.
    + exists (Directory t). split; [| reflexivity]. rewrite <- Hq.
      unfold w'. destruct (mirrored_dec fl excls f) as [Hm | Hm].
      2:{ now rewrite updateLocalFile_skips. }
      rewrite updateLocalFile_mirrored by done. cbv zeta.
      destruct (fault E SysStat _ (steps w)); [reflexivity |].
      destruct (resolve (fs w) _) as [nd| |]; try reflexivity.
      * destruct (ModTime nd <? Date f); [| reflexivity].
        now rewrite (fetchFile_directory_unchanged f (tick w) t).
      * now rewrite (fetchFile_directory_unchanged f (tick w) t).
  - destruct (decide (q = outDir)) as [-> | Hne'].
    + destruct H2 as [H2 | [t1 H2]]; rewrite H2, Hq; cbn; eauto.
      eexists. split; [reflexivity | now destruct x].
    + rewrite H1 by done. eauto.
Qed.

Lemma updateLocalFile_requests (f : file) (w : world) :
  let w' := (updateLocalFile E baseURL fl outDir excls f w).2 in
  requests w' = requests w \/
  (mirrored excls fl f /\
   requests w' = requests w ++ [downloadURL E baseURL fl f]).
Proof.
  cbv zeta. destruct (mirrored_dec fl excls f) as [Hm | Hm].
  2:{ rewrite updateLocalFile_skips by done. now left. }
  rewrite updateLocalFile_mirrored by done. cbv zeta.
  assert (Hfetch : requests (fetchFile E baseURL fl outDir f (tick w)).2
                   = requests w ++ [downloadURL E baseURL fl f]).
  { destruct (fetchFile E baseURL fl outDir f (tick w)) as [r w'] eqn:Hf.
    now apply fetchFile_outcome in Hf as (H & _). }
  destruct (fault E SysStat _ (steps w)); [now left |].
  destruct (resolve (fs w) _) as [nd| |]; [| now right | now left].
  destruct (ModTime nd <? Date f); [now right | now left].
Qed.

Lemma forEach_requests (l : list file) (w : world) :
  exists got,
    got `sublist_of` l /\ Forall (mirrored excls fl) got /\
    requests (forEach l (updateLocalFile E baseURL fl outDir excls) w).2
    = requests w ++ map (downloadURL E baseURL fl) got.
Proof.
  revert w. induction l as [|f l IH]; intros w.
  - exists []. cbn. now rewrite app_nil_r.
  - rewrite forEach_cons.
    pose proof (updateLocalFile_requests f w) as Hf. cbv zeta in Hf.
    destruct (updateLocalFile E baseURL fl outDir excls f w) as [[[]|e|] w1];
      cbn [snd] in *.
    + destruct (IH w1) as (got & Hsub & Hm & Hreq).
      destruct Hf as [Hf | [Hmf Hf]].
      * exists got. split; [now apply sublist_cons |]. split; [exact Hm |].
        now rewrite Hreq, Hf.
      * exists (f :: got). split; [now apply sublist_skip |].
        split; [now constructor |]. rewrite Hreq, Hf. cbn.
        now rewrite <- app_assoc.
    + destruct Hf as [Hf | [Hmf Hf]].
      * exists []. split; [apply sublist_nil_l |]. split; [constructor |].
        cbn. now rewrite app_nil_r.
      * exists [f]. split; [apply sublist_skip, sublist_nil_l |].
        split; [constructor; [exact Hmf | constructor] | exact Hf].
    + destruct Hf as [Hf | [Hmf Hf]].
      * exists []. split; [apply sublist_nil_l |]. split; [constructor |].
        cbn. now rewrite app_nil_r.
      * exists [f]. split; [apply sublist_skip, sublist_nil_l |].
        split; [constructor; [exact Hmf | constructor] | exact Hf].
Qed.

Lemma updateLocalFiles_keepsKinds (w : world) :
  keepsKinds (fs w) (fs (updateLocalFiles E baseURL fl outDir excls w).2).
Proof.
  unfold updateLocalFiles, bind.
  pose proof (ensureOutDirExists_keepsKinds E outDir w) as He.
  destruct (ensureOutDirExists E outDir w) as [[[]|e|] w1]; cbn [snd] in *;
    try exact He.
  apply (forEach_invariant (fun w0 => keepsKinds (fs w) (fs w0))); [| exact He].
  intros f w0 _ H0. eapply keepsKinds_trans; [exact H0 |].
  apply updateLocalFile_keepsKinds.
Qed.

(** X13: [updateLocalFiles] takes nothing from the disk: whatever it
    returns, every entry that was there is still there, a directory as a
    directory and a regular file as a regular file. *)
Theorem updateLocalFiles_removes_nothing (w : world) (q : path) (x : node) :
  fs w !! q = Some x ->
  exists x',
    fs (updateLocalFiles E baseURL fl outDir excls w).2 !! q = Some x' /\
    IsDir x' = IsDir x.
Proof. apply updateLocalFiles_keepsKinds. Qed.

(** X14: when the name of every entry that it mirrors is one path
    segment, [updateLocalFiles] writes to the segments of [outDir], to the
    marker and to the local paths of the entries it mirrors, and to nothing
    else: the local copy of an excluded file, what is inside the
    subdirectories, and what the listing does not name stay as they are. *)
Theorem updateLocalFiles_writes_only_mirrored (w : world) (q : path) :
  (forall f, In f (Files fl) -> mirrored excls fl f ->
             simpleName (Name f) = true) ->
  ~ q `prefix_of` outDir ->
  q <> Join outDir dirMarker ->
  (forall f, In f (Files fl) -> mirrored excls fl f -> q <> Join outDir (Name f)) ->
  fs (updateLocalFiles E baseURL fl outDir excls w).2 !! q = fs w !! q.
Proof.
  intros _ Hpre Hmk Hnames. unfold updateLocalFiles, bind.
  assert (He : fs (ensureOutDirExists E outDir w).2 !! q = fs w !! q).
  { destruct (ensureOutDirExists E outDir w) as [r0 w0] eqn:Hrun.
    apply ensureOutDirExists_effect in Hrun as (_ & H & _). now apply H. }
  destruct (ensureOutDirExists E outDir w) as [[[]|e|] w1]; cbn [snd] in *;
    try exact He.
  rewrite <- He.
  assert (Hloop : forall l w0,
            (forall f, In f l -> mirrored excls fl f -> q <> Join outDir (Name f)) ->
            fs (forEach l (updateLocalFile E baseURL fl outDir excls) w0).2 !! q
            = fs w0 !! q).
  { induction l as [|f l IH]; intros w0 Hl; [reflexivity |].
    rewrite forEach_cons.
    assert (Hf : fs (updateLocalFile E baseURL fl outDir excls f w0).2 !! q
                 = fs w0 !! q).
    { destruct (mirrored_dec fl excls f) as [Hm | Hm].
      - destruct (updateLocalFile_disk E baseURL fl outDir excls f w0) as (H1 & _).
        apply H1; [apply Hl; [now left | exact Hm] |].
        intros ->. now apply Hpre.
      - now rewrite updateLocalFile_skips. }
    destruct (updateLocalFile E baseURL fl outDir excls f w0) as [[[]|e|] w2];
      cbn [snd] in *; try exact Hf.
    rewrite <- Hf. apply IH. intros g Hg. apply Hl. now right. }
  now apply Hloop.
Qed.

(** X15: the requests of [updateLocalFiles] are downloads of mirrored
    entries, in the order of the listing, each entry at most once per place
    in the listing: it fetches no listing and nothing that is excluded. *)
Theorem updateLocalFiles_downloads_in_listing_order (w : world) :
  exists got,
    got `sublist_of` Files fl /\ Forall (mirrored excls fl) got /\
    requests (updateLocalFiles E baseURL fl outDir excls w).2
    = requests w ++ map (downloadURL E baseURL fl) got.
Proof.
  unfold updateLocalFiles, bind.
  assert (Hreq : requests (ensureOutDirExists E outDir w).2 = requests w).
  { destruct (ensureOutDirExists E outDir w) as [r0 w0] eqn:Hrun.
    now apply ensureOutDirExists_effect in Hrun as (H & _). }
  destruct (ensureOutDirExists E outDir w) as [[[]|e|] w1]; cbn [snd] in *.
  - destruct (forEach_requests (Files fl) w1) as (got & H1 & H2 & H3).
    exists got. rewrite H3, Hreq. auto.
  - exists []. split; [apply sublist_nil_l |]. split; [constructor |].
    cbn. now rewrite app_nil_r.
  - exists []. split; [apply sublist_nil_l |]. split; [constructor |].
    cbn. now rewrite app_nil_r.
Qed.

(** X16: after [updateLocalFiles] has returned nil, no [os.Chtimes] having
    been refused, every entry it mirrors is on the disk and is not older
    than the listing says, provided that the name of every mirrored entry
    is one path segment, that none is dated after the last time that
    [os.Chtimes] hands on as it is, and that the wall clock is not before
    the zero time. *)
Theorem updateLocalFiles_leaves_mirror_fresh (w w' : world) :
  (forall p n, fault E SysChtimes p n = false) ->
  (forall n, zeroTime <= wall E n) ->
  (forall f, In f (Files fl) -> mirrored excls fl f ->
             simpleName (Name f) = true /\ Date f <= maxNano) ->
  updateLocalFiles E baseURL fl outDir excls w = (Ok tt, w') ->
  forall f, In f (Files fl) -> mirrored excls fl f ->
    fresh (fs w') (Join outDir (Name f)) (Date f).
Proof.
  intros Hch Hwall Hentries Hrun. unfold updateLocalFiles, bind in Hrun.
  destruct (ensureOutDirExists E outDir w) as [[[]|e|] w0] eqn:He;
    try discriminate.
  apply ensureOutDirExists_effect in He as (_ & _ & _ & Hok).
  destruct (Hok eq_refl) as [Hdir _].
  apply (forEach_first_run E baseURL fl outDir excls (Files fl) Hch Hwall
           (fun f Hf Hm => proj2 (Hentries f Hf Hm)) w0 w' Hrun Hdir).
Qed.

End Update.
End UpdateMore.

(** ** More on the reclaimer *)

Module ReclaimMore.
Import FSFacts RunFacts ReclaimFacts.

(** X18: the reclaimer leaves what the listing names: a child of [outDir]
    whose name is the name of an entry of the listing, of whatever type,
    stays as it is with all that is below it. *)
Theorem removeDeletedFiles_keeps_listed (E : env) (fl : filelist)
  (outDir : path) (w : world) (f : file) (nd : node) :
  In f (Files fl) ->
  fs w !! Join outDir (Name f) = Some nd ->
  forall q, Join outDir (Name f) `prefix_of` q ->
    fs (removeDeletedFiles E fl outDir w).2 !! q = fs w !! q.
Proof.
  intros Hf Hnd. apply (removeDeletedFiles_keeps E fl outDir w (Name f) nd Hnd).
  left. now apply in_map.
Qed.

Lemma removeDeletedFile_requests (E : env) (existing : gset string)
  (outDir : path) (f : string * node) (w : world) :
  requests (removeDeletedFile E existing outDir f w).2 = requests w.
Proof.
  unfold removeDeletedFile. case_bool_decide; [reflexivity |].
  unfold bind, isManagedDirectory.
  destruct (IsDir f.2); cbn [negb]; [| reflexivity].
  unfold bind. rewrite os_Stat_run.
  destruct (fault E SysStat _ (steps w)); [reflexivity |].
  destruct (resolve (fs w) _); cbn; try reflexivity.
  destruct (String.eqb f.1 dirMarker); cbn; [reflexivity |].
  rewrite os_RemoveAll_run. cbn [steps tick fs].
  destruct (fault E SysRemoveAll _ _); [reflexivity |].
  destruct (fs w !! _); reflexivity.
Qed.

(** X20: the reclaimer works on the disk alone: it makes no request; and
    when [outDir] is not a directory that can be read, it returns the error
    of [ioutil.ReadDir] and changes nothing. *)
Theorem removeDeletedFiles_needs_the_directory (E : env) (fl : filelist)
  (outDir : path) (w : world) :
  requests (removeDeletedFiles E fl outDir w).2 = requests w /\
  (~ isDirAt (fs w) outDir ->
   (exists e, (removeDeletedFiles E fl outDir w).1 = Err e) /\
   fs (removeDeletedFiles E fl outDir w).2 = fs w).
Proof.
  unfold removeDeletedFiles, bind. rewrite ioutil_ReadDir_run.
  destruct (fault E SysReadDir outDir (steps w)); [cbn; eauto |].
  destruct (resolve (fs w) outDir) as [[t b|t]| |] eqn:Hres; cbn [fst snd];
    try (split; [reflexivity | eauto]).
  split.
  - apply (forEach_invariant (fun w0 => requests w0 = requests w)); [| reflexivity].
    intros f w0 _ H0. now rewrite removeDeletedFile_requests.
  - intros Hno. exfalso. apply Hno. exists t. exact Hres.
Qed.

(** X19: what the reclaimer leaves behind, when the system refuses nothing
    and [outDir] is a directory: it returns nil, [outDir] is still a
    directory, all that is at or below a managed directory of [outDir] that
    the listing does not name is gone, and every other path is as it was;
    so a regular file that is gone from the remote side stays. *)
Theorem removeDeletedFiles_outcome (E : env) (fl : filelist) (outDir : path)
  (w : world) :
  (forall c p k, fault E c p k = false) ->
  isDirAt (fs w) outDir ->
  let run := removeDeletedFiles E fl outDir w in
  run.1 = Ok tt /\
  isDirAt (fs run.2) outDir /\
  forall q, q <> outDir ->
    ((exists m, reclaimable fl (fs w) outDir m /\ Join outDir m `prefix_of` q) ->
     fs run.2 !! q = None) /\
    ((forall m, reclaimable fl (fs w) outDir m -> ~ Join outDir m `prefix_of` q) ->
     fs run.2 !! q = fs w !! q).
Proof.
  intros Hfault Hd. cbv zeta. split; [| split].
  - unfold removeDeletedFiles, bind. rewrite ioutil_ReadDir_run, Hfault.
    destruct Hd as [t Hres]. rewrite Hres.
    apply forEach_removeDeletedFile_returns. exact Hfault.
  - unfold removeDeletedFiles, bind. rewrite ioutil_ReadDir_run, Hfault.
    destruct Hd as [t Hres]. rewrite Hres.
    apply (forEach_invariant (fun w0 => isDirAt (fs w0) outDir)).
    + intros f w0 _ H0. now apply removeDeletedFile_keeps_dir.
    + exists t. exact Hres.
  - intros q Hq. split.
    + intros (m & Hm & Hpre).
      now apply (removeDeletedFiles_removes_managed E fl outDir w m Hfault Hd Hm).
    + intros Hno.
      destruct (removeDeletedFiles_removes_below_managed_only E fl outDir w q Hq)
        as [Heq | (_ & m & Hm & Hpre)]; [exact Heq |].
      exfalso. exact (Hno m Hm Hpre).
Qed.

End ReclaimMore.

(** ** More on whole runs *)

Module SyncMore.
Import FSFacts RunFacts FetchFacts UpdateMore.

(** X21: when the listing of a folder that is not excluded cannot be had,
    the request failing or its body being malformed, [syncFolder] returns
    that error after this one request, and the disk is as it was. *)
Theorem syncFolder_listing_error (E : env) (fuel : nat) (address folder : string)
  (outDir : path) (excls : Excludes.excludes) (removeLocal : bool) (w : world) :
  Excludes.Contains excls folder = false ->
  let url := listingURL address (QueryEscape E folder) in
  (http_get E url = None ->
   syncFolder E (S fuel) address folder outDir excls removeLocal w
   = (Err (TransportError url), requested url w)) /\
  (forall body, http_get E url = Some body -> json_decode E body = None ->
   syncFolder E (S fuel) address folder outDir excls removeLocal w
   = (Err (SyntaxError body), requested url w)).
Proof.
  intros Hc. cbv zeta. split.
  - intros Hget. cbn [syncFolder]. rewrite Hc. unfold bind at 1.
    now rewrite getFileList_run, Hget.
  - intros body Hget Hdec. cbn [syncFolder]. rewrite Hc. unfold bind at 1.
    now rewrite getFileList_run, Hget, Hdec.
Qed.

Lemma syncFolder_keepsKinds (E : env) (fuel : nat) :
  forall (address folder : string) (outDir : path) (excls : Excludes.excludes)
         (w : world),
    keepsKinds (fs w) (fs (syncFolder E fuel address folder outDir excls false w).2).
Proof.
  induction fuel as [|fuel IH]; intros address folder outDir excls w.
  - apply keepsKinds_refl.
  - cbn [syncFolder]. destruct (Excludes.Contains excls folder);
      [apply keepsKinds_refl |].
    unfold bind at 1. rewrite getFileList_run.
    destruct (http_get E _) as [body|]; [| apply keepsKinds_refl].
    destruct (json_decode E body) as [page|]; [| apply keepsKinds_refl].
    set (fl := {| Dir := rr_dir page;
                  Files := Sort.SliceStable lessFile (rr_files page);
                  next := 0%N |}).
    set (w0 := requested _ w). unfold bind at 1.
    pose proof (updateLocalFiles_keepsKinds E address fl outDir excls w0) as Hu.
    change (fs w0) with (fs w) in Hu.
    destruct (updateLocalFiles E address fl outDir excls w0) as [[[]|e|] w1];
      cbn [snd] in *; try exact Hu.
    unfold bind at 1. unfold ret at 1.
    apply (forEach_invariant (fun w2 => keepsKinds (fs w) (fs w2))); [| exact Hu].
    intros f w2 _ H2.
    destruct (negb (String.eqb (Type_ f) typeDirectory)); [exact H2 |].
    eapply keepsKinds_trans; [exact H2 | apply IH].
Qed.

(** X22: without [-removeLocal] a run takes nothing from the disk: whatever
    [syncFolder] returns and however deep it went, every entry that was
    there is still there, a directory as a directory and a regular file as
    a regular file. *)
Theorem syncFolder_without_removeLocal_removes_nothing (E : env) (fuel : nat)
  (address folder : string) (outDir : path) (excls : Excludes.excludes)
  (w : world) (q : path) (x : node) :
  fs w !! q = Some x ->
  exists x',
    fs (syncFolder E fuel address folder outDir excls false w).2 !! q = Some x' /\
    IsDir x' = IsDir x.
Proof. apply syncFolder_keepsKinds. Qed.

Lemma forEach_not_Ok {A} (body : A -> M unit) (l : list A) (x : A) :
  In x l -> (forall w, (body x w).1 <> Ok tt) ->
  forall w, (forEach l body w).1 <> Ok tt.
Proof.
  induction l as [|y l IH]; intros Hin Hx w; [destruct Hin |].
  rewrite forEach_cons. destruct Hin as [-> | Hin].
  - specialize (Hx w). destruct (body x w) as [[[]|e|] w']; cbn in *; congruence.
  - destruct (body y w) as [[[]|e|] w']; cbn; try discriminate. now apply IH.
Qed.

(** X23: there is no guard against a remote tree that does not end: when
    every listing that the server sends holds a directory entry and nothing
    is excluded, [syncFolder] never returns nil, whatever the fuel. *)
Theorem syncFolder_endless_tree (E : env) (excls : Excludes.excludes)
  (removeLocal : bool) :
  (forall p, Excludes.Contains excls p = false) ->
  (forall body page, json_decode E body = Some page ->
     exists f, In f (rr_files page) /\ Type_ f = typeDirectory) ->
  forall (fuel : nat) (address folder : string) (outDir : path) (w : world),
    (syncFolder E fuel address folder outDir excls removeLocal w).1 <> Ok tt.
Proof.
  intros Hex Hdir. induction fuel as [|fuel IH]; intros address folder outDir w.
  - discriminate.
  - cbn [syncFolder]. rewrite Hex. unfold bind at 1. rewrite getFileList_run.
    destruct (http_get E _) as [body|]; [| discriminate].
    destruct (json_decode E body) as [page|] eqn:Hpage; [| discriminate].
    destruct (Hdir body page Hpage) as (f & Hf & Ht).
    unfold bind at 1.
    destruct (updateLocalFiles E address _ outDir excls _) as [[[]|e|] w1];
      try discriminate.
    unfold bind at 1.
    destruct ((if removeLocal then removeDeletedFiles E _ outDir else ret tt) w1)
      as [[[]|e|] w2]; try discriminate.
    apply forEach_not_Ok with f.
    + cbn [Files]. eapply Permutation_in;
        [symmetry; apply SortFacts.SliceStable_perm | exact Hf].
    + intros w3. rewrite Ht. cbn. apply IH.
Qed.

End SyncMore.

(** ** The start of the program *)

Module StartFacts.

(** X24: [main] does not start to sync unless the parameters are sound and
    the device answers: without a domain or an output directory, and with
    a port above 65535, it is fatal before any request; when the connect
    request fails, the program ends as "not available" after this one
    request; in all three cases the disk is as it was. *)
Theorem main_refuses_without_change (E : env) (S0 : startup) (fuel : nat)
  (f : flags) (w : world) :
  let url := (getAddress (flag_domain f) (flag_port f)
              ++ "/rr_connect?password=" ++ QueryEscape E (flag_password f)
              ++ "&time=" ++ QueryEscape E (timeNow S0))%string in
  (flag_domain f = EmptyString \/ flag_outDir f = EmptyString ->
   main E S0 fuel f w = (FatalParameters, w)) /\
  (flag_domain f <> EmptyString -> flag_outDir f <> EmptyString ->
   ((65535 < flag_port f)%N -> main E S0 fuel f w = (FatalPort, w)) /\
   ((flag_port f <= 65535)%N -> getAnswers S0 url = false ->
    main E S0 fuel f w = (NotAvailable, requested url w))).
Proof.
  cbv zeta. unfold main. split.
  - intros [-> | ->]; cbn; [reflexivity |]. now rewrite orb_true_r.
  - intros Hd Ho. apply String.eqb_neq in Hd, Ho. rewrite Hd, Ho. cbn [orb].
    split.
    + intros Hp. apply N.ltb_lt in Hp. now rewrite Hp.
    + intros Hp Hget. apply N.ltb_ge in Hp. rewrite Hp. unfold connect.
      now rewrite Hget.
Qed.

(** X25: [main] cleans [-dirToBackup] before it starts: two runs that
    differ only in slashes doubled or hanging at the end of that flag are
    the same run. *)
Theorem main_cleans_dirToBackup (E : env) (S0 : startup) (fuel : nat)
  (f : flags) (w : world) :
  main E S0 fuel f w =
  main E S0 fuel
    {| flag_domain := flag_domain f; flag_port := flag_port f;
       flag_dirToBackup := Excludes.cleanPath (flag_dirToBackup f);
       flag_outDir := flag_outDir f; flag_password := flag_password f;
       flag_removeLocal := flag_removeLocal f;
       flag_exclude := flag_exclude f |} w.
Proof.
  unfold main. cbn [flag_domain flag_port flag_dirToBackup flag_outDir
                    flag_password flag_removeLocal flag_exclude].
  now rewrite ExcludesFacts.cleanPath_idempotent.
Qed.

End StartFacts.

(** ** The theorems above at concrete inputs *)

Module MoreWitnesses.
Import Demo Cases.

Lemma Contains_grows_with_values_witness :
  (forall v, In v ["/sys"] -> In v ["/www"; "/sys//"; "/sys"]) /\
  Excludes.Contains (Excludes.configured ["/sys"]) "/sys/config.g" = true /\
  Excludes.Contains (Excludes.configured ["/www"; "/sys//"; "/sys"]) "/sys/config.g"
  = true.
Proof.
  assert (H1 : forall v, In v ["/sys"] -> In v ["/www"; "/sys//"; "/sys"]).
  { intros v [<- | []]. right. right. now left. }
  assert (H2 : Excludes.Contains (Excludes.configured ["/sys"]) "/sys/config.g"
               = true) by reflexivity.
  split; [exact H1 |]. split; [exact H2 |].
  exact (ExcludesMore.Contains_grows_with_values _ _ _ H1 H2).
Defined.

Lemma Contains_covers_longer_paths_witness :
  Excludes.Contains (Excludes.configured ["0:/sys"]) "0:/sys" = true /\
  Excludes.Contains (Excludes.configured ["0:/sys"]) ("0:/sys" ++ "/config.g")%string
  = true.
Proof.
  split; [reflexivity |].
  exact (ExcludesMore.Contains_covers_longer_paths
           (Excludes.configured ["0:/sys"]) "0:/sys" "/config.g" eq_refl).
Defined.

Lemma exclude_slash_excludes_all_witness :
  In "/" ["0:/gcodes"; "/"] /\
  (forall p, Excludes.Contains (Excludes.configured ["0:/gcodes"; "/"]) p = true) /\
  syncFolder treeServer 3 address "0:/sys" backup
    (Excludes.configured ["0:/gcodes"; "/"]) true (start rootOnly)
  = (Ok tt, start rootOnly).
Proof.
  assert (H : In "/" ["0:/gcodes"; "/"]) by (right; now left).
  split; [exact H |].
  exact (ExcludesMore.exclude_slash_excludes_all treeServer 2 address "0:/sys"
           backup ["0:/gcodes"; "/"] true (start rootOnly) H).
Defined.

Lemma getFileList_directories_first_witness :
  getFileList treeServer 1 address "0%3A%2Fsys" 0%N (start rootOnly)
  = (Ok sysFiles, requested "http://duet:80/rr_filelist?dir=0%3A%2Fsys"
                    (start rootOnly)) /\
  (length (Files sysFiles) <= 20)%nat /\
  exists body page,
    http_get treeServer (listingURL address "0%3A%2Fsys") = Some body /\
    json_decode treeServer body = Some page /\
    Permutation (Files sysFiles) (rr_files page) /\
    (forall (i j : nat) (a b : file),
        (i < j)%nat -> Files sysFiles !! i = Some a -> Files sysFiles !! j = Some b ->
        Type_ b = typeDirectory ->
        Type_ a = typeDirectory /\ String.leb (Name a) (Name b) = true) /\
    (forall t n : string,
        List.filter (hasKey t n) (Files sysFiles) =
        List.filter (hasKey t n) (rr_files page)).
Proof.
  assert (Hrun : getFileList treeServer 1 address "0%3A%2Fsys" 0%N (start rootOnly)
                 = (Ok sysFiles,
                    requested "http://duet:80/rr_filelist?dir=0%3A%2Fsys"
                      (start rootOnly))) by (vm_compute; reflexivity).
  assert (Hlen : (length (Files sysFiles) <= 20)%nat) by (cbn; lia).
  split; [exact Hrun |]. split; [exact Hlen |].
  exact (FetchMore.getFileList_directories_first treeServer 1 address
           "0%3A%2Fsys" 0%N _ _ sysFiles Hrun Hlen).
Defined.

Lemma ensureOutDirExists_blocked_witness :
  (forall c p n, fault treeServer c p n = false) /\
  (exists t b, resolve (fs (start fileInTheWay)) backup = Found (File t b)) /\
  ensureOutDirExists treeServer backup (start fileInTheWay) =
  (Err (PathError SysCreate (Join backup dirMarker) ENOTDIR),
   tick (tick (start fileInTheWay))).
Proof.
  assert (Hf : forall c p n, fault treeServer c p n = false)
    by (intros c p n; reflexivity).
  assert (Hb : exists t b, resolve (fs (start fileInTheWay)) backup
                           = Found (File t b)).
  { exists 3, "z". vm_compute. reflexivity. }
  split; [exact Hf |]. split; [exact Hb |].
  exact (proj1 (UpdateMore.ensureOutDirExists_blocked treeServer backup
                  (start fileInTheWay) Hf) Hb).
Defined.

Lemma ensureOutDirExists_makes_managed_witness :
  let w' := (ensureOutDirExists treeServer (Join [] "backup") (start rootOnly)).2 in
  ensureOutDirExists treeServer (Join [] "backup") (start rootOnly) = (Ok tt, w') /\
  fault treeServer SysStat (Join (Join [] "backup") dirMarker) (steps w') = false /\
  isManagedDirectory treeServer [] ("backup", Directory 7) w' = (Ok true, tick w').
Proof.
  cbv zeta.
  assert (Hrun : ensureOutDirExists treeServer (Join [] "backup") (start rootOnly)
                 = (Ok tt, (ensureOutDirExists treeServer (Join [] "backup")
                              (start rootOnly)).2)) by (vm_compute; reflexivity).
  split; [exact Hrun |]. split; [reflexivity |].
  exact (UpdateMore.ensureOutDirExists_makes_managed treeServer [] "backup" 7
           (start rootOnly) _ Hrun eq_refl).
Defined.

Lemma updateLocalFiles_removes_nothing_witness :
  fs (start foreign) !! ["backup"; "old.g"] = Some (File 5 "y") /\
  exists x',
    fs (updateLocalFiles treeServer address sysFiles backup Excludes.empty
          (start foreign)).2 !! ["backup"; "old.g"] = Some x' /\
    IsDir x' = IsDir (File 5 "y").
Proof.
  assert (H : fs (start foreign) !! ["backup"; "old.g"] = Some (File 5 "y"))
    by (vm_compute; reflexivity).
  split; [exact H |].
  exact (UpdateMore.updateLocalFiles_removes_nothing treeServer address sysFiles
           backup Excludes.empty (start foreign) ["backup"; "old.g"] _ H).
Defined.

Lemma updateLocalFiles_writes_only_mirrored_witness :
  let q := ["backup"; "sub"; "b.txt"] in
  (forall f, In f (Files sysFiles) -> mirrored Excludes.empty sysFiles f ->
             simpleName (Name f) = true) /\
  ~ q `prefix_of` backup /\
  q <> Join backup dirMarker /\
  (forall f, In f (Files sysFiles) -> mirrored Excludes.empty sysFiles f ->
             q <> Join backup (Name f)) /\
  fs (updateLocalFiles treeServer address sysFiles backup Excludes.empty
        (start mirror)).2 !! q
  = fs (start mirror) !! q.
Proof.
  cbv zeta.
  assert (H1 : ~ ["backup"; "sub"; "b.txt"] `prefix_of` backup).
  { intros [k Hk]. discriminate Hk. }
  assert (H2 : ["backup"; "sub"; "b.txt"] <> Join backup dirMarker)
    by discriminate.
  assert (H3 : forall f, In f (Files sysFiles) ->
                 mirrored Excludes.empty sysFiles f ->
                 ["backup"; "sub"; "b.txt"] <> Join backup (Name f)).
  { intros f [<- | [<- | []]] _; discriminate. }
  assert (H0 : forall f, In f (Files sysFiles) ->
                 mirrored Excludes.empty sysFiles f ->
                 simpleName (Name f) = true).
  { intros f [<- | [<- | []]] _; reflexivity. }
  split; [exact H0 |]. split; [exact H1 |]. split; [exact H2 |].
  split; [exact H3 |].
  exact (UpdateMore.updateLocalFiles_writes_only_mirrored treeServer address
           sysFiles backup Excludes.empty (start mirror) _ H0 H1 H2 H3).
Defined.

Lemma updateLocalFiles_leaves_mirror_fresh_witness :
  let run := updateLocalFiles treeServer address sysFiles backup Excludes.empty
               (start rootOnly) in
  (forall p n, fault treeServer SysChtimes p n = false) /\
  (forall n, zeroTime <= wall treeServer n) /\
  (forall f, In f (Files sysFiles) -> mirrored Excludes.empty sysFiles f ->
             simpleName (Name f) = true /\ Date f <= maxNano) /\
  run = (Ok tt, run.2) /\
  forall f, In f (Files sysFiles) -> mirrored Excludes.empty sysFiles f ->
    fresh (fs run.2) (Join backup (Name f)) (Date f).
Proof.
  cbv zeta.
  assert (Hch : forall p n, fault treeServer SysChtimes p n = false)
    by (intros p n; reflexivity).
  assert (Hrun : updateLocalFiles treeServer address sysFiles backup
                   Excludes.empty (start rootOnly)
                 = (Ok tt, (updateLocalFiles treeServer address sysFiles backup
                              Excludes.empty (start rootOnly)).2))
    by (vm_compute; reflexivity).
  assert (Hwall : forall n, zeroTime <= wall treeServer n).
  { intros n. cbn. unfold clock, zeroTime. lia. }
  assert (Hent : forall f, In f (Files sysFiles) ->
                   mirrored Excludes.empty sysFiles f ->
                   simpleName (Name f) = true /\ Date f <= maxNano).
  { intros f [<- | [<- | []]] _; split; (reflexivity || discriminate). }
  split; [exact Hch |]. split; [exact Hwall |]. split; [exact Hent |].
  split; [exact Hrun |].
  exact (UpdateMore.updateLocalFiles_leaves_mirror_fresh treeServer address
           sysFiles backup Excludes.empty (start rootOnly) _ Hch Hwall Hent Hrun).
Defined.


Lemma removeDeletedFiles_keeps_listed_witness :
  In subDir (Files sysFilesLater) /\
  fs (start mirror) !! Join backup (Name subDir) = Some (Directory 1012) /\
  forall q, Join backup (Name subDir) `prefix_of` q ->
    fs (removeDeletedFiles treeServer sysFilesLater backup (start mirror)).2 !! q
    = fs (start mirror) !! q.
Proof.
  assert (Hin : In subDir (Files sysFilesLater)) by (now left).
  assert (Hnd : fs (start mirror) !! Join backup (Name subDir)
                = Some (Directory 1012)) by (vm_compute; reflexivity).
  split; [exact Hin |]. split; [exact Hnd |].
  exact (ReclaimMore.removeDeletedFiles_keeps_listed treeServer sysFilesLater
           backup (start mirror) subDir _ Hin Hnd).
Defined.

Lemma removeDeletedFiles_outcome_witness :
  let run := removeDeletedFiles treeServer nothingLeft backup (start mirror) in
  (forall c p k, fault treeServer c p k = false) /\
  isDirAt (fs (start mirror)) backup /\
  run.1 = Ok tt /\
  isDirAt (fs run.2) backup /\
  forall q, q <> backup ->
    ((exists m, reclaimable nothingLeft (fs (start mirror)) backup m /\
                Join backup m `prefix_of` q) ->
     fs run.2 !! q = None) /\
    ((forall m, reclaimable nothingLeft (fs (start mirror)) backup m ->
                ~ Join backup m `prefix_of` q) ->
     fs run.2 !! q = fs (start mirror) !! q).
Proof.
  cbv zeta.
  assert (Hf : forall c p k, fault treeServer c p k = false)
    by (intros c p k; reflexivity).
  assert (Hd : isDirAt (fs (start mirror)) backup).
  { exists 1009. vm_compute. reflexivity. }
  split; [exact Hf |]. split; [exact Hd |].
  exact (ReclaimMore.removeDeletedFiles_outcome treeServer nothingLeft backup
           (start mirror) Hf Hd).
Defined.

Lemma syncFolder_listing_error_witness :
  Excludes.Contains Excludes.empty "0:/gcodes" = false /\
  http_get treeServer (listingURL address (QueryEscape treeServer "0:/gcodes"))
  = None /\
  syncFolder treeServer 3 address "0:/gcodes" backup Excludes.empty true
    (start rootOnly)
  = (Err (TransportError (listingURL address (QueryEscape treeServer "0:/gcodes"))),
     requested (listingURL address (QueryEscape treeServer "0:/gcodes"))
       (start rootOnly)).
Proof.
  split; [reflexivity |].
  assert (Hget : http_get treeServer
                   (listingURL address (QueryEscape treeServer "0:/gcodes"))
                 = None) by (vm_compute; reflexivity).
  split; [exact Hget |].
  exact (proj1 (SyncMore.syncFolder_listing_error treeServer 2 address "0:/gcodes"
                  backup Excludes.empty true (start rootOnly) eq_refl) Hget).
Defined.

Lemma syncFolder_without_removeLocal_removes_nothing_witness :
  fs (start foreign) !! ["backup"; "notes"] = Some (Directory 6) /\
  exists x',
    fs (syncFolder treeServer 3 address "0:/sys" backup Excludes.empty false
          (start foreign)).2 !! ["backup"; "notes"] = Some x' /\
    IsDir x' = IsDir (Directory 6).
Proof.
  assert (H : fs (start foreign) !! ["backup"; "notes"] = Some (Directory 6))
    by (vm_compute; reflexivity).
  split; [exact H |].
  exact (SyncMore.syncFolder_without_removeLocal_removes_nothing treeServer 3
           address "0:/sys" backup Excludes.empty (start foreign)
           ["backup"; "notes"] _ H).
Defined.

Lemma syncFolder_endless_tree_witness :
  (forall p, Excludes.Contains Excludes.empty p = false) /\
  (forall body page, json_decode loopServer body = Some page ->
     exists f, In f (rr_files page) /\ Type_ f = typeDirectory) /\
  (syncFolder loopServer 5 address "0:/sys" backup Excludes.empty false
     (start rootOnly)).1 <> Ok tt.
Proof.
  assert (Hex : forall p, Excludes.Contains Excludes.empty p = false)
    by (intros p; reflexivity).
  assert (Hdir : forall body page, json_decode loopServer body = Some page ->
            exists f, In f (rr_files page) /\ Type_ f = typeDirectory).
  { intros body page H. injection H as <-. exists subDir.
    split; [now left | reflexivity]. }
  split; [exact Hex |]. split; [exact Hdir |].
  exact (SyncMore.syncFolder_endless_tree loopServer Excludes.empty false
           Hex Hdir 5 address "0:/sys" backup (start rootOnly)).
Defined.

End MoreWitnesses.
